(** * kids-learning-playground: the game controller of [src/app/page.tsx]

    A shallow embedding of the [ChildrenGames] React component: its session
    state, the six mini-games, the level-progression routine
    [autoAdvanceLevel], the timers it schedules and the content-lookup
    helpers, followed by the properties of the specification.

    Conventions of the embedding.
    - A JavaScript [number] is an integer here ([Z]): every number the
      component stores or passes is an integer (levels, scores, indices).
    - [undefined] is [None]; reading a field of [undefined] raises a
      [TypeError], which aborts the running callback and keeps the state
      updates it had already queued.
    - One callback (a click handler or a timer callback) is one transition:
      React applies the updates queued by a callback in order and renders
      once.  A handler reads the values of the render it was created in (its
      closure); a timer callback keeps the closure of the handler that
      scheduled it.
    - The emoji literals of the source are written with their intended code
      points. *)

From stdpp Require Import base numbers list strings gmap.

Local Open Scope string_scope.
Local Open Scope list_scope.
Local Open Scope Z_scope.

(** ** JavaScript array primitives *)

(** [arr[i]]: [undefined] outside the array. *)
Definition at_index {A} (arr : list A) (i : Z) : option A :=
  if decide (0 ≤ i) then arr !! Z.to_nat i else None.

(** [arr.slice(0, e)]; [e = None] is an [undefined] end (the whole array), a
    negative end counts from the end of the array. *)
Definition slice0 {A} (arr : list A) (e : option Z) : list A :=
  match e with
  | None => arr
  | Some e =>
      if decide (e < 0) then take (length arr - Z.to_nat (- e)) arr
      else take (Z.to_nat e) arr
  end.

(** [arr.length] as a number. *)
Definition len {A} (arr : list A) : Z := Z.of_nat (length arr).

(** ** Types of the component *)

Inductive Screen := menu | game.

Inductive GameType := Memory | FindPair | Pattern | Different | Sequence | Simon.

Record GameState := mkGameState {
  type : option GameType;
  level : Z;
  maxLevel : Z;
  score : Z;
  attempts : Z
}.

Global Instance Screen_eq_dec : EqDecision Screen.
Proof. solve_decision. Defined.
Global Instance GameType_eq_dec : EqDecision GameType.
Proof. solve_decision. Defined.
Global Instance GameState_eq_dec : EqDecision GameState.
Proof. solve_decision. Defined.

(** [MAX_LEVELS] *)
Definition MAX_LEVELS (t : GameType) : Z :=
  match t with
  | Memory => 5
  | FindPair => 3
  | Pattern => 5
  | Different => 5
  | Sequence => 4
  | Simon => 10
  end.

(** ** Static content tables *)

Record PairRow := mkPair { image : string; word : string }.
Record PatternRow := mkPattern {
  p_sequence : list string; p_answer : string; p_options : list string }.
Record DifferentRow := mkDifferent { d_items : list string; d_different : Z }.
Record SequenceRow := mkSequence { q_items : list string; correctOrder : list string }.

Global Instance PairRow_eq_dec : EqDecision PairRow.
Proof. solve_decision. Defined.
Global Instance PatternRow_eq_dec : EqDecision PatternRow.
Proof. solve_decision. Defined.
Global Instance DifferentRow_eq_dec : EqDecision DifferentRow.
Proof. solve_decision. Defined.
Global Instance SequenceRow_eq_dec : EqDecision SequenceRow.
Proof. solve_decision. Defined.

Definition memoryEmojis : list string :=
  ["🐶"; "🐱"; "🐰"; "🦊"; "🐼"; "🦁"; "🐯"; "🐨";
   "🐸"; "🐵"; "🐔"; "🐧"; "🦄"; "🐬"; "🦋"; "🌈"].

Definition gridSizeMap : list Z := [4; 6; 12; 16; 20].

Definition allPairs : list PairRow :=
  [ mkPair "🐶" "Cachorro"; mkPair "🐱" "Gato"; mkPair "🐰" "Coelho";
    mkPair "🦊" "Raposa"; mkPair "🦁" "Leão"; mkPair "🐯" "Tigre";
    mkPair "🐼" "Panda"; mkPair "🐨" "Coala"; mkPair "🐸" "Sapo";
    mkPair "🦄" "Unicórnio" ].

Definition pairsCountMap : list Z := [3; 5; 7].

Definition allPatterns : list PatternRow :=
  [ mkPattern ["🔴"; "🔵"; "🔴"; "🔵"; "🔴"; "?"] "🔵" ["🔵"; "🟡"; "🟢"];
    mkPattern ["⭐"; "🌙"; "⭐"; "🌙"; "⭐"; "?"] "🌙" ["🌙"; "☀️"; "💫"];
    mkPattern ["🍎"; "🍎"; "🍊"; "🍎"; "🍎"; "?"] "🍊" ["🍊"; "🍋"; "🍇"];
    mkPattern ["🔺"; "🔻"; "🔺"; "🔻"; "🔺"; "?"] "🔻" ["🔻"; "🔶"; "⭐"];
    mkPattern ["1"; "2"; "3"; "4"; "5"; "?"] "6" ["6"; "7"; "8"];
    mkPattern ["🟢"; "🟢"; "🔵"; "🔵"; "🟢"; "🟢"; "?"] "🔵" ["🔵"; "🟡"; "🟢"];
    mkPattern ["A"; "B"; "C"; "D"; "E"; "?"] "F" ["F"; "G"; "H"];
    mkPattern ["🌸"; "🌸"; "🌺"; "🌸"; "🌸"; "?"] "🌺" ["🌺"; "🌹"; "🌷"];
    mkPattern ["2"; "4"; "6"; "8"; "10"; "?"] "12" ["12"; "14"; "16"];
    mkPattern ["⬆️"; "⬇️"; "⬆️"; "⬇️"; "⬆️"; "?"] "⬇️" ["⬇️"; "➡️"; "⬅️"] ].

Definition allLevels : list DifferentRow :=
  [ mkDifferent ["🐶"; "🐶"; "🐶"; "🐱"; "🐶"] 3;
    mkDifferent ["🔴"; "🔴"; "🔵"; "🔴"; "🔴"] 2;
    mkDifferent ["⭐"; "⭐"; "⭐"; "⭐"; "💫"] 4;
    mkDifferent ["🍎"; "🍎"; "🍊"; "🍎"; "🍎"] 2;
    mkDifferent ["🔺"; "🔺"; "🔺"; "🔶"; "🔺"] 3;
    mkDifferent ["🐶"; "🐶"; "🐶"; "🐶"; "🐱"; "🐶"] 4;
    mkDifferent ["🔴"; "🔴"; "🔵"; "🔴"; "🔴"; "🔴"] 2;
    mkDifferent ["⭐"; "⭐"; "⭐"; "⭐"; "⭐"; "💫"] 5;
    mkDifferent ["🍎"; "🍎"; "🍊"; "🍎"; "🍎"; "🍎"] 2;
    mkDifferent ["🔺"; "🔺"; "🔺"; "🔺"; "🔶"; "🔺"] 4 ].

Definition allSequences : list SequenceRow :=
  [ mkSequence ["🌱"; "🌿"; "🪴"; "🌳"] ["🌱"; "🌿"; "🪴"; "🌳"];
    mkSequence ["🥚"; "🐣"; "🐥"; "🐔"] ["🥚"; "🐣"; "🐥"; "🐔"];
    mkSequence ["1"; "2"; "3"; "4"] ["1"; "2"; "3"; "4"];
    mkSequence ["☁️"; "🌧️"; "🌈"; "☀️"] ["☁️"; "🌧️"; "🌈"; "☀️"] ].

(** ** Content-lookup helpers (bottom of the file)

    Each helper returns its result together with the [console.error] lines it
    wrote, a message and its arguments. *)

Definition LogLine : Type := string * list Z.

(** [!level || level < 1 || level > hi] *)
Definition invalidLevel (lvl hi : Z) : bool :=
  bool_decide (lvl = 0) || bool_decide (lvl < 1) || bool_decide (lvl > hi).

Definition getFindPairsForLevel (lvl : Z) : list PairRow * list LogLine :=
  if invalidLevel lvl 3 then
    (slice0 allPairs (Some 3), [("Invalid level for getFindPairsForLevel:", [lvl])])
  else
    let pairsCount := at_index pairsCountMap (lvl - 1) in
    (slice0 allPairs pairsCount, []).

Definition getPatternsForLevel (lvl index : Z) : option PatternRow * list LogLine :=
  if invalidLevel lvl 5 then
    (allPatterns !! 0%nat, [("Invalid level for getPatternsForLevel:", [lvl])])
  else
    let patternsForLevel := slice0 allPatterns (Some lvl) in
    if bool_decide (index < 0) || bool_decide (len patternsForLevel ≤ index) then
      (patternsForLevel !! 0%nat,
       [("Invalid index for getPatternsForLevel:", [lvl; index])])
    else (at_index patternsForLevel index, []).

Definition getDifferentForLevel (lvl index : Z) : option DifferentRow * list LogLine :=
  if invalidLevel lvl 5 then
    (allLevels !! 0%nat, [("Invalid level for getDifferentForLevel:", [lvl])])
  else
    let levelsForGame := slice0 allLevels (Some lvl) in
    if bool_decide (index < 0) || bool_decide (len levelsForGame ≤ index) then
      (levelsForGame !! 0%nat,
       [("Invalid index for getDifferentForLevel:", [lvl; index])])
    else (at_index levelsForGame index, []).

Definition getSequenceForLevel (lvl index : Z) : option SequenceRow * list LogLine :=
  if invalidLevel lvl 4 then
    (allSequences !! 0%nat, [("Invalid level for getSequenceForLevel:", [lvl])])
  else
    match at_index allSequences (lvl - 1) with
    | None => (allSequences !! 0%nat, [("No sequence found for level:", [lvl])])
    | Some sequence => (Some sequence, [])
    end.

(** ** Component state

    The [useState] hooks of [ChildrenGames], grouped by game, the
    [showSequenceTimeoutRef] ref, the module variable [soundEnabled], and what
    the browser keeps for the component: the clock, the pending timers with
    the closures of their callbacks, the card objects the memory arrays point
    to, and the sounds played so far. *)

Inductive Sound :=
  | correct | wrong | click | win
  | simon_green | simon_red | simon_yellow | simon_blue.

(** [SIMON_COLORS]; the styling classes are left out. *)
Record SimonColor := mkSimonColor { sc_id : Z; color : string; sound : Sound }.

Definition SIMON_COLORS : list SimonColor :=
  [ mkSimonColor 0 "green" simon_green; mkSimonColor 1 "red" simon_red;
    mkSimonColor 2 "yellow" simon_yellow; mkSimonColor 3 "blue" simon_blue ].

(** [patternFeedback] and [differentFeedback] hold ['correct'], ['wrong'] or
    [null]. *)
Inductive Feedback := fb_correct | fb_wrong.

(** A card object.  The arrays [memoryCards], [newCards] and [updatedCards]
    are copies that share these objects, so an array is a list of
    references into [cardObjects]. *)
Record Card := mkCard { c_id : Z; emoji : string; flipped : bool; matched : bool }.
Definition ref := nat.

Record SelectedPair := mkSelectedPair { sel_image : option string; sel_word : option string }.

(** What a pending timer will run, with the values its callback closed
    over.  [gs] is the [gameState] that the [autoAdvanceLevel] of the
    scheduling render reads. *)
Inductive TimerAction :=
  | TNextLevel (ty : option GameType) (lvl : Z)
  | TMemoryMatch (newCards : list ref) (first second : Z) (gs : GameState)
  | TMemoryNoMatch (newCards : list ref) (first second : Z)
  | TPatternNext (index : Z) (gs : GameState)
  | TDifferentNext (index : Z) (gs : GameState)
  | TShowSimonSequence (sequence : list Z)
  | TSimonShowNext (sequence : list Z) (index : Z)
  | TSimonHide (sequence : list Z) (index : Z)
  | TSimonAdvance (gs : GameState).

Record Timer := mkTimer { tid : nat; due : Z; action : TimerAction }.

Record MemoryG := mkMemoryG { memoryCards : list ref; selectedCards : list Z }.
Record FindPairG := mkFindPairG {
  selectedPair : SelectedPair; pairedItems : gset string; currentFindPairLevel : Z }.
Record PatternG := mkPatternG {
  currentPatternIndex : Z; patternFeedback : option Feedback }.
Record DifferentG := mkDifferentG {
  currentDifferentIndex : Z; differentFeedback : option Feedback }.
Record SequenceG := mkSequenceG { currentSequenceIndex : Z; sequenceItems : list string }.
Record SimonG := mkSimonG {
  simonSequence : list Z; playerSequence : list Z;
  isShowingSequence : bool; activeSimonButton : option Z }.
Record Modals := mkModals { showLevelCompleteModal : bool; showWinModal : bool }.

Record Runtime := mkRuntime {
  clock : Z;
  nextTimer : nat;
  pending : list Timer;
  showSequenceTimeoutRef : option nat;
  cardObjects : list Card;
  soundEnabled : bool;
  audio : list Sound
}.

Record State := mkState {
  currentScreen : Screen;
  gameState : GameState;
  memoryG : MemoryG;
  findPairG : FindPairG;
  patternG : PatternG;
  differentG : DifferentG;
  sequenceG : SequenceG;
  simonG : SimonG;
  modals : Modals;
  rt : Runtime
}.

(** The first render: the initial values of the hooks.  Timer handles start
    at 1, so that a handle is a truthy value. *)
Definition initialState : State :=
  {| currentScreen := menu;
     gameState := mkGameState None 1 1 0 0;
     memoryG := mkMemoryG [] [];
     findPairG := mkFindPairG (mkSelectedPair None None) ∅ 1;
     patternG := mkPatternG 0 None;
     differentG := mkDifferentG 0 None;
     sequenceG := mkSequenceG 0 [];
     simonG := mkSimonG [] [] false None;
     modals := mkModals false false;
     rt := mkRuntime 0 1 [] None [] true [] |}.

(** *** State setters *)

Definition setCurrentScreen (v : Screen) (s : State) : State :=
  mkState v (gameState s) (memoryG s) (findPairG s) (patternG s) (differentG s)
    (sequenceG s) (simonG s) (modals s) (rt s).

(** [setGameState(prev => f prev)]; [setGameState(v)] is [setGameState (λ _, v)]. *)
Definition setGameState (f : GameState → GameState) (s : State) : State :=
  mkState (currentScreen s) (f (gameState s)) (memoryG s) (findPairG s) (patternG s)
    (differentG s) (sequenceG s) (simonG s) (modals s) (rt s).

Definition updMemory (f : MemoryG → MemoryG) (s : State) : State :=
  mkState (currentScreen s) (gameState s) (f (memoryG s)) (findPairG s) (patternG s)
    (differentG s) (sequenceG s) (simonG s) (modals s) (rt s).

Definition updFindPair (f : FindPairG → FindPairG) (s : State) : State :=
  mkState (currentScreen s) (gameState s) (memoryG s) (f (findPairG s)) (patternG s)
    (differentG s) (sequenceG s) (simonG s) (modals s) (rt s).

Definition updPattern (f : PatternG → PatternG) (s : State) : State :=
  mkState (currentScreen s) (gameState s) (memoryG s) (findPairG s) (f (patternG s))
    (differentG s) (sequenceG s) (simonG s) (modals s) (rt s).

Definition updDifferent (f : DifferentG → DifferentG) (s : State) : State :=
  mkState (currentScreen s) (gameState s) (memoryG s) (findPairG s) (patternG s)
    (f (differentG s)) (sequenceG s) (simonG s) (modals s) (rt s).

Definition updSequence (f : SequenceG → SequenceG) (s : State) : State :=
  mkState (currentScreen s) (gameState s) (memoryG s) (findPairG s) (patternG s)
    (differentG s) (f (sequenceG s)) (simonG s) (modals s) (rt s).

Definition updSimon (f : SimonG → SimonG) (s : State) : State :=
  mkState (currentScreen s) (gameState s) (memoryG s) (findPairG s) (patternG s)
    (differentG s) (sequenceG s) (f (simonG s)) (modals s) (rt s).

Definition updModals (f : Modals → Modals) (s : State) : State :=
  mkState (currentScreen s) (gameState s) (memoryG s) (findPairG s) (patternG s)
    (differentG s) (sequenceG s) (simonG s) (f (modals s)) (rt s).

Definition updRuntime (f : Runtime → Runtime) (s : State) : State :=
  mkState (currentScreen s) (gameState s) (memoryG s) (findPairG s) (patternG s)
    (differentG s) (sequenceG s) (simonG s) (modals s) (f (rt s)).

Definition setMemoryCards (v : list ref) : State → State :=
  updMemory (λ m, mkMemoryG v (selectedCards m)).
Definition setSelectedCards (v : list Z) : State → State :=
  updMemory (λ m, mkMemoryG (memoryCards m) v).

Definition setSelectedPair (v : SelectedPair) : State → State :=
  updFindPair (λ g, mkFindPairG v (pairedItems g) (currentFindPairLevel g)).
Definition setPairedItems (f : gset string → gset string) : State → State :=
  updFindPair (λ g, mkFindPairG (selectedPair g) (f (pairedItems g)) (currentFindPairLevel g)).
Definition setCurrentFindPairLevel (v : Z) : State → State :=
  updFindPair (λ g, mkFindPairG (selectedPair g) (pairedItems g) v).

Definition setCurrentPatternIndex (f : Z → Z) : State → State :=
  updPattern (λ g, mkPatternG (f (currentPatternIndex g)) (patternFeedback g)).
Definition setPatternFeedback (v : option Feedback) : State → State :=
  updPattern (λ g, mkPatternG (currentPatternIndex g) v).

Definition setCurrentDifferentIndex (f : Z → Z) : State → State :=
  updDifferent (λ g, mkDifferentG (f (currentDifferentIndex g)) (differentFeedback g)).
Definition setDifferentFeedback (v : option Feedback) : State → State :=
  updDifferent (λ g, mkDifferentG (currentDifferentIndex g) v).

Definition setCurrentSequenceIndex (f : Z → Z) : State → State :=
  updSequence (λ g, mkSequenceG (f (currentSequenceIndex g)) (sequenceItems g)).
Definition setSequenceItems (v : list string) : State → State :=
  updSequence (λ g, mkSequenceG (currentSequenceIndex g) v).

Definition setSimonSequence (v : list Z) : State → State :=
  updSimon (λ g, mkSimonG v (playerSequence g) (isShowingSequence g) (activeSimonButton g)).
Definition setPlayerSequence (v : list Z) : State → State :=
  updSimon (λ g, mkSimonG (simonSequence g) v (isShowingSequence g) (activeSimonButton g)).
Definition setIsShowingSequence (v : bool) : State → State :=
  updSimon (λ g, mkSimonG (simonSequence g) (playerSequence g) v (activeSimonButton g)).
Definition setActiveSimonButton (v : option Z) : State → State :=
  updSimon (λ g, mkSimonG (simonSequence g) (playerSequence g) (isShowingSequence g) v).

Definition setShowLevelCompleteModal (v : bool) : State → State :=
  updModals (λ m, mkModals v (showWinModal m)).
Definition setShowWinModal (v : bool) : State → State :=
  updModals (λ m, mkModals (showLevelCompleteModal m) v).

(** Field updates of [gameState] written [{ ...prev, level, maxLevel }] etc. *)
Definition withLevel (l : Z) (g : GameState) : GameState :=
  mkGameState (type g) l (maxLevel g) (score g) (attempts g).
Definition withLevelMax (l m : Z) (g : GameState) : GameState :=
  mkGameState (type g) l m (score g) (attempts g).
Definition withScore (v : Z) (g : GameState) : GameState :=
  mkGameState (type g) (level g) (maxLevel g) v (attempts g).
Definition withAttempts (v : Z) (g : GameState) : GameState :=
  mkGameState (type g) (level g) (maxLevel g) (score g) v.

(** *** Browser services *)

(** [setTimeout(callback, delay)]: the handle and the new state. *)
Definition setTimeout (a : TimerAction) (delay : Z) (s : State) : nat * State :=
  let r := rt s in
  (nextTimer r,
   updRuntime (λ r, mkRuntime (clock r) (S (nextTimer r))
     (pending r ++ [mkTimer (nextTimer r) (clock r + delay) a])
     (showSequenceTimeoutRef r) (cardObjects r) (soundEnabled r) (audio r)) s).

(** [clearTimeout(handle)] *)
Definition clearTimeout (h : nat) : State → State :=
  updRuntime (λ r, mkRuntime (clock r) (nextTimer r)
    (filter (λ t, tid t ≠ h) (pending r))
    (showSequenceTimeoutRef r) (cardObjects r) (soundEnabled r) (audio r)).

(** [showSequenceTimeoutRef.current = v] *)
Definition setTimeoutRef (v : option nat) : State → State :=
  updRuntime (λ r, mkRuntime (clock r) (nextTimer r) (pending r) v
    (cardObjects r) (soundEnabled r) (audio r)).

Definition setClock (v : Z) : State → State :=
  updRuntime (λ r, mkRuntime v (nextTimer r) (pending r) (showSequenceTimeoutRef r)
    (cardObjects r) (soundEnabled r) (audio r)).

Definition setCardObjects (f : list Card → list Card) : State → State :=
  updRuntime (λ r, mkRuntime (clock r) (nextTimer r) (pending r) (showSequenceTimeoutRef r)
    (f (cardObjects r)) (soundEnabled r) (audio r)).

Definition setSoundEnabled (v : bool) : State → State :=
  updRuntime (λ r, mkRuntime (clock r) (nextTimer r) (pending r) (showSequenceTimeoutRef r)
    (cardObjects r) v (audio r)).

(** [playSound(type)]: nothing when the sound is off, otherwise one more
    sound on the audio boundary. *)
Definition playSound (snd : Sound) (s : State) : State :=
  if soundEnabled (rt s) then
    updRuntime (λ r, mkRuntime (clock r) (nextTimer r) (pending r) (showSequenceTimeoutRef r)
      (cardObjects r) (soundEnabled r) (audio r ++ [snd])) s
  else s.

(** [Math.random] is an input of the model: a callback receives the list
    [rnd] of the values it may draw.  [arr.sort(() => Math.random() - 0.5)]
    returns some permutation of [arr]: [shuffle] builds it by drawing the
    position of the next element. *)
Fixpoint pickOrder {A} (n : nat) (rnd : list nat) (arr : list A) : list A :=
  match n with
  | O => []
  | S n' =>
      let k := (hd 0%nat rnd `mod` length arr)%nat in
      match arr !! k with
      | Some x => x :: pickOrder n' (tl rnd) (delete k arr)
      | None => []
      end
  end.

Definition shuffle {A} (rnd : list nat) (arr : list A) : list A :=
  pickOrder (length arr) rnd arr.

(** [Array.from({ length: n }, () => Math.floor(Math.random() * 4))] *)
Definition randomButtons (rnd : list nat) (n : Z) : list Z :=
  (λ i, Z.of_nat (nth i rnd 0%nat `mod` 4)%nat) <$> seq 0 (Z.to_nat n).

(** ** Level progression *)

(** [autoAdvanceLevel], as created by a render whose [gameState] is [gs]
    (its [useCallback] dependencies are [gs.type], [gs.level] and
    [gs.maxLevel]). *)
Definition autoAdvanceLevel (gs : GameState) (s : State) : State :=
  if decide (level gs < maxLevel gs) then
    let s := setShowLevelCompleteModal true s in
    (setTimeout (TNextLevel (type gs) (level gs)) 1500 s).2
  else
    let s := setShowWinModal true s in
    playSound win s.

(** ** Memory game *)

Definition initMemoryGameAtLevel (rnd : list nat) (lvl : Z) (s : State) : State :=
  let gridSize := at_index gridSizeMap (lvl - 1) in
  let emojis :=
    match gridSize with
    | Some g => slice0 memoryEmojis (Some (g / 2))
    | None => []   (* [undefined / 2] is [NaN], and [slice(0, NaN)] is empty *)
    end in
  let objects := imap (λ index e, mkCard (Z.of_nat index) e false false) (emojis ++ emojis) in
  let cards := shuffle rnd (seq (length (cardObjects (rt s))) (length objects)) in
  let s := setCardObjects (λ h, h ++ objects) s in
  let s := setMemoryCards cards s in
  let s := setSelectedCards [] s in
  setGameState (withLevelMax lvl (MAX_LEVELS Memory)) s.

(** [arr[i]] for an array of card objects: the reference and the object. *)
Definition cardAt (s : State) (arr : list ref) (i : Z) : option (ref * Card) :=
  r ← at_index arr i; c ← cardObjects (rt s) !! r; Some (r, c).

Definition setFlipped (v : bool) (c : Card) : Card := mkCard (c_id c) (emoji c) v (matched c).
Definition setMatched (v : bool) (c : Card) : Card := mkCard (c_id c) (emoji c) (flipped c) v.

Definition handleCardClick (index : Z) (s0 : State) : State :=
  let cards0 := memoryCards (memoryG s0) in
  let selected0 := selectedCards (memoryG s0) in
  if decide (length selected0 = 2%nat) then s0 else
  match cardAt s0 cards0 index with
  | None => s0
  | Some (r, c) =>
      if matched c || flipped c then s0 else
      let s := playSound click s0 in
      let newCards := cards0 in
      let s := setCardObjects (alter (setFlipped true) r) s in
      let s := setMemoryCards newCards s in
      let newSelected := selected0 ++ [index] in
      let s := setSelectedCards newSelected s in
      if decide (length newSelected = 2%nat) then
        let s := setGameState (λ prev, withAttempts (attempts prev + 1) prev) s in
        match newSelected with
        | first :: second :: _ =>
            match cardAt s newCards first, cardAt s newCards second with
            | Some (_, a), Some (_, b) =>
                if decide (emoji a = emoji b) then
                  (setTimeout (TMemoryMatch newCards first second (gameState s0)) 500 s).2
                else
                  (setTimeout (TMemoryNoMatch newCards first second) 1000 s).2
            | _, _ => s
            end
        | _ => s
        end
      else s
  end.

(** The 500 ms callback of a match. *)
Definition memoryMatchCallback (newCards : list ref) (first second : Z) (gs : GameState)
    (s : State) : State :=
  let updatedCards := newCards in
  match at_index updatedCards first with
  | None => s
  | Some r1 =>
      let s := setCardObjects (alter (setMatched true) r1) s in
      match at_index updatedCards second with
      | None => s
      | Some r2 =>
          let s := setCardObjects (alter (setMatched true) r2) s in
          let s := setMemoryCards updatedCards s in
          let s := setSelectedCards [] s in
          let s := setGameState (λ prev, withScore (score prev + 10) prev) s in
          let s := playSound correct s in
          match mapM (λ r, cardObjects (rt s) !! r) updatedCards with
          | Some cards =>
              if forallb matched cards then autoAdvanceLevel gs (playSound win s) else s
          | None => s
          end
      end
  end.

(** The 1000 ms callback of a mismatch. *)
Definition memoryNoMatchCallback (newCards : list ref) (first second : Z) (s : State) : State :=
  let updatedCards := newCards in
  match at_index updatedCards first with
  | None => s
  | Some r1 =>
      let s := setCardObjects (alter (setFlipped false) r1) s in
      match at_index updatedCards second with
      | None => s
      | Some r2 =>
          let s := setCardObjects (alter (setFlipped false) r2) s in
          let s := setMemoryCards updatedCards s in
          let s := setSelectedCards [] s in
          playSound wrong s
      end
  end.

(** ** Find-the-pair game *)

(** The function also computes [pairsCount] and [levelPairs] and does not
    use them. *)
Definition initFindPairGameAtLevel (lvl : Z) (s : State) : State :=
  let s := setSelectedPair (mkSelectedPair None None) s in
  let s := setPairedItems (λ _, ∅) s in
  let s := setCurrentFindPairLevel lvl s in
  setGameState (withLevelMax lvl (MAX_LEVELS FindPair)) s.

(** The first parameter of [handleFindPairSelect]: ['image'] or ['word']. *)
Inductive PairSide := side_image | side_word.

(** A string value used as a condition: [null] and the empty string are
    falsy. *)
Definition truthy (v : option string) : bool :=
  match v with Some x => bool_decide (x ≠ "") | None => false end.

(** [levelPairs] of the handler: [allPairs.slice(0, [3, 5, 7][level - 1])]. *)
Definition levelPairs (lvl : Z) : list PairRow :=
  slice0 allPairs (at_index pairsCountMap (lvl - 1)).

(** [pairedItems.size === pairsCount - 1]; with [pairsCount] undefined the
    right-hand side is [NaN] and the test fails. *)
Definition isLastPair (paired : gset string) (pairsCount : option Z) : bool :=
  match pairsCount with
  | Some n => bool_decide (Z.of_nat (size paired) = n - 1)
  | None => false
  end.

Definition handleFindPairSelect (side : PairSide) (value : string) (s0 : State) : State :=
  let s := playSound click s0 in
  let pairsCount := at_index pairsCountMap (currentFindPairLevel (findPairG s0) - 1) in
  let levelPairs := slice0 allPairs pairsCount in
  let old := selectedPair (findPairG s0) in
  let newSelected :=
    match side with
    | side_image => mkSelectedPair (Some value) (sel_word old)
    | side_word => mkSelectedPair (sel_image old) (Some value)
    end in
  let s := setSelectedPair newSelected s in
  if truthy (sel_image newSelected) && truthy (sel_word newSelected) then
    let found :=
      List.find (λ p, bool_decide (Some (image p) = sel_image newSelected)
                      && bool_decide (Some (word p) = sel_word newSelected)) levelPairs in
    let s :=
      match found with
      | Some p =>
          if bool_decide (image p ∉ pairedItems (findPairG s0)) then
            let s := setPairedItems (λ prev, prev ∪ {[ image p ]}) s in
            let s := setGameState (λ prev, withScore (score prev + 10) prev) s in
            let s := playSound correct s in
            if isLastPair (pairedItems (findPairG s0)) pairsCount then
              autoAdvanceLevel (gameState s0) (playSound win s)
            else s
          else playSound wrong s
      | None => playSound wrong s
      end in
    setSelectedPair (mkSelectedPair None None) s
  else s.

(** ** Pattern game *)

(** The function also computes [patternsForLevel] and does not use it. *)
Definition initPatternGameAtLevel (lvl : Z) (s : State) : State :=
  let s := setCurrentPatternIndex (λ _, 0) s in
  let s := setPatternFeedback None s in
  setGameState (withLevelMax lvl (MAX_LEVELS Pattern)) s.

Definition feedbackOf (ok : bool) : Feedback := if ok then fb_correct else fb_wrong.
Definition soundOf (ok : bool) : Sound := if ok then correct else wrong.

Definition handlePatternAnswer (answer : string) (s0 : State) : State :=
  let patternsForLevel := slice0 allPatterns (Some (level (gameState s0))) in
  match at_index patternsForLevel (currentPatternIndex (patternG s0)) with
  | None => s0
  | Some currentPattern =>
      let ok := bool_decide (answer = p_answer currentPattern) in
      let s := setPatternFeedback (Some (feedbackOf ok)) s0 in
      let s := playSound (soundOf ok) s in
      let s := if ok then setGameState (λ prev, withScore (score prev + 10) prev) s else s in
      (setTimeout (TPatternNext (currentPatternIndex (patternG s0)) (gameState s0)) 1000 s).2
  end.

(** The 1000 ms callback of an answer. *)
Definition patternNextCallback (index : Z) (gs : GameState) (s : State) : State :=
  let patternsForLevel := slice0 allPatterns (Some (level gs)) in
  if decide (index < len patternsForLevel - 1) then
    let s := setCurrentPatternIndex (λ prev, prev + 1) s in
    setPatternFeedback None s
  else
    autoAdvanceLevel gs (playSound win s).

(** ** Find-the-different game *)

Definition initDifferentGameAtLevel (lvl : Z) (s : State) : State :=
  let s := setCurrentDifferentIndex (λ _, 0) s in
  let s := setDifferentFeedback None s in
  setGameState (withLevelMax lvl (MAX_LEVELS Different)) s.

Definition handleDifferentClick (index : Z) (s0 : State) : State :=
  let levelsForGame := slice0 allLevels (Some (level (gameState s0))) in
  match at_index levelsForGame (currentDifferentIndex (differentG s0)) with
  | None => s0
  | Some currentLevel =>
      let ok := bool_decide (index = d_different currentLevel) in
      let s := setDifferentFeedback (Some (feedbackOf ok)) s0 in
      let s := playSound (soundOf ok) s in
      let s := if ok then setGameState (λ prev, withScore (score prev + 10) prev) s else s in
      (setTimeout (TDifferentNext (currentDifferentIndex (differentG s0)) (gameState s0)) 1000 s).2
  end.

Definition differentNextCallback (index : Z) (gs : GameState) (s : State) : State :=
  let levelsForGame := slice0 allLevels (Some (level gs)) in
  if decide (index < len levelsForGame - 1) then
    let s := setCurrentDifferentIndex (λ prev, prev + 1) s in
    setDifferentFeedback None s
  else
    autoAdvanceLevel gs (playSound win s).

(** ** Sequence game *)

(** [allSequences[level - 1].items] raises a [TypeError] when the level has
    no row: [None]. *)
Definition initSequenceGameAtLevel (rnd : list nat) (lvl : Z) (s : State) : option State :=
  match at_index allSequences (lvl - 1) with
  | None => None
  | Some firstSequence =>
      let s := setSequenceItems (shuffle rnd (q_items firstSequence)) s in
      let s := setCurrentSequenceIndex (λ _, 0) s in
      Some (setGameState (withLevelMax lvl (MAX_LEVELS Sequence)) s)
  end.

Definition handleSequenceClick (rnd : list nat) (item : string) (s0 : State) : State :=
  let index0 := currentSequenceIndex (sequenceG s0) in
  let items0 := sequenceItems (sequenceG s0) in
  match at_index allSequences index0 with
  | None => s0
  | Some currentSequence =>
      let correctIndex :=
        length (filter (λ i, i ∈ correctOrder currentSequence) items0) in
      let correctItem := correctOrder currentSequence !! correctIndex in
      if decide (correctItem = Some item) then
        let s := playSound correct s0 in
        let s := setGameState (λ prev, withScore (score prev + 10) prev) s in
        let newItems := filter (λ i, i ≠ item) items0 in
        let s := setSequenceItems newItems s in
        if decide (length newItems = 0%nat) then
          if decide (index0 < len allSequences - 1) then
            match at_index allSequences (index0 + 1) with
            | Some nextSequence =>
                let s := setSequenceItems (shuffle rnd (q_items nextSequence)) s in
                setCurrentSequenceIndex (λ prev, prev + 1) s
            | None => s
            end
          else autoAdvanceLevel (gameState s0) (playSound win s)
        else s
      else playSound wrong s0
  end.

(** ** Simon game *)

(** [showSimonSequence(sequence)]: its local [index] starts at 0 and travels
    with the callbacks of this call. *)
Definition showSimonSequence (sequence : list Z) (s : State) : State :=
  let '(h, s) := setTimeout (TSimonShowNext sequence 0) 500 s in
  setTimeoutRef (Some h) s.

Definition initSimonGameAtLevel (rnd : list nat) (lvl : Z) (s : State) : State :=
  let newSequence := randomButtons rnd lvl in
  let s := setSimonSequence newSequence s in
  let s := setPlayerSequence [] s in
  let s := setIsShowingSequence true s in
  let s := setActiveSimonButton None s in
  let s := (setTimeout (TShowSimonSequence newSequence) 500 s).2 in
  setGameState (withLevelMax lvl (MAX_LEVELS Simon)) s.

(** [showNext] *)
Definition simonShowNextCallback (sequence : list Z) (index : Z) (s : State) : State :=
  if decide (index < len sequence) then
    let buttonId := at_index sequence index in
    let s := setActiveSimonButton buttonId s in
    match buttonId ≫= at_index SIMON_COLORS with
    | Some c =>
        let s := playSound (sound c) s in
        (setTimeout (TSimonHide sequence index) 500 s).2
    | None => s
    end
  else s.

(** The 500 ms callback inside [showNext]. *)
Definition simonHideCallback (sequence : list Z) (index : Z) (s : State) : State :=
  let s := setActiveSimonButton None s in
  let index := index + 1 in
  if decide (index < len sequence) then
    let '(h, s) := setTimeout (TSimonShowNext sequence index) 300 s in
    setTimeoutRef (Some h) s
  else setIsShowingSequence false s.

Definition handleSimonClick (buttonId : Z) (s0 : State) : State :=
  let g := simonG s0 in
  if isShowingSequence g then s0 else
  match at_index SIMON_COLORS buttonId with
  | None => s0
  | Some c =>
      let s := playSound (sound c) s0 in
      let newPlayerSequence := playerSequence g ++ [buttonId] in
      let s := setPlayerSequence newPlayerSequence s in
      let currentIndex := len newPlayerSequence - 1 in
      if decide (at_index newPlayerSequence currentIndex
                 ≠ at_index (simonSequence g) currentIndex) then
        let s := playSound wrong s in
        let s := setIsShowingSequence true s in
        let s := setPlayerSequence [] s in
        (setTimeout (TShowSimonSequence (simonSequence g)) 1000 s).2
      else if decide (len newPlayerSequence = len (simonSequence g)) then
        let s := playSound correct s in
        let s := setGameState
                   (λ prev, withScore (score prev + 10 * level (gameState s0)) prev) s in
        (setTimeout (TSimonAdvance (gameState s0)) 1000 s).2
      else s
  end.

(** ** Screen controller *)

(** The [switch] on the game type, in [startGame] and in the callback of
    [autoAdvanceLevel]. *)
Definition initGameAtLevel (t : GameType) (rnd : list nat) (lvl : Z) (s : State)
    : option State :=
  match t with
  | Memory => Some (initMemoryGameAtLevel rnd lvl s)
  | FindPair => Some (initFindPairGameAtLevel lvl s)
  | Pattern => Some (initPatternGameAtLevel lvl s)
  | Different => Some (initDifferentGameAtLevel lvl s)
  | Sequence => initSequenceGameAtLevel rnd lvl s
  | Simon => Some (initSimonGameAtLevel rnd lvl s)
  end.

(** [startGame] up to and including its own [setGameState]. *)
Definition startGameReset (gameType : GameType) (s : State) : State :=
  let s := playSound click s in
  let s := setShowWinModal false s in
  let s := setShowLevelCompleteModal false s in
  setGameState (λ _, mkGameState (Some gameType) 1 1 0 0) s.

Definition startGame (rnd : list nat) (gameType : GameType) (s : State) : State :=
  let s := startGameReset gameType s in
  match initGameAtLevel gameType rnd 1 s with
  | Some s => setCurrentScreen game s
  | None => s
  end.

Definition goToMenu (s : State) : State :=
  let s := playSound click s in
  let s := setCurrentScreen menu s in
  let s := setGameState (λ _, mkGameState None 1 1 0 0) s in
  let s := setShowWinModal false s in
  let s := setShowLevelCompleteModal false s in
  match showSequenceTimeoutRef (rt s) with
  | Some h => setTimeoutRef None (clearTimeout h s)
  | None => s
  end.

Definition restartGame (rnd : list nat) (s0 : State) : State :=
  let s := playSound click s0 in
  let s := setShowWinModal false s in
  let s := setShowLevelCompleteModal false s in
  match type (gameState s0) with
  | Some t => startGame rnd t s
  | None => s
  end.

(** The 1500 ms callback of [autoAdvanceLevel]. *)
Definition nextLevelCallback (rnd : list nat) (ty : option GameType) (lvl : Z) (s : State)
    : State :=
  let s := setShowLevelCompleteModal false s in
  let s := setGameState (λ prev, withLevel (level prev + 1) prev) s in
  match ty with
  | Some t =>
      match initGameAtLevel t rnd (lvl + 1) s with
      | Some s' => s'
      | None => s
      end
  | None => s
  end.

(** ** Timers and events *)

Definition runTimer (rnd : list nat) (a : TimerAction) (s : State) : State :=
  match a with
  | TNextLevel ty lvl => nextLevelCallback rnd ty lvl s
  | TMemoryMatch newCards first second gs => memoryMatchCallback newCards first second gs s
  | TMemoryNoMatch newCards first second => memoryNoMatchCallback newCards first second s
  | TPatternNext index gs => patternNextCallback index gs s
  | TDifferentNext index gs => differentNextCallback index gs s
  | TShowSimonSequence sequence => showSimonSequence sequence s
  | TSimonShowNext sequence index => simonShowNextCallback sequence index s
  | TSimonHide sequence index => simonHideCallback sequence index s
  | TSimonAdvance gs => autoAdvanceLevel gs s
  end.

(** The pending timer that is due first; among timers due at the same time,
    the one scheduled first. *)
Fixpoint earliest (l : list Timer) : option Timer :=
  match l with
  | [] => None
  | t :: l' =>
      match earliest l' with
      | Some t' => if decide (due t' < due t) then Some t' else Some t
      | None => Some t
      end
  end.

(** The controls of the page. *)
Inductive Input :=
  | ClickPlay (t : GameType)
  | ClickMenu
  | ClickRestart
  | ClickSoundToggle
  | ClickCard (index : Z)
  | ClickFindPair (side : PairSide) (value : string)
  | ClickPatternOption (opt : string)
  | ClickDifferentItem (index : Z)
  | ClickSequenceItem (item : string)
  | ClickSimonButton (buttonId : Z)
  | ClickWinBackdrop.

Definition handle (rnd : list nat) (i : Input) (s : State) : State :=
  match i with
  | ClickPlay t => startGame rnd t s
  | ClickMenu => goToMenu s
  | ClickRestart => restartGame rnd s
  | ClickSoundToggle => playSound click (setSoundEnabled (negb (soundEnabled (rt s))) s)
  | ClickCard index => handleCardClick index s
  | ClickFindPair side value => handleFindPairSelect side value s
  | ClickPatternOption opt => handlePatternAnswer opt s
  | ClickDifferentItem index => handleDifferentClick index s
  | ClickSequenceItem item => handleSequenceClick rnd item s
  | ClickSimonButton buttonId => handleSimonClick buttonId s
  | ClickWinBackdrop => setShowWinModal false s
  end.

(** What the game area of the game screen offers for the active game type:
    the buttons it renders that are not [disabled]. *)
Definition gameContentOffers (s : State) (i : Input) : bool :=
  let gs := gameState s in
  match type gs, i with
  | Some Memory, ClickCard index =>
      bool_decide (0 ≤ index < len (memoryCards (memoryG s)))
  | Some FindPair, ClickFindPair side value =>
      existsb
        (λ item,
           bool_decide (match side with side_image => image item | side_word => word item end
                        = value)
           && bool_decide (image item ∉ pairedItems (findPairG s)))
        (getFindPairsForLevel (currentFindPairLevel (findPairG s))).1
  | Some Pattern, ClickPatternOption opt =>
      match (getPatternsForLevel (level gs) (currentPatternIndex (patternG s))).1 with
      | Some row =>
          bool_decide (opt ∈ p_options row)
          && bool_decide (patternFeedback (patternG s) = None)
      | None => false
      end
  | Some Different, ClickDifferentItem index =>
      match (getDifferentForLevel (level gs) (currentDifferentIndex (differentG s))).1 with
      | Some row =>
          bool_decide (0 ≤ index < len (d_items row))
          && bool_decide (differentFeedback (differentG s) = None)
      | None => false
      end
  | Some Sequence, ClickSequenceItem item =>
      match (getSequenceForLevel (level gs) (currentSequenceIndex (sequenceG s))).1 with
      | Some _ => bool_decide (item ∈ sequenceItems (sequenceG s))
      | None => false
      end
  | Some Simon, ClickSimonButton buttonId =>
      bool_decide (buttonId ∈ sc_id <$> SIMON_COLORS)
      && negb (isShowingSequence (simonG s))
  | _, _ => false
  end.

(** The controls that can be clicked in a state.  The two modals are
    full-screen overlays of the game screen: the win modal offers its
    backdrop and its own menu and restart buttons, the level-complete modal
    offers nothing, and both cover the rest of the page. *)
Definition rendered (s : State) (i : Input) : bool :=
  match currentScreen s with
  | menu => match i with ClickPlay _ => true | _ => false end
  | game =>
      if showWinModal (modals s) then
        match i with ClickWinBackdrop | ClickMenu | ClickRestart => true | _ => false end
      else if showLevelCompleteModal (modals s) then false
      else
        match i with
        | ClickMenu | ClickRestart | ClickSoundToggle => true
        | ClickPlay _ | ClickWinBackdrop => false
        | _ => gameContentOffers s i
        end
  end.

(** An event of the page: a click on a rendered control, the pending timer
    that is due first firing, or time passing up to the next timer. *)
Inductive Event :=
  | User (i : Input)
  | Fire
  | Wait (d : Z).

Definition step (rnd : list nat) (e : Event) (s : State) : option State :=
  match e with
  | User i => if rendered s i then Some (handle rnd i s) else None
  | Fire =>
      match earliest (pending (rt s)) with
      | Some t =>
          let s := setClock (Z.max (clock (rt s)) (due t)) s in
          Some (runTimer rnd (action t) (clearTimeout (tid t) s))
      | None => None
      end
  | Wait d =>
      if bool_decide (0 ≤ d)
         && forallb (λ t, bool_decide (clock (rt s) + d ≤ due t)) (pending (rt s))
      then Some (setClock (clock (rt s) + d) s)
      else None
  end.

Fixpoint run (evs : list (Event * list nat)) (s : State) : option State :=
  match evs with
  | [] => Some s
  | (e, rnd) :: evs' =>
      match step rnd e s with
      | Some s' => run evs' s'
      | None => None
      end
  end.

(** The states the page can be in. *)
Inductive reachable : State → Prop :=
  | reachable_init : reachable initialState
  | reachable_step s rnd e s' : reachable s → step rnd e s = Some s' → reachable s'.

(** ** Vocabulary of the properties *)

(** The inputs that start or end a session. *)
Definition isControl (i : Input) : bool :=
  match i with
  | ClickPlay _ | ClickMenu | ClickRestart => true
  | _ => false
  end.

(** The levels captured by the closure of a timer are at least 1. *)
Definition timerLevelOk (a : TimerAction) : Prop :=
  match a with
  | TNextLevel _ lvl => 1 ≤ lvl
  | TMemoryMatch _ _ _ gs | TPatternNext _ gs | TDifferentNext _ gs
  | TSimonAdvance gs => 1 ≤ level gs
  | _ => True
  end.

(** The level is at least 1, in the session state and in every pending
    closure. *)
Definition levelPositive (s : State) : Prop :=
  1 ≤ level (gameState s)
  ∧ Forall (λ t, timerLevelOk (action t)) (pending (rt s)).

(** On the game screen a game type is set. *)
Definition screenTyped (s : State) : Prop :=
  currentScreen s = game → is_Some (type (gameState s)).

(** A click on a card of the memory game flips the second card of a pair
    when one card is selected and the clicked card is neither matched nor
    face up. *)
Definition flipsSecondCard (s : State) (index : Z) : bool :=
  bool_decide (length (selectedCards (memoryG s)) = 1%nat)
  && match cardAt s (memoryCards (memoryG s)) index with
     | Some (_, c) => negb (matched c || flipped c)
     | None => false
     end.

(** The images of the pairs shown at a find-the-pair level. *)
Definition levelImages (lvl : Z) : list string := image <$> levelPairs lvl.

(** Every matched image is an image of the level on screen. *)
Definition pairedWithinLevel (s : State) : Prop :=
  ∀ x, x ∈ pairedItems (findPairG s)
       → x ∈ levelImages (currentFindPairLevel (findPairG s)).

(** A play-through in which a pattern session is left for the menu while
    the callback of its last answer is pending, and a find-the-pair session
    is started and played. *)
Definition staleTimerTrace : list (Event * list nat) :=
  [ (User (ClickPlay Pattern), []);
    (User (ClickPatternOption "🔵"), []); (Fire, []); (Fire, []);
    (User (ClickPatternOption "🔵"), []); (Fire, []);
    (User (ClickPatternOption "🌙"), []);
    (Wait 300, []); (User ClickMenu, []);
    (Wait 300, []); (User (ClickPlay FindPair), []);
    (Fire, []); (Fire, []);
    (User (ClickFindPair side_image "🐶"), []);
    (User (ClickFindPair side_word "Cachorro"), []);
    (User (ClickFindPair side_image "🐱"), []);
    (User (ClickFindPair side_word "Gato"), []);
    (User (ClickFindPair side_image "🐰"), []);
    (User (ClickFindPair side_word "Coelho"), []);
    (Fire, []) ].

(** A play-through in which a pattern session is restarted while the
    callback of the last answer of its level 2 is pending. *)
Definition restartTrace : list (Event * list nat) :=
  [ (User (ClickPlay Pattern), []);
    (User (ClickPatternOption "🔵"), []); (Fire, []); (Fire, []);
    (User (ClickPatternOption "🔵"), []); (Fire, []);
    (User (ClickPatternOption "🌙"), []);
    (Wait 300, []); (User ClickRestart, []);
    (Fire, []); (Fire, []) ].

(** The find-the-pair selection once the clicked picture or word has
    joined it. *)
Definition selectionAfter (side : PairSide) (value : string) (s : State) : SelectedPair :=
  match side with
  | side_image => mkSelectedPair (Some value) (sel_word (selectedPair (findPairG s)))
  | side_word => mkSelectedPair (sel_image (selectedPair (findPairG s))) (Some value)
  end.

(** The click completes the picture and the word of [p], a pair of the
    level on screen that is not matched yet. *)
Definition matchesNewPair (side : PairSide) (value : string) (s : State) (p : PairRow)
    : Prop :=
  p ∈ levelPairs (currentFindPairLevel (findPairG s))
  ∧ selectionAfter side value s = mkSelectedPair (Some (image p)) (Some (word p))
  ∧ image p ∉ pairedItems (findPairG s).

(** ** Vocabulary of the further properties *)

(** A pattern challenge that can be answered: exactly one of its option
    buttons carries the answer. *)
Definition patternSolvable (row : PatternRow) : Prop :=
  p_answer row ∈ p_options row ∧ NoDup (p_options row).

(** An odd-one-out challenge that can be answered: [different] is a
    position of [items], the item there is unlike every other item, and
    the other items are all alike. *)
Definition oddOneOut (row : DifferentRow) : Prop :=
  let rest := delete (Z.to_nat (d_different row)) (d_items row) in
  0 ≤ d_different row
  ∧ is_Some (at_index (d_items row) (d_different row))
  ∧ Forall (λ a, Some a ≠ at_index (d_items row) (d_different row)) rest
  ∧ Forall (λ a, Forall (λ b, a = b) rest) rest.

(** A sequence challenge whose board shows exactly the items to order. *)
Definition sequenceSolvable (row : SequenceRow) : Prop :=
  q_items row = correctOrder row ∧ NoDup (correctOrder row).

(** What a lookup returned is a row, and the row can be answered. *)
Definition answerable {A} (P : A → Prop) (r : option A) : Prop :=
  match r with Some row => P row | None => False end.

Definition sessionNumbersOk (g : GameState) : Prop :=
  1 ≤ level g ∧ 1 ≤ maxLevel g ∧ 0 ≤ score g ∧ (10 | score g) ∧ 0 ≤ attempts g.

(** The emojis dealt at a memory level with [g] cards. *)
Definition deckEmojis (g : Z) : list string :=
  slice0 memoryEmojis (Some (g / 2)) ++ slice0 memoryEmojis (Some (g / 2)).

(** The card arrays a pending timer holds point to card objects, and the
    two positions it holds lie inside its array. *)
Definition timerCardsOk (h : nat) (a : TimerAction) : Prop :=
  match a with
  | TMemoryMatch newCards first second _ | TMemoryNoMatch newCards first second =>
      Forall (λ r, (r < h)%nat) newCards ∧ NoDup newCards
      ∧ 0 ≤ first < len newCards ∧ 0 ≤ second < len newCards
  | _ => True
  end.

(** At most two cards are selected, the selected positions are positions of
    the deck on screen, and every card of the deck is a card object. *)
Definition memoryOk (s : State) : Prop :=
  (length (selectedCards (memoryG s)) ≤ 2)%nat
  ∧ Forall (λ i, 0 ≤ i < len (memoryCards (memoryG s))) (selectedCards (memoryG s))
  ∧ Forall (λ r, (r < length (cardObjects (rt s)))%nat) (memoryCards (memoryG s))
  ∧ NoDup (memoryCards (memoryG s))
  ∧ Forall (λ t, timerCardsOk (length (cardObjects (rt s))) (action t)) (pending (rt s)).

(** The memory game with the cards [sel] turned up and waiting for the
    next card, with nothing else going on. *)
Definition memoryTurn (sel : list Z) (s : State) : Prop :=
  currentScreen s = game ∧ modals s = mkModals false false
  ∧ type (gameState s) = Some Memory
  ∧ selectedCards (memoryG s) = sel ∧ pending (rt s) = [].

(** The timer a second card leaves behind. *)
Definition pairTimer (s : State) (i j : Z) (same : bool) : Timer :=
  if same then
    mkTimer (nextTimer (rt s)) (clock (rt s) + 500)
      (TMemoryMatch (memoryCards (memoryG s)) i j (gameState s))
  else
    mkTimer (nextTimer (rt s)) (clock (rt s) + 1000)
      (TMemoryNoMatch (memoryCards (memoryG s)) i j).

(** A card object later in its life: the same card, and still matched if
    it was. *)
Definition cardGrows (c c' : Card) : Prop :=
  c_id c' = c_id c ∧ emoji c' = emoji c ∧ (matched c = true → matched c' = true).

(** The card objects later on: every object is still there, at its
    reference, and has grown. *)
Definition heapGrows (h h' : list Card) : Prop :=
  ∀ r c, h !! r = Some c → ∃ c', h' !! r = Some c' ∧ cardGrows c c'.

(** The find-the-pair game at level [lvl] with the selection [sel]. *)
Definition findPairTurn (lvl : Z) (sel : SelectedPair) (s : State) : Prop :=
  currentScreen s = game ∧ modals s = mkModals false false
  ∧ type (gameState s) = Some FindPair
  ∧ currentFindPairLevel (findPairG s) = lvl
  ∧ selectedPair (findPairG s) = sel.

(** No two rows of [allPairs] share an image or a word, and none is
    empty. *)
Definition pairsDistinct (rows : list PairRow) : Prop :=
  Forall (λ p, image p ≠ "" ∧ word p ≠ ""
               ∧ Forall (λ q, (image p = image q ∨ word p = word q) → p = q) rows) rows.

(** The pattern game waiting for the answer to challenge [k] of level
    [lvl], with nothing else going on. *)
Definition patternTurn (lvl k : Z) (s : State) : Prop :=
  currentScreen s = game ∧ modals s = mkModals false false
  ∧ type (gameState s) = Some Pattern ∧ level (gameState s) = lvl
  ∧ currentPatternIndex (patternG s) = k ∧ patternFeedback (patternG s) = None
  ∧ pending (rt s) = [].

(** The points of an answer. *)
Definition points (ok : bool) : Z := if ok then 10 else 0.

(** The odd-one-out game waiting for the answer to challenge [k] of level
    [lvl], with nothing else going on. *)
Definition differentTurn (lvl k : Z) (s : State) : Prop :=
  currentScreen s = game ∧ modals s = mkModals false false
  ∧ type (gameState s) = Some Different ∧ level (gameState s) = lvl
  ∧ currentDifferentIndex (differentG s) = k ∧ differentFeedback (differentG s) = None
  ∧ pending (rt s) = [].





(** A button id of [SIMON_COLORS]. *)
Definition validButton (b : Z) : Prop := 0 ≤ b < 4.

(** The sequences held by the playback timers are made of button ids. *)
Definition timerButtonsOk (a : TimerAction) : Prop :=
  match a with
  | TShowSimonSequence sequence | TSimonShowNext sequence _ | TSimonHide sequence _ =>
      Forall validButton sequence
  | _ => True
  end.

(** The sequence to repeat is made of button ids and the player has
    repeated a prefix of it. *)
Definition simonOk (s : State) : Prop :=
  Forall validButton (simonSequence (simonG s))
  ∧ playerSequence (simonG s) `prefix_of` simonSequence (simonG s)
  ∧ Forall (λ t, timerButtonsOk (action t)) (pending (rt s)).

(** The sounds of the buttons of a sequence, in order. *)
Definition buttonSounds (sequence : list Z) : list Sound :=
  omap (λ b, sound <$> at_index SIMON_COLORS b) sequence.

(** What a playback leaves alone. *)
Definition playbackFrame (s s' : State) : Prop :=
  currentScreen s' = currentScreen s ∧ gameState s' = gameState s
  ∧ modals s' = modals s
  ∧ simonSequence (simonG s') = simonSequence (simonG s)
  ∧ playerSequence (simonG s') = playerSequence (simonG s)
  ∧ soundEnabled (rt s') = soundEnabled (rt s).

Definition heard (s : State) (l : list Sound) : list Sound :=
  if soundEnabled (rt s) then audio (rt s) ++ l else audio (rt s).

(** The Simon game waiting for the player, with nothing else going on. *)
Definition simonTurn (s : State) : Prop :=
  currentScreen s = game ∧ modals s = mkModals false false
  ∧ type (gameState s) = Some Simon
  ∧ isShowingSequence (simonG s) = false ∧ pending (rt s) = [].

(** The state without the audio boundary: the sound switch off and nothing
    played. *)
Definition silence (s : State) : State :=
  updRuntime (λ r, mkRuntime (clock r) (nextTimer r) (pending r) (showSequenceTimeoutRef r)
    (cardObjects r) false []) s.

(** * Properties *)

(** ** Content lookups *)

Lemma invalidLevel_true lvl hi : ¬ (1 ≤ lvl ≤ hi) → invalidLevel lvl hi = true.
Proof.
  intros H. unfold invalidLevel.
  repeat case_bool_decide; simpl; try reflexivity; lia.
Qed.

Lemma invalidLevel_false lvl hi : 1 ≤ lvl ≤ hi → invalidLevel lvl hi = false.
Proof.
  intros H. unfold invalidLevel.
  repeat case_bool_decide; simpl; try reflexivity; lia.
Qed.

Lemma level_cases_5 lvl : 1 ≤ lvl ≤ 5 → lvl = 1 ∨ lvl = 2 ∨ lvl = 3 ∨ lvl = 4 ∨ lvl = 5.
Proof. lia. Qed.

Lemma getPatternsForLevel_bad_index lvl index :
  1 ≤ lvl ≤ 5 → ¬ (0 ≤ index < lvl) →
  getPatternsForLevel lvl index
  = (head allPatterns, [("Invalid index for getPatternsForLevel:", [lvl; index])]).
Proof.
  intros Hl Hi. unfold getPatternsForLevel. rewrite invalidLevel_false by done.
  destruct (level_cases_5 lvl Hl) as [->|[->|[->|[->| ->]]]]; cbn;
    repeat case_bool_decide; simpl; first [reflexivity | exfalso; unfold len in *; simpl in *; lia].
Qed.

Lemma getDifferentForLevel_bad_index lvl index :
  1 ≤ lvl ≤ 5 → ¬ (0 ≤ index < lvl) →
  getDifferentForLevel lvl index
  = (head allLevels, [("Invalid index for getDifferentForLevel:", [lvl; index])]).
Proof.
  intros Hl Hi. unfold getDifferentForLevel. rewrite invalidLevel_false by done.
  destruct (level_cases_5 lvl Hl) as [->|[->|[->|[->| ->]]]]; cbn;
    repeat case_bool_decide; simpl; first [reflexivity | exfalso; unfold len in *; simpl in *; lia].
Qed.

Lemma getPatternsForLevel_defined lvl index : is_Some (getPatternsForLevel lvl index).1.
Proof.
  unfold getPatternsForLevel. destruct (invalidLevel lvl 5) eqn:E; [by eexists|].
  assert (1 ≤ lvl ≤ 5) as Hl.
  { unfold invalidLevel in E. repeat case_bool_decide; simpl in E; try done; lia. }
  destruct (decide (0 ≤ index < lvl)) as [Hi|Hi].
  - destruct (level_cases_5 lvl Hl) as [->|[->|[->|[->| ->]]]]; cbn;
      repeat case_bool_decide; simpl; try (by eexists);
      assert (index = 0 ∨ index = 1 ∨ index = 2 ∨ index = 3 ∨ index = 4) as Hc by lia;
      destruct Hc as [->|[->|[->|[->| ->]]]]; try lia; by eexists.
  - pose proof (getPatternsForLevel_bad_index lvl index Hl Hi) as H.
    unfold getPatternsForLevel in H. rewrite E in H. rewrite H. by eexists.
Qed.

Lemma getDifferentForLevel_defined lvl index : is_Some (getDifferentForLevel lvl index).1.
Proof.
  unfold getDifferentForLevel. destruct (invalidLevel lvl 5) eqn:E; [by eexists|].
  assert (1 ≤ lvl ≤ 5) as Hl.
  { unfold invalidLevel in E. repeat case_bool_decide; simpl in E; try done; lia. }
  destruct (decide (0 ≤ index < lvl)) as [Hi|Hi].
  - destruct (level_cases_5 lvl Hl) as [->|[->|[->|[->| ->]]]]; cbn;
      repeat case_bool_decide; simpl; try (by eexists);
      assert (index = 0 ∨ index = 1 ∨ index = 2 ∨ index = 3 ∨ index = 4) as Hc by lia;
      destruct Hc as [->|[->|[->|[->| ->]]]]; try lia; by eexists.
  - pose proof (getDifferentForLevel_bad_index lvl index Hl Hi) as H.
    unfold getDifferentForLevel in H. rewrite E in H. rewrite H. by eexists.
Qed.

Lemma getSequenceForLevel_in_range lvl index :
  1 ≤ lvl ≤ 4 →
  getSequenceForLevel lvl index = (at_index allSequences (lvl - 1), [])
  ∧ is_Some (at_index allSequences (lvl - 1)).
Proof.
  intros Hl. unfold getSequenceForLevel. rewrite invalidLevel_false by done.
  assert (lvl = 1 ∨ lvl = 2 ∨ lvl = 3 ∨ lvl = 4) as [->|[->|[->| ->]]] by lia;
    cbn; split; first [reflexivity | by eexists].
Qed.

(** C5, as the code has it.  A level outside the declared range makes each
    of the four lookups write one [console.error] line and return its first
    entry (for [getFindPairsForLevel], the pairs of level 1).  With a level
    in range, [getPatternsForLevel] and [getDifferentForLevel] do the same
    for an index outside [0, level); [getSequenceForLevel] does not read its
    index and returns the row of the level, without logging.  No lookup
    returns [undefined]. *)
Theorem lookups_fall_back_to_first_entry (lvl index : Z) :
  (¬ (1 ≤ lvl ≤ 3) →
     getFindPairsForLevel lvl
     = (take 3 allPairs, [("Invalid level for getFindPairsForLevel:", [lvl])]))
  ∧ (¬ (1 ≤ lvl ≤ 5) →
     getPatternsForLevel lvl index
     = (head allPatterns, [("Invalid level for getPatternsForLevel:", [lvl])]))
  ∧ (¬ (1 ≤ lvl ≤ 5) →
     getDifferentForLevel lvl index
     = (head allLevels, [("Invalid level for getDifferentForLevel:", [lvl])]))
  ∧ (¬ (1 ≤ lvl ≤ 4) →
     getSequenceForLevel lvl index
     = (head allSequences, [("Invalid level for getSequenceForLevel:", [lvl])]))
  ∧ (1 ≤ lvl ≤ 5 → ¬ (0 ≤ index < lvl) →
     getPatternsForLevel lvl index
     = (head allPatterns, [("Invalid index for getPatternsForLevel:", [lvl; index])]))
  ∧ (1 ≤ lvl ≤ 5 → ¬ (0 ≤ index < lvl) →
     getDifferentForLevel lvl index
     = (head allLevels, [("Invalid index for getDifferentForLevel:", [lvl; index])]))
  ∧ (1 ≤ lvl ≤ 4 →
     getSequenceForLevel lvl index = (at_index allSequences (lvl - 1), []))
  ∧ (getFindPairsForLevel lvl).1 ≠ []
  ∧ is_Some (getPatternsForLevel lvl index).1
  ∧ is_Some (getDifferentForLevel lvl index).1
  ∧ is_Some (getSequenceForLevel lvl index).1.
Proof.
  split_and!.
  - intros H. unfold getFindPairsForLevel. by rewrite invalidLevel_true.
  - intros H. unfold getPatternsForLevel. by rewrite invalidLevel_true.
  - intros H. unfold getDifferentForLevel. by rewrite invalidLevel_true.
  - intros H. unfold getSequenceForLevel. by rewrite invalidLevel_true.
  - apply getPatternsForLevel_bad_index.
  - apply getDifferentForLevel_bad_index.
  - intros H. apply getSequenceForLevel_in_range, H.
  - unfold getFindPairsForLevel. destruct (invalidLevel lvl 3) eqn:E; [done|].
    assert (1 ≤ lvl ≤ 3) as Hl.
    { unfold invalidLevel in E. repeat case_bool_decide; simpl in E; try done; lia. }
    assert (lvl = 1 ∨ lvl = 2 ∨ lvl = 3) as [->|[->| ->]] by lia; done.
  - apply getPatternsForLevel_defined.
  - apply getDifferentForLevel_defined.
  - destruct (decide (1 ≤ lvl ≤ 4)) as [H|H].
    + destruct (getSequenceForLevel_in_range lvl index H) as [-> ?]. done.
    + unfold getSequenceForLevel. rewrite invalidLevel_true by done. by eexists.
Qed.

(** The fall-back at concrete out-of-range arguments. *)
Lemma lookups_fall_back_witness :
  getFindPairsForLevel 7
  = (take 3 allPairs, [("Invalid level for getFindPairsForLevel:", [7])])
  ∧ getPatternsForLevel 0 0
    = (head allPatterns, [("Invalid level for getPatternsForLevel:", [0])])
  ∧ getDifferentForLevel 3 (-1)
    = (head allLevels, [("Invalid index for getDifferentForLevel:", [3; -1])])
  ∧ getSequenceForLevel 2 99 = (at_index allSequences (2 - 1), []).
Proof.
  split_and!.
  - apply (lookups_fall_back_to_first_entry 7 0). lia.
  - apply (lookups_fall_back_to_first_entry 0 0). lia.
  - apply (lookups_fall_back_to_first_entry 3 (-1)); lia.
  - apply (lookups_fall_back_to_first_entry 2 99). lia.
Defined.

(** C5 as stated fails for [getSequenceForLevel]: at level 2 with the
    out-of-range index 99 it logs nothing and returns the second row, not the
    first. *)
Lemma getSequenceForLevel_ignores_index :
  getSequenceForLevel 2 99 = (allSequences !! 1%nat, [])
  ∧ (getSequenceForLevel 2 99).2 = []
  ∧ (getSequenceForLevel 2 99).1 ≠ head allSequences.
Proof. split_and!; [reflexivity | reflexivity | discriminate]. Qed.

(** ** Symbolic execution of a callback

    Every callback builds its result from the fields of the state it starts
    in, so once that state is split into its fields the projections of the
    result compute. *)

Ltac split_state s :=
  let scr := fresh "scr" in let gs := fresh "gs" in let mem := fresh "mem" in
  let fp := fresh "fp" in let pat := fresh "pat" in let dif := fresh "dif" in
  let sq := fresh "sq" in let sim := fresh "sim" in let mo := fresh "mo" in
  let clk := fresh "clk" in let nt := fresh "nt" in let pend := fresh "pend" in
  let tref := fresh "tref" in let objs := fresh "objs" in let aud := fresh "aud" in
  destruct s as [scr gs mem fp pat dif sq sim mo [clk nt pend tref objs [|] aud]].

(** ** Starting a game *)

Lemma initSequenceGameAtLevel_1 rnd s :
  initSequenceGameAtLevel rnd 1 s
  = Some (setGameState (withLevelMax 1 (MAX_LEVELS Sequence))
            (setCurrentSequenceIndex (λ _, 0)
               (setSequenceItems (shuffle rnd ["🌱"; "🌿"; "🪴"; "🌳"]) s))).
Proof. reflexivity. Qed.

Lemma initGameAtLevel_1_gameState rnd t s :
  ∃ s1, initGameAtLevel t rnd 1 s = Some s1
        ∧ gameState s1 = withLevelMax 1 (MAX_LEVELS t) (gameState s)
        ∧ currentScreen s1 = currentScreen s.
Proof.
  destruct t; cbn [initGameAtLevel]; try rewrite initSequenceGameAtLevel_1;
    eexists; (split; [reflexivity|]); split_state s; split; reflexivity.
Qed.

Lemma startGameReset_gameState t s :
  gameState (startGameReset t s) = mkGameState (Some t) 1 1 0 0
  ∧ currentScreen (startGameReset t s) = currentScreen s.
Proof. split_state s; split; reflexivity. Qed.

Lemma startGame_gameState rnd t s :
  gameState (startGame rnd t s) = mkGameState (Some t) 1 (MAX_LEVELS t) 0 0
  ∧ currentScreen (startGame rnd t s) = game.
Proof.
  unfold startGame.
  destruct (initGameAtLevel_1_gameState rnd t (startGameReset t s)) as (s1 & -> & Hg & _).
  destruct (startGameReset_gameState t s) as [Hr _]. rewrite Hr in Hg.
  split; [|reflexivity]. destruct s1; simpl in *. by subst.
Qed.

(** Case analysis first, projections last: the [if]s and [match]es of a
    callback are split before the setters are unfolded. *)
Ltac proj_simpl :=
  cbn [currentScreen gameState memoryG findPairG patternG differentG sequenceG simonG
       modals rt type level maxLevel score attempts memoryCards selectedCards
       selectedPair pairedItems currentFindPairLevel currentPatternIndex patternFeedback
       currentDifferentIndex differentFeedback currentSequenceIndex sequenceItems
       simonSequence playerSequence isShowingSequence activeSimonButton
       showLevelCompleteModal showWinModal clock nextTimer pending
       showSequenceTimeoutRef cardObjects soundEnabled audio sel_image sel_word
       tid due action
       setTimeoutRef setClock setCardObjects setSoundEnabled clearTimeout
       setTimeout playSound
       setMemoryCards setSelectedCards setSelectedPair setPairedItems
       setCurrentFindPairLevel setCurrentPatternIndex setPatternFeedback
       setCurrentDifferentIndex setDifferentFeedback setCurrentSequenceIndex
       setSequenceItems setSimonSequence setPlayerSequence setIsShowingSequence
       setActiveSimonButton setShowLevelCompleteModal setShowWinModal
       setCurrentScreen setGameState
       updMemory updFindPair updPattern updDifferent updSequence updSimon
       updModals updRuntime withLevel withLevelMax withScore withAttempts
       fst snd] in *.

Ltac exec :=
  repeat first [ progress cbv beta iota zeta | case_match | case_decide ];
  simplify_eq; proj_simpl.

Ltac unfold_callbacks :=
  unfold handle, restartGame, startGame, startGameReset, goToMenu,
    handleCardClick, handleFindPairSelect, handlePatternAnswer, handleDifferentClick,
    handleSequenceClick, handleSimonClick,
    runTimer, nextLevelCallback, memoryMatchCallback, memoryNoMatchCallback,
    patternNextCallback, differentNextCallback, showSimonSequence,
    simonShowNextCallback, simonHideCallback,
    initGameAtLevel, initMemoryGameAtLevel, initFindPairGameAtLevel,
    initPatternGameAtLevel, initDifferentGameAtLevel, initSequenceGameAtLevel,
    initSimonGameAtLevel, autoAdvanceLevel, setTimeout in *.

(** ** What playing a game leaves alone *)

Lemma handle_play_frame rnd i s :
  isControl i = false →
  currentScreen (handle rnd i s) = currentScreen s
  ∧ type (gameState (handle rnd i s)) = type (gameState s)
  ∧ (0 ≤ level (gameState s) → score (gameState s) ≤ score (gameState (handle rnd i s))).
Proof.
  intros Hc. split_state s; destruct i; try discriminate Hc;
    unfold_callbacks; exec; split_and!; try done; try lia; nia.
Qed.

Lemma runTimer_play_frame rnd a s :
  currentScreen (runTimer rnd a s) = currentScreen s
  ∧ type (gameState (runTimer rnd a s)) = type (gameState s)
  ∧ attempts (gameState (runTimer rnd a s)) = attempts (gameState s)
  ∧ score (gameState s) ≤ score (gameState (runTimer rnd a s)).
Proof.
  split_state s; destruct a; unfold_callbacks; exec; split_and!; try done; lia.
Qed.

(** ** The level never drops below 1 *)

Lemma Forall_filter_keep {A} (P : A → Prop) (Q : A → Prop) `{∀ x, Decision (Q x)} l :
  Forall P l → Forall P (filter Q l).
Proof.
  rewrite !Forall_forall. intros Hl x Hx. apply Hl.
  apply list_elem_of_filter in Hx. tauto.
Qed.

Ltac level_positive :=
  unfold levelPositive in *; proj_simpl;
  repeat match goal with H : _ ∧ _ |- _ => destruct H end;
  split;
  [ first [lia | done]
  | rewrite ?Forall_app; repeat split;
    first [ assumption
          | by apply Forall_filter_keep
          | repeat constructor; simpl; first [lia | done] ] ].

Lemma handle_levelPositive rnd i s : levelPositive s → levelPositive (handle rnd i s).
Proof.
  unfold levelPositive. intros [H1 H2].
  split_state s; destruct i; unfold_callbacks; exec; level_positive.
Qed.

Lemma runTimer_levelPositive rnd a s :
  timerLevelOk a → levelPositive s → levelPositive (runTimer rnd a s).
Proof.
  unfold levelPositive. intros Ha [H1 H2].
  split_state s; destruct a; unfold_callbacks; exec; simpl in Ha; level_positive.
Qed.

Lemma earliest_elem l t : earliest l = Some t → t ∈ l.
Proof.
  revert t. induction l as [|t0 l IH]; intros t; simpl; [done|].
  destruct (earliest l) as [t'|] eqn:E.
  - case_decide; intros [= <-]; [right; by apply IH | left].
  - intros [= <-]. left.
Qed.

Lemma step_levelPositive rnd e s s' :
  levelPositive s → step rnd e s = Some s' → levelPositive s'.
Proof.
  intros H. destruct e as [i| |d]; simpl.
  - case_match; [|done]. intros [= <-]. by apply handle_levelPositive.
  - destruct (earliest (pending (rt s))) as [t|] eqn:E; [|done]. intros [= <-].
    apply earliest_elem in E. destruct H as [H1 H2].
    apply runTimer_levelPositive.
    + rewrite Forall_forall in H2. by apply H2.
    + split_state s; (split; [exact H1|]); simpl in *; by apply Forall_filter_keep.
  - case_match; [|done]. intros [= <-]. split_state s; exact H.
Qed.

Lemma reachable_levelPositive s : reachable s → levelPositive s.
Proof.
  induction 1 as [|s rnd e s' _ IH Hstep].
  - split; [simpl; lia | constructor].
  - by eapply step_levelPositive.
Qed.

Lemma run_reachable evs s s' : reachable s → run evs s = Some s' → reachable s'.
Proof.
  revert s. induction evs as [|[e rnd] evs IH]; intros s Hs; simpl.
  - by intros [= <-].
  - destruct (step rnd e s) as [s1|] eqn:E; [|done].
    apply IH. by eapply reachable_step.
Qed.

(** ** The game screen always has a game type *)

Lemma handle_control_screenTyped rnd i s :
  isControl i = true → screenTyped s → screenTyped (handle rnd i s).
Proof.
  unfold screenTyped. intros Hc H.
  destruct i; try discriminate Hc; cbn [handle].
  - destruct (startGame_gameState rnd t s) as [-> _]. by eexists.
  - split_state s; unfold_callbacks; exec; done.
  - unfold restartGame. case_match.
    + intros _. match goal with |- context [startGame ?r ?t ?x] =>
        destruct (startGame_gameState r t x) as [-> _] end. by eexists.
    + split_state s; proj_simpl; intros Hg; destruct (H Hg) as [? ?]; congruence.
Qed.

Lemma step_screenTyped rnd e s s' :
  screenTyped s → step rnd e s = Some s' → screenTyped s'.
Proof.
  intros H. destruct e as [i| |d]; simpl.
  - case_match; [|done]. intros [= <-].
    destruct (isControl i) eqn:Hc; [by apply handle_control_screenTyped|].
    destruct (handle_play_frame rnd i s Hc) as (Hs & Ht & _).
    unfold screenTyped. by rewrite Hs, Ht.
  - destruct (earliest (pending (rt s))) as [t|] eqn:E; [|done]. intros [= <-].
    match goal with |- screenTyped (runTimer ?r ?a ?x) =>
      destruct (runTimer_play_frame r a x) as (Hs & Ht & _) end.
    unfold screenTyped. rewrite Hs, Ht. split_state s; exact H.
  - case_match; [|done]. intros [= <-]. split_state s; exact H.
Qed.

Lemma reachable_screenTyped s : reachable s → screenTyped s.
Proof.
  induction 1 as [|s rnd e s' _ IH Hstep]; [done|]. by eapply step_screenTyped.
Qed.

(** C1, as the code has it.  [startGame t] first stores
    [{type: t, level: 1, maxLevel: 1, score: 0, attempts: 0}], without
    changing the screen; the [init(1)] of the variant then succeeds and sets
    [maxLevel] to the declared total of [t]; the screen changes to the game
    view last.  At completion the session state is
    [{t, 1, MAX_LEVELS t, 0, 0}] on the game screen, and in every state the
    page can reach the game screen has a game type. *)
Theorem startGame_establishes_session (rnd : list nat) (t : GameType) (s : State) :
  gameState (startGameReset t s) = mkGameState (Some t) 1 1 0 0
  ∧ currentScreen (startGameReset t s) = currentScreen s
  ∧ (∃ s1, initGameAtLevel t rnd 1 (startGameReset t s) = Some s1
           ∧ gameState s1 = mkGameState (Some t) 1 (MAX_LEVELS t) 0 0
           ∧ currentScreen s1 = currentScreen s
           ∧ startGame rnd t s = setCurrentScreen game s1)
  ∧ gameState (startGame rnd t s) = mkGameState (Some t) 1 (MAX_LEVELS t) 0 0
  ∧ currentScreen (startGame rnd t s) = game
  ∧ (∀ s', reachable s' → currentScreen s' = game → is_Some (type (gameState s'))).
Proof.
  destruct (startGameReset_gameState t s) as [Hr Hs].
  destruct (initGameAtLevel_1_gameState rnd t (startGameReset t s)) as (s1 & Hi & Hg & Hc).
  destruct (startGame_gameState rnd t s) as [Hg' Hc'].
  split_and!; try done.
  - exists s1. split_and!.
    + exact Hi.
    + rewrite Hg, Hr. reflexivity.
    + congruence.
    + unfold startGame. by rewrite Hi.
  - intros s' Hs'. by apply reachable_screenTyped.
Qed.

(** C1 as stated fails on [maxLevel]: after the update that [startGame]
    makes before [init(1)] runs, the memory session has [maxLevel = 1], not
    its declared total 5. *)
Lemma startGame_first_update_maxLevel :
  maxLevel (gameState (startGameReset Memory initialState)) = 1
  ∧ MAX_LEVELS Memory = 5
  ∧ gameState (startGameReset Memory initialState)
    ≠ mkGameState (Some Memory) 1 (MAX_LEVELS Memory) 0 0.
Proof. split_and!; [reflexivity | reflexivity | discriminate]. Qed.

(** ** Level progression *)

Lemma initGameAtLevel_gameState t rnd lvl s s1 :
  initGameAtLevel t rnd lvl s = Some s1 →
  gameState s1 = withLevelMax lvl (MAX_LEVELS t) (gameState s)
  ∧ currentScreen s1 = currentScreen s
  ∧ modals s1 = modals s.
Proof.
  split_state s; destruct t; unfold_callbacks; exec; intros; simplify_eq; done.
Qed.

Lemma initGameAtLevel_is_Some t rnd lvl s :
  1 ≤ lvl ≤ MAX_LEVELS t → is_Some (initGameAtLevel t rnd lvl s).
Proof.
  intros Hl. destruct t; cbn [initGameAtLevel]; try (by eexists).
  unfold initSequenceGameAtLevel. simpl in Hl.
  assert (lvl = 1 ∨ lvl = 2 ∨ lvl = 3 ∨ lvl = 4) as [->|[->|[->| ->]]] by lia;
    by eexists.
Qed.

Lemma autoAdvanceLevel_advance gs s :
  level gs < maxLevel gs →
  autoAdvanceLevel gs s
  = (setTimeout (TNextLevel (type gs) (level gs)) 1500
       (setShowLevelCompleteModal true s)).2.
Proof. intros H. unfold autoAdvanceLevel. by case_decide. Qed.

Lemma autoAdvanceLevel_win gs s :
  ¬ (level gs < maxLevel gs) →
  autoAdvanceLevel gs s = playSound win (setShowWinModal true s).
Proof. intros H. unfold autoAdvanceLevel. by case_decide. Qed.

(** What the level progression does, relative to the closure it was
    created in.  [gs] is the session state of the render in which a game
    signals that its puzzle is complete, for the variant [t] with its
    declared number of levels.  Below the last level, [autoAdvanceLevel]
    shows the level-complete modal and schedules one timer 1500 ms ahead;
    whenever that timer runs (in a state [s2]) it hides the modal and the
    [init] of [t] runs for level [level gs + 1], the level of the closure
    plus one, whatever the session of [s2] is.  On the last level it shows
    the win modal, schedules nothing and leaves the level alone. *)
Lemma autoAdvanceLevel_closure_progression
    (rnd : list nat) (t : GameType) (gs : GameState) (s s2 : State) :
  type gs = Some t → maxLevel gs = MAX_LEVELS t → 1 ≤ level gs ≤ maxLevel gs →
  (level gs < maxLevel gs →
     showLevelCompleteModal (modals (autoAdvanceLevel gs s)) = true
     ∧ showWinModal (modals (autoAdvanceLevel gs s)) = showWinModal (modals s)
     ∧ gameState (autoAdvanceLevel gs s) = gameState s
     ∧ pending (rt (autoAdvanceLevel gs s))
       = pending (rt s)
         ++ [mkTimer (nextTimer (rt s)) (clock (rt s) + 1500)
               (TNextLevel (Some t) (level gs))]
     ∧ showLevelCompleteModal
         (modals (runTimer rnd (TNextLevel (Some t) (level gs)) s2)) = false
     ∧ initGameAtLevel t rnd (level gs + 1)
         (setGameState (λ prev, withLevel (level prev + 1) prev)
            (setShowLevelCompleteModal false s2))
       = Some (runTimer rnd (TNextLevel (Some t) (level gs)) s2)
     ∧ gameState (runTimer rnd (TNextLevel (Some t) (level gs)) s2)
       = mkGameState (type (gameState s2)) (level gs + 1) (MAX_LEVELS t)
           (score (gameState s2)) (attempts (gameState s2))
     ∧ (level (gameState s2) = level gs →
        level (gameState (runTimer rnd (TNextLevel (Some t) (level gs)) s2))
        = level (gameState s2) + 1))
  ∧ (level gs = maxLevel gs →
     showWinModal (modals (autoAdvanceLevel gs s)) = true
     ∧ showLevelCompleteModal (modals (autoAdvanceLevel gs s))
       = showLevelCompleteModal (modals s)
     ∧ gameState (autoAdvanceLevel gs s) = gameState s
     ∧ pending (rt (autoAdvanceLevel gs s)) = pending (rt s)).
Proof.
  intros Ht Hm Hl. split.
  - intros Hlt. rewrite autoAdvanceLevel_advance by done. rewrite Ht.
    set (s2' := setGameState (λ prev, withLevel (level prev + 1) prev)
                  (setShowLevelCompleteModal false s2)).
    destruct (initGameAtLevel_is_Some t rnd (level gs + 1) s2') as [s3 Hs3]; [lia|].
    assert (runTimer rnd (TNextLevel (Some t) (level gs)) s2 = s3) as ->.
    { cbn [runTimer]. unfold nextLevelCallback. fold s2'. by rewrite Hs3. }
    destruct (initGameAtLevel_gameState _ _ _ _ _ Hs3) as (Hg & _ & Hmo).
    assert (gameState s3
            = mkGameState (type (gameState s2)) (level gs + 1) (MAX_LEVELS t)
                (score (gameState s2)) (attempts (gameState s2))) as Hg3.
    { rewrite Hg. subst s2'. split_state s2; reflexivity. }
    split_and!.
    + split_state s; reflexivity.
    + split_state s; reflexivity.
    + split_state s; reflexivity.
    + split_state s; reflexivity.
    + rewrite Hmo. subst s2'. split_state s2; reflexivity.
    + exact Hs3.
    + exact Hg3.
    + intros E. rewrite Hg3, E. reflexivity.
  - intros Heq. rewrite autoAdvanceLevel_win by lia.
    split_and!; split_state s; reflexivity.
Qed.

(** C3 on the code.  The callbacks of a session that was left keep
    running, and the level progression works on what their closures hold.
    A pattern session is restarted within the second that follows the last
    answer of its level 2: the new session is at level 1 with nothing
    answered, yet the callback of that answer declares a level complete, and
    1500 ms later the session is at level 3, two levels up.  In the
    play-through of the abandoned session that is followed by a
    find-the-pair session, the [init] that the progression runs is the
    pattern game's, while the find-the-pair game is the active one and its
    board stays at level 1. *)
Theorem level_advance_of_an_abandoned_session :
  (∃ s0 s1 s2 s3,
     run (take 7 restartTrace) initialState = Some s0
     ∧ gameState s0 = mkGameState (Some Pattern) 2 5 30 0
     ∧ pending (rt s0)
       = [mkTimer 4 4500 (TPatternNext 1 (mkGameState (Some Pattern) 2 5 20 0))]
     ∧ run [(Wait 300, []); (User ClickRestart, [])] s0 = Some s1
     ∧ gameState s1 = mkGameState (Some Pattern) 1 5 0 0
     ∧ patternG s1 = mkPatternG 0 None
     ∧ modals s1 = mkModals false false
     ∧ pending (rt s1) = pending (rt s0)
     ∧ step [] Fire s1 = Some s2
     ∧ gameState s2 = gameState s1
     ∧ patternG s2 = patternG s1
     ∧ modals s2 = mkModals true false
     ∧ pending (rt s2) = [mkTimer 5 6000 (TNextLevel (Some Pattern) 2)]
     ∧ step [] Fire s2 = Some s3
     ∧ clock (rt s3) = clock (rt s2) + 1500
     ∧ modals s3 = mkModals false false
     ∧ gameState s3 = mkGameState (Some Pattern) 3 5 0 0
     ∧ level (gameState s3) ≠ level (gameState s2) + 1)
  ∧ (∃ sa sb,
       run (take 12 staleTimerTrace) initialState = Some sa
       ∧ gameState sa = mkGameState (Some FindPair) 1 3 0 0
       ∧ modals sa = mkModals true false
       ∧ pending (rt sa) = [mkTimer 5 6000 (TNextLevel (Some Pattern) 2)]
       ∧ patternG sa = mkPatternG 1 (Some fb_correct)
       ∧ step [] Fire sa = Some sb
       ∧ gameState sb = mkGameState (Some FindPair) 3 5 0 0
       ∧ patternG sb = mkPatternG 0 None
       ∧ findPairG sb = findPairG sa
       ∧ currentFindPairLevel (findPairG sb) = 1).
Proof.
  split.
  - eexists _, _, _, _. split_and!; try (vm_compute; reflexivity).
    vm_compute. discriminate.
  - eexists _, _. split_and!; vm_compute; reflexivity.
Qed.

(** ** Score and attempts *)

Lemma rendered_restart_on_game s : rendered s ClickRestart = true → currentScreen s = game.
Proof. unfold rendered. by destruct (currentScreen s). Qed.

Lemma handle_control_resets rnd i s :
  isControl i = true → is_Some (type (gameState s)) →
  score (gameState (handle rnd i s)) = 0 ∧ attempts (gameState (handle rnd i s)) = 0.
Proof.
  intros Hc [t Ht]. destruct i; try discriminate Hc; cbn [handle].
  - by destruct (startGame_gameState rnd t0 s) as [-> _].
  - split_state s; unfold_callbacks; exec; done.
  - unfold restartGame. rewrite Ht.
    match goal with |- context [startGame ?r ?t ?x] =>
      by destruct (startGame_gameState r t x) as [-> _] end.
Qed.

(** C4.  In every state the page can reach, an event that neither starts
    nor ends a session (a click inside a game, a timer firing, time passing)
    leaves the score at least as high as it was, and starting a game, by the
    menu or by the restart button, sets the score to 0 (as does returning to
    the menu). *)
Theorem score_monotone_in_session
    (rnd : list nat) (e : Event) (s s' : State) (t : GameType) :
  reachable s → step rnd e s = Some s' →
  score (gameState (startGame rnd t s)) = 0
  ∧ match e with
    | User (ClickPlay _) | User ClickRestart | User ClickMenu =>
        score (gameState s') = 0
    | _ => score (gameState s) ≤ score (gameState s')
    end.
Proof.
  intros Hr Hstep. split.
  { by destruct (startGame_gameState rnd t s) as [-> _]. }
  pose proof (reachable_levelPositive s Hr) as [Hlvl _].
  pose proof (reachable_screenTyped s Hr) as Hty.
  destruct e as [i| |d]; simpl in Hstep.
  - destruct (rendered s i) eqn:Hren; [|done]. injection Hstep as <-.
    destruct (isControl i) eqn:Hc.
    + assert (∀ x, is_Some (type (gameState x)) → score (gameState (handle rnd i x)) = 0)
        as Hreset by (intros x Hx; by apply handle_control_resets).
      destruct i; try discriminate Hc.
      * cbn [handle]. by destruct (startGame_gameState rnd t0 s) as [-> _].
      * split_state s; unfold_callbacks; exec; done.
      * apply Hreset, Hty. by apply rendered_restart_on_game.
    + destruct (handle_play_frame rnd i s Hc) as (_ & _ & Hsc).
      destruct i; try discriminate Hc; apply Hsc; lia.
  - destruct (earliest (pending (rt s))) as [tm|] eqn:E; [|done]. injection Hstep as <-.
    match goal with |- _ ≤ score (gameState (runTimer ?r ?a ?x)) =>
      destruct (runTimer_play_frame r a x) as (_ & _ & _ & Hsc) end.
    etrans; [|exact Hsc]. split_state s; reflexivity.
  - case_match; [|done]. injection Hstep as <-. split_state s; reflexivity.
Qed.

(** A correct answer in a pattern session that has just started. *)
Lemma score_monotone_in_session_witness :
  ∃ s s', run [(User (ClickPlay Pattern), [])] initialState = Some s
    ∧ step [] (User (ClickPatternOption "🔵")) s = Some s'
    ∧ score (gameState s) ≤ score (gameState s').
Proof.
  eexists _, _. split; [reflexivity|]. split; [vm_compute; reflexivity|].
  refine (proj2 (score_monotone_in_session [] (User (ClickPatternOption "🔵")) _ _ Memory
                   _ _)).
  - eapply (run_reachable [(User (ClickPlay Pattern), [])]); [constructor | reflexivity].
  - vm_compute. reflexivity.
Defined.

Lemma handleCardClick_attempts index s :
  attempts (gameState (handleCardClick index s))
  = attempts (gameState s) + (if flipsSecondCard s index then 1 else 0).
Proof.
  unfold flipsSecondCard.
  split_state s; destruct mem as [cards sel]; unfold_callbacks; proj_simpl; exec;
    repeat case_bool_decide; simpl in *;
    repeat match goal with
      | H : left _ = left _ |- _ => clear H
      | H : right _ = right _ |- _ => clear H
      | H : _ ++ [_] = _ |- _ =>
          apply (f_equal length) in H; rewrite length_app in H; simpl in H
      end;
    rewrite ?length_app in *; simpl in *; first [lia | done].
Qed.

Lemma handle_attempts rnd i s :
  attempts (gameState (handle rnd i s))
  = match i with
    | ClickPlay _ | ClickMenu => 0
    | ClickRestart =>
        match type (gameState s) with Some _ => 0 | None => attempts (gameState s) end
    | ClickCard index =>
        attempts (gameState s) + (if flipsSecondCard s index then 1 else 0)
    | _ => attempts (gameState s)
    end.
Proof.
  destruct i; try apply handleCardClick_attempts;
    split_state s; unfold_callbacks; exec; done.
Qed.

(** C10.  The attempts counter after an event of the page: a click that
    flips the second card of a pair adds exactly 1, whether or not the two
    cards match; every other click inside a game, every timer callback (the
    level change included) and the passing of time leave it unchanged;
    [startGame] and the [init] of any variant at any level behave as stated,
    the first sets it to 0 and the second keeps it.  (Returning to the menu
    puts back the initial session state, whose counter is 0.) *)
Theorem attempts_only_memory_flips
    (rnd : list nat) (e : Event) (s s' : State) (t : GameType) (lvl : Z) :
  step rnd e s = Some s' →
  attempts (gameState (startGame rnd t s)) = 0
  ∧ (∀ s1, initGameAtLevel t rnd lvl s = Some s1 →
           attempts (gameState s1) = attempts (gameState s))
  ∧ attempts (gameState s')
    = match e with
      | User (ClickPlay _) | User ClickMenu => 0
      | User ClickRestart =>
          match type (gameState s) with Some _ => 0 | None => attempts (gameState s) end
      | User (ClickCard index) =>
          attempts (gameState s) + (if flipsSecondCard s index then 1 else 0)
      | _ => attempts (gameState s)
      end.
Proof.
  intros Hstep. split_and!.
  - by destruct (startGame_gameState rnd t s) as [-> _].
  - intros s1 H1. destruct (initGameAtLevel_gameState _ _ _ _ _ H1) as (-> & _).
    reflexivity.
  - destruct e as [i| |d]; simpl in Hstep.
    + case_match; [|done]. injection Hstep as <-.
      rewrite handle_attempts. by destruct i.
    + destruct (earliest (pending (rt s))) as [tm|] eqn:E; [|done]. injection Hstep as <-.
      match goal with |- attempts (gameState (runTimer ?r ?a ?x)) = _ =>
        destruct (runTimer_play_frame r a x) as (_ & _ & -> & _) end.
      split_state s; reflexivity.
    + case_match; [|done]. injection Hstep as <-. split_state s; reflexivity.
Qed.

(** ** The pattern game at level 1 *)

Lemma pattern_level1_row :
  at_index (slice0 allPatterns (Some 1)) 0
  = Some (mkPattern ["🔴"; "🔵"; "🔴"; "🔵"; "🔴"; "?"] "🔵" ["🔵"; "🟡"; "🟢"]).
Proof. reflexivity. Qed.

Lemma handlePatternAnswer_level1 opt s :
  level (gameState s) = 1 → currentPatternIndex (patternG s) = 0 →
  handlePatternAnswer opt s
  = (setTimeout (TPatternNext 0 (gameState s)) 1000
       (let ok := bool_decide (opt = "🔵") in
        let s1 := playSound (soundOf ok) (setPatternFeedback (Some (feedbackOf ok)) s) in
        if ok then setGameState (λ prev, withScore (score prev + 10) prev) s1 else s1)).2.
Proof.
  intros Hl Hi. unfold handlePatternAnswer. rewrite Hl, Hi, pattern_level1_row.
  reflexivity.
Qed.

Lemma patternNextCallback_level1 gs s :
  level gs = 1 → patternNextCallback 0 gs s = autoAdvanceLevel gs (playSound win s).
Proof.
  intros Hl. unfold patternNextCallback. rewrite Hl.
  case_decide as H; [|reflexivity]. vm_compute in H. discriminate.
Qed.

(** C7, as the code has it.  In a pattern session at level 1 of 5, on its
    only challenge: a wrong option leaves the score unchanged and sets the
    feedback to ['wrong']; the option 🔵 adds exactly 10 and sets it to
    ['correct'].  The answer schedules a callback 1000 ms ahead which
    completes the level: as level 1 is below the last level 5 it shows the
    level-complete modal, not the win modal, and the callback this schedules
    1500 ms ahead puts the session at level 2. *)
Theorem pattern_level1_answer (rnd : list nat) (opt : string) (s : State) :
  type (gameState s) = Some Pattern →
  level (gameState s) = 1 → maxLevel (gameState s) = 5 →
  currentPatternIndex (patternG s) = 0 →
  let s1 := handlePatternAnswer opt s in
  let s2 := runTimer rnd (TPatternNext 0 (gameState s)) s1 in
  let s3 := runTimer rnd (TNextLevel (Some Pattern) 1) s2 in
  (opt ≠ "🔵" →
     score (gameState s1) = score (gameState s)
     ∧ patternFeedback (patternG s1) = Some fb_wrong)
  ∧ (opt = "🔵" →
     score (gameState s1) = score (gameState s) + 10
     ∧ patternFeedback (patternG s1) = Some fb_correct)
  ∧ pending (rt s1)
    = pending (rt s)
      ++ [mkTimer (nextTimer (rt s)) (clock (rt s) + 1000) (TPatternNext 0 (gameState s))]
  ∧ showLevelCompleteModal (modals s2) = true
  ∧ showWinModal (modals s2) = showWinModal (modals s)
  ∧ gameState s2 = gameState s1
  ∧ mkTimer (nextTimer (rt s1)) (clock (rt s1) + 1500) (TNextLevel (Some Pattern) 1)
    ∈ pending (rt s2)
  ∧ gameState s3
    = mkGameState (Some Pattern) 2 5 (score (gameState s1)) (attempts (gameState s))
  ∧ showLevelCompleteModal (modals s3) = false
  ∧ showWinModal (modals s3) = showWinModal (modals s).
Proof.
  intros Ht Hl Hm Hi s1 s2 s3.
  assert (level (gameState s) < maxLevel (gameState s)) as Hlt by lia.
  subst s3 s2 s1. cbn [runTimer].
  rewrite (patternNextCallback_level1 _ _ Hl).
  rewrite (autoAdvanceLevel_advance _ _ Hlt).
  rewrite (handlePatternAnswer_level1 _ _ Hl Hi).
  unfold nextLevelCallback, initGameAtLevel, initPatternGameAtLevel.
  split_state s; destruct gs as [ty lv mx sc att]; simpl in Ht, Hl, Hm, Hi; subst.
  all: cbv zeta; case_bool_decide; proj_simpl; simpl;
    split_and!; try done; try (intros; split; done);
    try (apply elem_of_app; right; left).
Qed.

(** The first answer of a pattern session that has just started. *)
Lemma pattern_level1_answer_witness :
  score (gameState (handlePatternAnswer "🔵" (startGame [] Pattern initialState)))
  = score (gameState (startGame [] Pattern initialState)) + 10
  ∧ patternFeedback (patternG (handlePatternAnswer "🔵" (startGame [] Pattern initialState)))
    = Some fb_correct.
Proof.
  apply (pattern_level1_answer [] "🔵" (startGame [] Pattern initialState));
    reflexivity.
Defined.

(** C7 as stated fails on its last clause: after the correct answer at
    level 1 and the 1000 ms callback, the page shows the level-complete
    modal, not the win modal, with the score at 10; 1500 ms later the session
    is at level 2 of 5 with no modal. *)
Lemma pattern_level1_not_session_complete :
  ∃ s s',
    run [ (User (ClickPlay Pattern), []); (User (ClickPatternOption "🔵"), []);
          (Fire, []) ] initialState = Some s
    ∧ score (gameState s) = 10
    ∧ showWinModal (modals s) = false
    ∧ showLevelCompleteModal (modals s) = true
    ∧ step [] Fire s = Some s'
    ∧ gameState s' = mkGameState (Some Pattern) 2 5 10 0
    ∧ modals s' = mkModals false false.
Proof. eexists _, _. split_and!; vm_compute; reflexivity. Qed.

(** ** The sequence game *)

Lemma pickOrder_perm {A} (n : nat) (rnd : list nat) (arr : list A) :
  length arr = n → pickOrder n rnd arr ≡ₚ arr.
Proof.
  revert rnd arr. induction n as [|n IH]; intros rnd arr Hn; simpl.
  - by destruct arr.
  - assert ((hd 0 rnd `mod` length arr < length arr)%nat) as Hk.
    { apply Nat.mod_upper_bound. lia. }
    destruct (lookup_lt_is_Some_2 arr _ Hk) as [x Hx]. rewrite Hx.
    etrans; [|symmetry; apply (delete_Permutation arr _ x Hx)]. constructor.
    apply IH. rewrite length_delete by eauto. lia.
Qed.

Lemma shuffle_perm {A} (rnd : list nat) (arr : list A) : shuffle rnd arr ≡ₚ arr.
Proof. by apply pickOrder_perm. Qed.

Lemma filter_all {A} (P : A → Prop) `{∀ x, Decision (P x)} (l : list A) :
  Forall P l → filter P l = l.
Proof.
  induction 1 as [|x l Hx _ IH]; [done|].
  rewrite filter_cons_True by done. by rewrite IH.
Qed.

Lemma playSound_frame snd s :
  gameState (playSound snd s) = gameState s ∧ sequenceG (playSound snd s) = sequenceG s.
Proof. unfold playSound. by case_match. Qed.

Lemma startGame_Sequence_state rnd s :
  sequenceG (startGame rnd Sequence s)
  = mkSequenceG 0 (shuffle rnd ["🌱"; "🌿"; "🪴"; "🌳"]).
Proof. split_state s; reflexivity. Qed.

(** C8 on the code.  In a sequence session that has just started no item
    has been removed, yet every click is rejected, the click on the first
    item of [correctOrder] included: the handler counts the items that
    remain (4), not those removed (0), and looks for [correctOrder[4]]. *)
Theorem sequence_first_item_rejected (rnd rnd' : list nat) (item : string) (s : State) :
  sequenceItems (sequenceG (startGame rnd Sequence s)) ≡ₚ ["🌱"; "🌿"; "🪴"; "🌳"]
  ∧ (correctOrder <$> at_index allSequences
                        (currentSequenceIndex (sequenceG (startGame rnd Sequence s))))
    = Some ["🌱"; "🌿"; "🪴"; "🌳"]
  ∧ handleSequenceClick rnd' item (startGame rnd Sequence s)
    = playSound wrong (startGame rnd Sequence s)
  ∧ score (gameState (handleSequenceClick rnd' "🌱" (startGame rnd Sequence s)))
    = score (gameState (startGame rnd Sequence s))
  ∧ sequenceItems (sequenceG (handleSequenceClick rnd' "🌱" (startGame rnd Sequence s)))
    = sequenceItems (sequenceG (startGame rnd Sequence s)).
Proof.
  pose proof (startGame_Sequence_state rnd s) as Hs.
  pose proof (shuffle_perm rnd ["🌱"; "🌿"; "🪴"; "🌳"]) as Hp.
  assert (∀ it, handleSequenceClick rnd' it (startGame rnd Sequence s)
                = playSound wrong (startGame rnd Sequence s)) as Hw.
  { intros it. unfold handleSequenceClick. rewrite Hs. cbn [currentSequenceIndex sequenceItems].
    change (at_index allSequences 0)
      with (Some (mkSequence ["🌱"; "🌿"; "🪴"; "🌳"] ["🌱"; "🌿"; "🪴"; "🌳"])).
    cbv beta iota zeta. cbn [correctOrder].
    rewrite filter_all.
    - rewrite (Permutation_length Hp). by case_decide.
    - rewrite Forall_forall. intros x Hx. by rewrite Hp in Hx. }
  split_and!.
  - by rewrite Hs.
  - by rewrite Hs.
  - apply Hw.
  - rewrite Hw. by destruct (playSound_frame wrong (startGame rnd Sequence s)) as (-> & _).
  - rewrite Hw. by destruct (playSound_frame wrong (startGame rnd Sequence s)) as (_ & ->).
Qed.

(** ** Points for a correct answer *)

Lemma len_snoc {A} (l : list A) (x : A) : len (l ++ [x]) - 1 = len l.
Proof. unfold len. rewrite length_app. simpl. lia. Qed.

Lemma at_index_snoc {A} (l : list A) (x : A) : at_index (l ++ [x]) (len l) = Some x.
Proof.
  unfold at_index, len. case_decide; [|lia].
  rewrite Nat2Z.id. by rewrite lookup_app_r, Nat.sub_diag.
Qed.

(** C9 as stated fails for the Simon game.  At level 2, with the sequence
    green, red shown, the correct first button is accepted (it is recorded and
    no replay starts) and the score stays at 10: nothing is added for a
    correct answer that does not finish the puzzle.  The button that
    finishes the sequence then adds 20 at level 2, where the one finishing
    level 1 had added 10. *)
Lemma simon_intermediate_scores_nothing :
  ∃ s s' s'',
    run [ (User (ClickPlay Simon), [0%nat]); (Fire, []); (Fire, []); (Fire, []);
          (User (ClickSimonButton 0), []); (Fire, []); (Fire, [0%nat; 1%nat]);
          (Fire, []); (Fire, []); (Fire, []); (Fire, []); (Fire, []) ] initialState
    = Some s
    ∧ gameState s = mkGameState (Some Simon) 2 10 10 0
    ∧ simonG s = mkSimonG [0; 1] [] false None
    ∧ step [] (User (ClickSimonButton 0)) s = Some s'
    ∧ simonG s' = mkSimonG [0; 1] [0] false None
    ∧ pending (rt s') = []
    ∧ score (gameState s') = score (gameState s)
    ∧ step [] (User (ClickSimonButton 1)) s' = Some s''
    ∧ score (gameState s'') = score (gameState s') + 20.
Proof. eexists _, _, _. split_and!; vm_compute; reflexivity. Qed.

(** The second card flipped in a memory game at level 1 (it does not match
    the first). *)
Lemma attempts_only_memory_flips_witness :
  ∃ s s',
    run [(User (ClickPlay Memory), [0; 0; 0; 0]%nat); (User (ClickCard 0), [])]
      initialState = Some s
    ∧ step [] (User (ClickCard 1)) s = Some s'
    ∧ flipsSecondCard s 1 = true
    ∧ attempts (gameState s') = attempts (gameState s) + 1.
Proof.
  eexists _, _. split; [vm_compute; reflexivity|]. split; [vm_compute; reflexivity|].
  split; [vm_compute; reflexivity|].
  match goal with
  | |- attempts (gameState ?s') = attempts (gameState ?s) + 1 =>
      destruct (attempts_only_memory_flips [] (User (ClickCard 1)) s s' Memory 1)
        as (_ & _ & ->); vm_compute; reflexivity
  end.
Defined.

(** ** Completing a level of the find-the-pair game *)

(** What one selection does to the matched set and to the modals. *)
Lemma handleFindPairSelect_cases side value s :
  (pairedItems (findPairG (handleFindPairSelect side value s)) = pairedItems (findPairG s)
   ∧ currentFindPairLevel (findPairG (handleFindPairSelect side value s))
     = currentFindPairLevel (findPairG s)
   ∧ modals (handleFindPairSelect side value s) = modals s)
  ∨ (∃ p, p ∈ levelPairs (currentFindPairLevel (findPairG s))
       ∧ (image p ∉ pairedItems (findPairG s))
       ∧ pairedItems (findPairG (handleFindPairSelect side value s))
         = pairedItems (findPairG s) ∪ {[ image p ]}
       ∧ currentFindPairLevel (findPairG (handleFindPairSelect side value s))
         = currentFindPairLevel (findPairG s)
       ∧ if isLastPair (pairedItems (findPairG s))
              (at_index pairsCountMap (currentFindPairLevel (findPairG s) - 1))
         then (showLevelCompleteModal (modals (handleFindPairSelect side value s))
               || showWinModal (modals (handleFindPairSelect side value s))) = true
         else modals (handleFindPairSelect side value s) = modals s).
Proof.
  unfold levelPairs.
  split_state s; unfold handleFindPairSelect, autoAdvanceLevel, setTimeout; exec;
    try (left; done);
    right;
    match goal with
    | H : find _ _ = Some ?p |- _ =>
        exists p; apply find_some in H as [Hin _]; apply list_elem_of_In in Hin
    end;
    repeat case_bool_decide; try done;
    split_and!; try done; simpl; by rewrite ?orb_true_r.
Qed.

Lemma handle_pairedWithinLevel rnd i s :
  pairedWithinLevel s → pairedWithinLevel (handle rnd i s).
Proof.
  unfold pairedWithinLevel. intros H.
  destruct i;
    try (split_state s; unfold_callbacks; exec;
         first [exact H | intros x Hx; by apply not_elem_of_empty in Hx]).
  cbn [handle].
  destruct (handleFindPairSelect_cases side value s)
    as [(-> & -> & _)|(p & Hp & _ & -> & -> & _)]; [exact H|].
  intros x [Hx| ->%elem_of_singleton]%elem_of_union; [by apply H|].
  unfold levelImages. by apply list_elem_of_fmap_2.
Qed.

Lemma runTimer_pairedWithinLevel rnd a s :
  pairedWithinLevel s → pairedWithinLevel (runTimer rnd a s).
Proof.
  unfold pairedWithinLevel. intros H.
  split_state s; destruct a; unfold_callbacks; exec;
    first [exact H | intros x Hx; by apply not_elem_of_empty in Hx].
Qed.

Lemma reachable_pairedWithinLevel s : reachable s → pairedWithinLevel s.
Proof.
  induction 1 as [|s rnd e s' _ IH Hstep].
  - intros x Hx. by apply not_elem_of_empty in Hx.
  - destruct e as [i| |d]; simpl in Hstep.
    + case_match; [|done]. injection Hstep as <-. by apply handle_pairedWithinLevel.
    + destruct (earliest (pending (rt s))) as [t|] eqn:E; [|done]. injection Hstep as <-.
      apply runTimer_pairedWithinLevel. split_state s; exact IH.
    + case_match; [|done]. injection Hstep as <-. split_state s; exact IH.
Qed.

(** The levels 1 to 3 show 3, 5 and 7 pairs with distinct images. *)
Lemma levelImages_count lvl n :
  at_index pairsCountMap (lvl - 1) = Some n →
  NoDup (levelImages lvl) ∧ Z.of_nat (length (levelImages lvl)) = n.
Proof.
  unfold at_index. case_decide; [|done]. intros Hn.
  assert (lvl = 1 ∨ lvl = 2 ∨ lvl = 3) as [->|[->| ->]].
  { destruct (decide (lvl - 1 < 3)); [lia|].
    rewrite lookup_ge_None_2 in Hn; [done|]. simpl. lia. }
  all: vm_compute in Hn; injection Hn as <-;
    (split; [apply (bool_decide_unpack _); vm_compute; exact I | reflexivity]).
Qed.

Lemma rendered_findPair_no_modal s side value :
  rendered s (ClickFindPair side value) = true → modals s = mkModals false false.
Proof.
  unfold rendered. destruct (currentScreen s); [done|].
  destruct (modals s) as [[|] [|]]; simpl; done.
Qed.

(** ** The level bound and timers of an abandoned session *)

(** C2 on the code.  A pattern session is played up to the last answer of
    level 2 and left for the menu before the callback of that answer has
    run; a find-the-pair session is started.  The callbacks of the abandoned
    session still fire: they raise the level of the new session to 3 and its
    maximum to 5.  The three pairs of the find-the-pair level are then
    matched, and the level progression of the running session moves it to
    level 4 while its [init] stores the declared maximum 3: the game screen
    shows level 4 of 3. *)
Theorem level_exceeds_maxLevel_after_stale_timers :
  ∃ s0 s,
    run (take 11 staleTimerTrace) initialState = Some s0
    ∧ gameState s0 = mkGameState (Some FindPair) 1 3 0 0
    ∧ currentScreen s0 = game
    ∧ clock (rt s0) = 4100
    ∧ run (drop 11 staleTimerTrace) s0 = Some s
    ∧ Forall (λ e, e.1 ≠ User ClickMenu ∧ e.1 ≠ User ClickRestart
                   ∧ ∀ t, e.1 ≠ User (ClickPlay t)) (drop 11 staleTimerTrace)
    ∧ currentScreen s = game
    ∧ type (gameState s) = Some FindPair
    ∧ level (gameState s) = 4
    ∧ maxLevel (gameState s) = 3
    ∧ modals s = mkModals false false
    ∧ ¬ (1 ≤ level (gameState s) ≤ maxLevel (gameState s)).
Proof.
  eexists _, _. split_and!; try (vm_compute; reflexivity).
  - repeat constructor; simpl; try discriminate; intros t; discriminate.
  - vm_compute. intros [_ H]. by apply H.
Qed.

(** * Further properties of the games *)

(** [exec], with the sound toggle and the level table carried out too. *)
Ltac exec_all := exec; cbn [negb MAX_LEVELS]; proj_simpl.

(** ** Every challenge can be answered *)

Lemma at_index_elem {A} (l : list A) i x : at_index l i = Some x → x ∈ l.
Proof. unfold at_index. case_decide; [|done]. apply list_elem_of_lookup_2. Qed.

Lemma slice0_elem {A} (l : list A) n x : x ∈ slice0 l n → x ∈ l.
Proof. unfold slice0. destruct n as [n|]; [|done]. case_decide; apply subseteq_take. Qed.

Lemma answerable_elem {A} (P : A → Prop) (l : list A) (r : option A) :
  Forall P l → is_Some r → (∀ x, r = Some x → x ∈ l) → answerable P r.
Proof.
  intros Hl [x ->] Hin. simpl. rewrite Forall_forall in Hl. by apply Hl, Hin.
Qed.

Lemma allPatterns_solvable : Forall patternSolvable allPatterns.
Proof. unfold patternSolvable. apply (bool_decide_unpack _). vm_compute. exact I. Qed.

Lemma allLevels_oddOneOut : Forall oddOneOut allLevels.
Proof. unfold oddOneOut. apply (bool_decide_unpack _). vm_compute. exact I. Qed.

Lemma allSequences_solvable : Forall sequenceSolvable allSequences.
Proof. unfold sequenceSolvable. apply (bool_decide_unpack _). vm_compute. exact I. Qed.

Lemma slice0_head_Some {A} (l : list A) lvl :
  1 ≤ lvl → is_Some (l !! 0%nat) → is_Some (slice0 l (Some lvl) !! 0%nat).
Proof.
  intros Hl [x Hx]. exists x. unfold slice0. case_decide; [lia|].
  rewrite lookup_take_lt by lia. done.
Qed.

(** Whatever level and index the screen asks for, in range or not, it gets
    a challenge, and one that can be answered. *)
Theorem displayed_challenge_has_answer (lvl index : Z) :
  answerable patternSolvable (getPatternsForLevel lvl index).1
  ∧ answerable oddOneOut (getDifferentForLevel lvl index).1
  ∧ answerable sequenceSolvable (getSequenceForLevel lvl index).1.
Proof.
  split_and!.
  - apply (answerable_elem _ allPatterns _ allPatterns_solvable).
    + unfold getPatternsForLevel.
      destruct (invalidLevel lvl 5) eqn:Hinv; [by eexists|]. cbv zeta.
      assert (1 ≤ lvl ≤ 5) as Hl
        by (destruct (decide (1 ≤ lvl ≤ 5)); [done|by rewrite invalidLevel_true in Hinv]).
      case_match; cbn [fst].
      * apply slice0_head_Some; [lia|by eexists].
      * apply orb_false_iff in H as [H1 H2].
        apply bool_decide_eq_false in H1, H2.
        unfold at_index, len in *. case_decide; [|lia]. apply lookup_lt_is_Some_2. lia.
    + unfold getPatternsForLevel. repeat case_match; cbn [fst].
      * apply list_elem_of_lookup_2.
      * intros x H'%list_elem_of_lookup_2. by eapply slice0_elem.
      * intros x H'%at_index_elem. by eapply slice0_elem.
  - apply (answerable_elem _ allLevels _ allLevels_oddOneOut).
    + unfold getDifferentForLevel.
      destruct (invalidLevel lvl 5) eqn:Hinv; [by eexists|]. cbv zeta.
      assert (1 ≤ lvl ≤ 5) as Hl
        by (destruct (decide (1 ≤ lvl ≤ 5)); [done|by rewrite invalidLevel_true in Hinv]).
      case_match; cbn [fst].
      * apply slice0_head_Some; [lia|by eexists].
      * apply orb_false_iff in H as [H1 H2].
        apply bool_decide_eq_false in H1, H2.
        unfold at_index, len in *. case_decide; [|lia]. apply lookup_lt_is_Some_2. lia.
    + unfold getDifferentForLevel. repeat case_match; cbn [fst].
      * apply list_elem_of_lookup_2.
      * intros x H'%list_elem_of_lookup_2. by eapply slice0_elem.
      * intros x H'%at_index_elem. by eapply slice0_elem.
  - apply (answerable_elem _ allSequences _ allSequences_solvable).
    + unfold getSequenceForLevel. repeat case_match; cbn [fst]; by eexists.
    + unfold getSequenceForLevel. repeat case_match; cbn [fst]; simplify_eq.
      * apply list_elem_of_lookup_2.
      * intros x ?. simplify_eq. by eapply at_index_elem.
      * apply list_elem_of_lookup_2.
Qed.

(** ** The numbers of a session *)

Lemma handle_session_numbers rnd i s :
  0 ≤ level (gameState s) → 1 ≤ maxLevel (gameState s) →
  0 ≤ score (gameState s) → score (gameState s) `mod` 10 = 0 →
  0 ≤ attempts (gameState s) →
  1 ≤ maxLevel (gameState (handle rnd i s))
  ∧ 0 ≤ score (gameState (handle rnd i s))
  ∧ score (gameState (handle rnd i s)) `mod` 10 = 0
  ∧ 0 ≤ attempts (gameState (handle rnd i s)).
Proof.
  intros Hl Hm Hs Hd Ha.
  split_state s; destruct i; unfold_callbacks; exec_all;
    split_and!; first [reflexivity | lia | nia | (Z.div_mod_to_equations; lia)].
Qed.

Lemma runTimer_session_numbers rnd a s :
  1 ≤ maxLevel (gameState s) →
  0 ≤ score (gameState s) → score (gameState s) `mod` 10 = 0 →
  0 ≤ attempts (gameState s) →
  1 ≤ maxLevel (gameState (runTimer rnd a s))
  ∧ 0 ≤ score (gameState (runTimer rnd a s))
  ∧ score (gameState (runTimer rnd a s)) `mod` 10 = 0
  ∧ 0 ≤ attempts (gameState (runTimer rnd a s)).
Proof.
  intros Hm Hs Hd Ha.
  split_state s; destruct a; unfold_callbacks; exec_all;
    split_and!; first [reflexivity | lia | (Z.div_mod_to_equations; lia)].
Qed.

(** In every state of the page the level and the maximum level are at
    least 1, the attempts are not negative, and the score is a multiple of
    ten that is not negative. *)
Theorem session_numbers_wellformed (s : State) :
  reachable s → sessionNumbersOk (gameState s).
Proof.
  intros Hr. split; [apply (reachable_levelPositive s Hr)|].
  rewrite <- Z.mod_divide by lia.
  induction Hr as [|s rnd e s' Hr IH Hstep]; [by (split_and!; simpl; try lia)|].
  pose proof (reachable_levelPositive s Hr) as [Hlvl _].
  destruct IH as (Hm & Hs & Hd & Ha).
  destruct e as [i| |d]; simpl in Hstep.
  - case_match; [|done]. injection Hstep as <-.
    apply handle_session_numbers; try done; lia.
  - destruct (earliest (pending (rt s))) as [t|] eqn:E; [|done]. injection Hstep as <-.
    apply runTimer_session_numbers; split_state s; done.
  - case_match; [|done]. injection Hstep as <-. split_state s; done.
Qed.

Lemma session_numbers_wellformed_witness :
  sessionNumbersOk (gameState (startGame [] Pattern initialState)).
Proof.
  apply session_numbers_wellformed.
  apply (reachable_step initialState [] (User (ClickPlay Pattern)));
    [apply reachable_init|reflexivity].
Defined.

(** ** Dealing the memory cards *)

Lemma initMemoryGameAtLevel_state rnd lvl s g :
  at_index gridSizeMap (lvl - 1) = Some g →
  memoryG (initMemoryGameAtLevel rnd lvl s)
  = mkMemoryG (shuffle rnd (seq (length (cardObjects (rt s))) (length (deckEmojis g)))) []
  ∧ cardObjects (rt (initMemoryGameAtLevel rnd lvl s))
    = cardObjects (rt s)
      ++ imap (λ index e, mkCard (Z.of_nat index) e false false) (deckEmojis g).
Proof.
  intros Hg. unfold initMemoryGameAtLevel. rewrite Hg. cbv zeta.
  rewrite length_imap. fold (deckEmojis g).
  split_state s; split; reflexivity.
Qed.

Lemma gridSize_cases lvl g :
  at_index gridSizeMap (lvl - 1) = Some g →
  (lvl = 1 ∧ g = 4) ∨ (lvl = 2 ∧ g = 6) ∨ (lvl = 3 ∧ g = 12)
  ∨ (lvl = 4 ∧ g = 16) ∨ (lvl = 5 ∧ g = 20).
Proof.
  unfold at_index. case_decide; [|done]. intros Hg.
  destruct (decide (lvl - 1 < 5)).
  - assert (lvl = 1 ∨ lvl = 2 ∨ lvl = 3 ∨ lvl = 4 ∨ lvl = 5) as [->|[->|[->|[->| ->]]]]
      by lia; vm_compute in Hg; injection Hg as <-; tauto.
  - rewrite lookup_ge_None_2 in Hg; [done|]. simpl. lia.
Qed.

Lemma filter_fmap_length {A B} `{EqDecision B} (F : A → B) (x : B) (l : list A) :
  length (filter (λ r, F r = x) l) = length (filter (λ y, y = x) (F <$> l)).
Proof.
  induction l as [|a l IH]; [done|]. rewrite fmap_cons, !filter_cons.
  destruct (decide (F a = x)); simpl; by rewrite IH.
Qed.

(** A memory level that has a grid size deals that many cards, all face
    down and unmatched, each a card object of its own, every emoji of the
    level on exactly two of them; the card objects of earlier decks are
    left as they are. *)
Theorem memory_deck_dealt (rnd : list nat) (lvl g : Z) (s : State) :
  at_index gridSizeMap (lvl - 1) = Some g →
  let s' := initMemoryGameAtLevel rnd lvl s in
  let deck := memoryCards (memoryG s') in
  len deck = g
  ∧ NoDup deck
  ∧ selectedCards (memoryG s') = []
  ∧ (λ r, emoji <$> cardObjects (rt s') !! r) <$> deck ≡ₚ Some <$> deckEmojis g
  ∧ (∀ r, r ∈ deck → ∃ c, cardObjects (rt s') !! r = Some c
                          ∧ flipped c = false ∧ matched c = false)
  ∧ (∀ e, e ∈ deckEmojis g →
          length (filter (λ r, emoji <$> cardObjects (rt s') !! r = Some e) deck) = 2%nat)
  ∧ (∀ r c, cardObjects (rt s) !! r = Some c → cardObjects (rt s') !! r = Some c).
Proof.
  intros Hg s' deck.
  destruct (initMemoryGameAtLevel_state rnd lvl s g Hg) as [Hm Ho].
  fold s' in Hm, Ho. subst deck. rewrite Hm. cbn [memoryCards selectedCards].
  set (base := length (cardObjects (rt s))) in *.
  set (n := length (deckEmojis g)) in *.
  pose proof (shuffle_perm rnd (seq base n)) as Hp.
  assert (Z.of_nat n = g) as Hn.
  { subst n. destruct (gridSize_cases _ _ Hg) as [[_ ->]|[[_ ->]|[[_ ->]|[[_ ->]|[_ ->]]]]];
      reflexivity. }
  assert (∀ i, (i < n)%nat →
               cardObjects (rt s') !! (base + i)%nat
               = (λ e, mkCard (Z.of_nat i) e false false) <$> deckEmojis g !! i) as Hlook.
  { intros i Hi. rewrite Ho. rewrite lookup_app_r by lia.
    replace (base + i - length (cardObjects (rt s)))%nat with i by (subst base; lia).
    by rewrite list_lookup_imap. }
  assert ((λ r : ref, emoji <$> cardObjects (rt s') !! r) <$> (seq base n : list ref)
          = Some <$> deckEmojis g) as Hseq.
  { apply list_eq. intros i. rewrite !list_lookup_fmap.
    destruct (decide (i < n)%nat) as [Hi|Hi].
    - rewrite lookup_seq_lt by done. simpl. rewrite Hlook by done.
      destruct (lookup_lt_is_Some_2 (deckEmojis g) i) as [e ->]; [subst n; lia|].
      reflexivity.
    - rewrite lookup_seq_ge by lia. rewrite lookup_ge_None_2; [done|]. subst n. lia. }
  split_and!.
  - unfold len. rewrite Hp, length_seq. exact Hn.
  - rewrite Hp. apply NoDup_seq.
  - reflexivity.
  - etrans; [apply fmap_Permutation, Hp|]. by rewrite Hseq.
  - intros r Hr. rewrite Hp in Hr. apply elem_of_seq in Hr.
    replace r with (base + (r - base))%nat by lia.
    rewrite Hlook by lia.
    destruct (lookup_lt_is_Some_2 (deckEmojis g) (r - base)%nat) as [e He];
      [subst n; lia|].
    rewrite He. by eexists.
  - intros e He.
    rewrite Hp, filter_fmap_length, Hseq.
    revert e He.
    destruct (gridSize_cases _ _ Hg) as [[_ ->]|[[_ ->]|[[_ ->]|[[_ ->]|[_ ->]]]]];
      apply Forall_forall; apply (bool_decide_unpack _); vm_compute; exact I.
  - intros r c Hr. rewrite Ho. by apply lookup_app_l_Some.
Qed.

Lemma memory_deck_dealt_witness :
  len (memoryCards (memoryG (initMemoryGameAtLevel [] 1 initialState))) = 4.
Proof.
  pose proof (memory_deck_dealt [] 1 4 initialState eq_refl) as H.
  cbv zeta in H. destruct H as (H & _). exact H.
Defined.

(** ** The memory board *)

Lemma timerCardsOk_mono h h' a : (h ≤ h')%nat → timerCardsOk h a → timerCardsOk h' a.
Proof.
  intros Hh. destruct a; simpl; try done;
    intros (H1 & H2 & H3 & H4); (split; [|done]);
    (eapply Forall_impl; [exact H1|]; simpl; intros; lia).
Qed.

Lemma at_index_Some_range {A} (l : list A) i x : at_index l i = Some x → 0 ≤ i < len l.
Proof.
  unfold at_index, len. case_decide; [|done]. intros Hx%lookup_lt_Some. lia.
Qed.

Lemma cardAt_Some_range s arr i x : cardAt s arr i = Some x → 0 ≤ i < len arr.
Proof.
  unfold cardAt. destruct (at_index arr i) eqn:E; [|done]. intros _.
  by eapply at_index_Some_range.
Qed.

Ltac memory_ok :=
  repeat match goal with
    | H : _ ∧ _ |- _ => destruct H
    | H : left _ = left _ |- _ => clear H
    | H : right _ = right _ |- _ => clear H
    end;
  split_and!;
  rewrite ?length_alter, ?length_app, ?Forall_app, ?Forall_nil, ?Forall_singleton in *;
  simpl in *;
  try done; try lia.

Lemma shuffle_seq_bound rnd base n :
  Forall (λ r, (r < base + n)%nat) (shuffle rnd (seq base n)).
Proof.
  rewrite Forall_forall. intros r Hr. rewrite shuffle_perm in Hr.
  apply elem_of_seq in Hr. lia.
Qed.

Lemma timers_cards_mono h h' (l : list Timer) :
  (h ≤ h')%nat →
  Forall (λ t, timerCardsOk h (action t)) l → Forall (λ t, timerCardsOk h' (action t)) l.
Proof.
  intros Hh Hl. eapply Forall_impl; [exact Hl|]. intros t. by apply timerCardsOk_mono.
Qed.

Lemma selected_snoc_ok (sel : list Z) index (cards : list ref) z z0 l0 :
  Forall (λ i, 0 ≤ i < len cards) sel → 0 ≤ index < len cards →
  sel ++ [index] = z :: z0 :: l0 →
  Forall (λ i, 0 ≤ i < len cards) (z :: z0 :: l0).
Proof. intros H1 H2 <-. rewrite Forall_app, Forall_singleton. done. Qed.

Ltac memory_rest :=
  match goal with
  | |- Forall _ (shuffle _ (seq _ _)) => apply shuffle_seq_bound
  | |- NoDup (shuffle _ (seq _ _)) => rewrite shuffle_perm; apply NoDup_seq
  | |- NoDup [] => constructor
  | |- NoDup (shuffle _ []) => constructor
  | H : Forall (λ t, timerCardsOk _ (action t)) ?l
    |- Forall (λ t, timerCardsOk _ (action t)) ?l =>
      eapply timers_cards_mono; [|exact H]; lia
  | H : Forall (λ t, timerCardsOk _ (action t)) ?l
    |- Forall (λ t, timerCardsOk _ (action t)) (filter _ ?l) =>
      by apply Forall_filter_keep
  | H : cardAt _ _ ?i = Some _ |- 0 ≤ ?i < _ => by apply cardAt_Some_range in H
  | Ha : cardAt _ _ ?a = Some _, Hb : cardAt _ _ ?b = Some _
    |- Forall _ _ ∧ NoDup _ ∧ 0 ≤ ?a < _ ∧ 0 ≤ ?b < _ =>
      apply cardAt_Some_range in Ha; apply cardAt_Some_range in Hb; done
  | H : cardAt _ _ ?i = Some _, E : _ ++ [?i] = _ :: _ :: _
    |- Forall _ (_ :: _ :: _) =>
      eapply selected_snoc_ok; [|by apply cardAt_Some_range in H|exact E]; done
  end.

Lemma handle_memoryOk rnd i s : memoryOk s → memoryOk (handle rnd i s).
Proof.
  unfold memoryOk. intros (H1 & H2 & H3 & H4 & H5).
  split_state s; destruct i; unfold_callbacks; exec_all; memory_ok.
  all: try (split; [done|]); memory_rest.
Qed.

Lemma runTimer_memoryOk rnd a s :
  timerCardsOk (length (cardObjects (rt s))) a → memoryOk s → memoryOk (runTimer rnd a s).
Proof.
  unfold memoryOk. intros Ha (H1 & H2 & H3 & H4 & H5).
  split_state s; destruct a; unfold_callbacks; exec_all; simpl in Ha; memory_ok.
  all: try (split; [done|]); try memory_rest.
Qed.

Lemma reachable_memoryOk s : reachable s → memoryOk s.
Proof.
  induction 1 as [|s rnd e s' _ IH Hstep].
  - split_and!; simpl; try constructor. lia.
  - destruct e as [i| |d]; simpl in Hstep.
    + case_match; [|done]. injection Hstep as <-. by apply handle_memoryOk.
    + destruct (earliest (pending (rt s))) as [t|] eqn:E; [|done]. injection Hstep as <-.
      apply earliest_elem in E. destruct IH as (H1 & H2 & H3 & H4 & H5).
      apply runTimer_memoryOk.
      * rewrite Forall_forall in H5. split_state s; by apply H5.
      * split_state s; (split_and!; try done); simpl in *; by apply Forall_filter_keep.
    + case_match; [|done]. injection Hstep as <-. split_state s; exact IH.
Qed.

Lemma rendered_card_in_deck s index :
  rendered s (ClickCard index) = true → 0 ≤ index < len (memoryCards (memoryG s)).
Proof.
  unfold rendered, gameContentOffers.
  destruct (currentScreen s); [done|].
  destruct (showWinModal (modals s)); [done|].
  destruct (showLevelCompleteModal (modals s)); [done|].
  destruct (type (gameState s)) as [[]|]; try done.
  by intros ?%bool_decide_eq_true.
Qed.

(** In every state of the page a card that can be clicked is on the board:
    the handler finds its object.  The click turns the card and selects it,
    or, on a card already turned or matched, or with two cards selected,
    does nothing at all; never are more than two cards selected. *)
Theorem memory_click_finds_its_card (s : State) (index : Z) :
  reachable s → rendered s (ClickCard index) = true →
  (length (selectedCards (memoryG s)) ≤ 2)%nat
  ∧ ∃ r c,
      cardAt s (memoryCards (memoryG s)) index = Some (r, c)
      ∧ (length (selectedCards (memoryG s)) ≠ 2%nat →
         matched c = false → flipped c = false →
         selectedCards (memoryG (handleCardClick index s))
         = selectedCards (memoryG s) ++ [index]
         ∧ memoryCards (memoryG (handleCardClick index s)) = memoryCards (memoryG s)
         ∧ cardObjects (rt (handleCardClick index s)) !! r = Some (setFlipped true c))
      ∧ (length (selectedCards (memoryG s)) = 2%nat ∨ matched c = true ∨ flipped c = true →
         handleCardClick index s = s).
Proof.
  intros Hr Hren. destruct (reachable_memoryOk s Hr) as (H1 & _ & H3 & _ & _).
  split; [exact H1|].
  apply rendered_card_in_deck in Hren.
  assert (is_Some (at_index (memoryCards (memoryG s)) index)) as [r Hr'].
  { unfold at_index, len in *. case_decide; [|lia]. apply lookup_lt_is_Some_2. lia. }
  assert (r ∈ memoryCards (memoryG s)) as Hin.
  { unfold at_index in Hr'. case_decide; [|done]. by eapply list_elem_of_lookup_2. }
  rewrite Forall_forall in H3. apply H3 in Hin.
  assert (∃ c, cardAt s (memoryCards (memoryG s)) index = Some (r, c)
               ∧ cardObjects (rt s) !! (r : nat) = Some c) as (c & Hcard & Hc).
  { unfold cardAt. rewrite Hr'. simpl.
    destruct (lookup_lt_is_Some_2 _ _ Hin) as [c Hc].
    exists c. split; [|exact Hc].
    match goal with |- context [?l !! ?i] => change (l !! i) with (cardObjects (rt s) !! (r : nat)) end.
    by rewrite Hc. }
  exists r, c. split; [exact Hcard|]. split.
  - intros Hlen Hm Hf. unfold handleCardClick. rewrite Hcard.
    rewrite decide_False by done. rewrite Hm, Hf. cbv beta iota zeta. cbn [orb].
    split_state s; unfold setTimeout; exec; proj_simpl;
      (split_and!; [reflexivity | reflexivity |]);
      simpl in Hc; rewrite list_lookup_alter, Hc; by rewrite decide_True.
  - intros Hcase. unfold handleCardClick. rewrite Hcard.
    case_decide; [done|]. destruct Hcase as [?|[-> | ->]]; [done| |]; 
      by rewrite ?orb_true_r.
Qed.

Lemma memory_click_finds_its_card_witness :
  (length (selectedCards (memoryG (startGame [] Memory initialState))) ≤ 2)%nat.
Proof.
  destruct (memory_click_finds_its_card (startGame [] Memory initialState) 0) as [H _].
  - apply (reachable_step initialState [] (User (ClickPlay Memory)));
      [apply reachable_init|reflexivity].
  - reflexivity.
  - exact H.
Defined.

(** ** A pair of memory cards *)

Lemma card_rendered sel s i x :
  memoryTurn sel s → cardAt s (memoryCards (memoryG s)) i = Some x →
  rendered s (ClickCard i) = true.
Proof.
  intros (Hscr & Hmo & Hty & _) Hx%cardAt_Some_range.
  unfold rendered, gameContentOffers. rewrite Hscr, Hmo, Hty.
  cbn [showWinModal showLevelCompleteModal]. by apply bool_decide_eq_true_2.
Qed.

Lemma cardAt_inv s arr i r c :
  cardAt s arr i = Some (r, c) → at_index arr i = Some r ∧ cardObjects (rt s) !! r = Some c.
Proof.
  unfold cardAt. destruct (at_index arr i) as [r'|]; [|done]. simpl.
  destruct (cardObjects (rt s) !! r') as [c'|] eqn:Hc; [|done]. simpl.
  intros [= <- <-]. done.
Qed.

(** The first card of a pair. *)
Lemma memory_first_click (rnd : list nat) (s : State) (i : Z) (ri : ref) (ci : Card) :
  memoryTurn [] s → cardAt s (memoryCards (memoryG s)) i = Some (ri, ci) →
  flipped ci = false → matched ci = false →
  ∃ s1, step rnd (User (ClickCard i)) s = Some s1
    ∧ memoryTurn [i] s1
    ∧ memoryCards (memoryG s1) = memoryCards (memoryG s)
    ∧ cardObjects (rt s1) = alter (setFlipped true) ri (cardObjects (rt s))
    ∧ gameState s1 = gameState s
    ∧ clock (rt s1) = clock (rt s) ∧ nextTimer (rt s1) = nextTimer (rt s).
Proof.
  intros Hturn Hcard Hf Hm.
  pose proof (card_rendered _ _ _ _ Hturn Hcard) as Hren.
  unfold step. rewrite Hren. eexists. split; [reflexivity|].
  destruct Hturn as (Hscr & Hmo & Hty & Hsel & Hpend). unfold memoryTurn.
  cbn [handle]. unfold handleCardClick. rewrite Hsel, Hcard, Hf, Hm.
  cbn [length app orb]. rewrite decide_False by done. cbv beta iota zeta.
  rewrite decide_False by done.
  split_state s; cbn in Hscr, Hmo, Hty, Hpend; subst; exec_all; done.
Qed.

Lemma lookup_alter_other (f : Card → Card) (r r' : ref) (objs : list Card) :
  r ≠ r' → alter f r objs !! r' = objs !! r'.
Proof.
  intros Hne. change (alter f (r : nat) objs !! (r' : nat) = objs !! r').
  rewrite list_lookup_alter. by rewrite decide_False.
Qed.

Lemma lookup_alter_same (f : Card → Card) (r : ref) (objs : list Card) (c : Card) :
  objs !! r = Some c → alter f r objs !! r = Some (f c).
Proof.
  intros Hc. change (objs !! (r : nat) = Some c) in Hc.
  change (alter f (r : nat) objs !! (r : nat) = Some (f c)).
  rewrite list_lookup_alter, Hc. by rewrite decide_True.
Qed.

(** The second card of a pair. *)
Lemma memory_second_click (rnd : list nat) (s : State) (i j : Z) (ri rj : ref)
    (ci cj : Card) :
  memoryTurn [i] s →
  cardAt s (memoryCards (memoryG s)) i = Some (ri, ci) →
  cardAt s (memoryCards (memoryG s)) j = Some (rj, cj) → ri ≠ rj →
  flipped cj = false → matched cj = false →
  ∃ s2, step rnd (User (ClickCard j)) s = Some s2
    ∧ pending (rt s2) = [pairTimer s i j (bool_decide (emoji ci = emoji cj))]
    ∧ selectedCards (memoryG s2) = [i; j]
    ∧ memoryCards (memoryG s2) = memoryCards (memoryG s)
    ∧ cardObjects (rt s2) = alter (setFlipped true) rj (cardObjects (rt s))
    ∧ gameState s2 = withAttempts (attempts (gameState s) + 1) (gameState s)
    ∧ clock (rt s2) = clock (rt s) ∧ nextTimer (rt s2) = S (nextTimer (rt s))
    ∧ currentScreen s2 = game ∧ modals s2 = mkModals false false.
Proof.
  intros Hturn Hci Hcj Hne Hf Hm.
  pose proof (card_rendered _ _ _ _ Hturn Hcj) as Hren.
  unfold step. rewrite Hren. eexists. split; [reflexivity|].
  destruct Hturn as (Hscr & Hmo & Hty & Hsel & Hpend).
  destruct (cardAt_inv _ _ _ _ _ Hci) as [Hri Hoi].
  destruct (cardAt_inv _ _ _ _ _ Hcj) as [Hrj Hoj].
  cbn [handle]. unfold handleCardClick, pairTimer. rewrite Hsel, Hcj, Hf, Hm.
  cbn [length app orb]. rewrite decide_False by done. cbv beta iota zeta.
  rewrite decide_True by done.
  split_state s; cbn in Hscr, Hmo, Hty, Hpend, Hri, Hrj, Hoi, Hoj; subst;
    unfold cardAt; cbn [rt cardObjects memoryG memoryCards setCardObjects setMemoryCards
      setSelectedCards setGameState playSound updRuntime updMemory soundEnabled];
    rewrite Hri, Hrj; cbn [mbind option_bind];
    rewrite (lookup_alter_other _ rj ri) by done;
    rewrite (lookup_alter_same _ rj _ cj) by done;
    rewrite Hoi; cbn [mbind option_bind mret option_ret emoji setFlipped];
    unfold setTimeout; destruct (decide (emoji ci = emoji cj)) as [He|He];
    rewrite ?(bool_decide_eq_true_2 _ He), ?(bool_decide_eq_false_2 _ He);
    exec_all; done.
Qed.

(** A second after two cards that differ: both are turned back. *)
Lemma memory_nomatch_fire (rnd : list nat) (s : State) (h : nat) (d : Z)
    (cards : list ref) (i j : Z) (ri rj : ref) :
  pending (rt s) = [mkTimer h d (TMemoryNoMatch cards i j)] →
  at_index cards i = Some ri → at_index cards j = Some rj →
  ∃ s3, step rnd Fire s = Some s3
    ∧ cardObjects (rt s3)
      = alter (setFlipped false) rj (alter (setFlipped false) ri (cardObjects (rt s)))
    ∧ memoryCards (memoryG s3) = cards ∧ selectedCards (memoryG s3) = []
    ∧ gameState s3 = gameState s ∧ pending (rt s3) = []
    ∧ clock (rt s3) = Z.max (clock (rt s)) d
    ∧ currentScreen s3 = currentScreen s ∧ modals s3 = modals s.
Proof.
  intros Hpend Hri Hrj.
  unfold step. rewrite Hpend. cbn [earliest action tid due]. eexists. split; [reflexivity|].
  unfold runTimer, memoryNoMatchCallback. cbv zeta. rewrite Hri, Hrj.
  split_state s; cbn in Hpend; subst pend; exec_all;
    cbn [filter list_filter]; rewrite ?decide_False by (intros Hne; by apply Hne); done.
Qed.

(** Half a second after two cards that are alike: both are matched and
    the pair is paid. *)
Lemma memory_match_fire (rnd : list nat) (s : State) (h : nat) (d : Z)
    (cards : list ref) (i j : Z) (ri rj : ref) (gs : GameState) :
  pending (rt s) = [mkTimer h d (TMemoryMatch cards i j gs)] →
  at_index cards i = Some ri → at_index cards j = Some rj →
  ∃ s3, step rnd Fire s = Some s3
    ∧ cardObjects (rt s3)
      = alter (setMatched true) rj (alter (setMatched true) ri (cardObjects (rt s)))
    ∧ memoryCards (memoryG s3) = cards ∧ selectedCards (memoryG s3) = []
    ∧ gameState s3 = withScore (score (gameState s) + 10) (gameState s)
    ∧ clock (rt s3) = Z.max (clock (rt s)) d
    ∧ currentScreen s3 = currentScreen s.
Proof.
  intros Hpend Hri Hrj.
  unfold step. rewrite Hpend. cbn [earliest action tid due]. eexists. split; [reflexivity|].
  unfold runTimer, memoryMatchCallback. cbv zeta. rewrite Hri, Hrj.
  split_state s; cbn in Hpend; subst pend; unfold autoAdvanceLevel, setTimeout; exec_all;
    done.
Qed.

Lemma cardAt_intro s arr i (r : ref) c :
  at_index arr i = Some r → cardObjects (rt s) !! r = Some c → cardAt s arr i = Some (r, c).
Proof. intros Hr Hc. unfold cardAt. rewrite Hr. simpl. by rewrite Hc. Qed.

Lemma at_index_NoDup {A} (l : list A) i j x :
  NoDup l → at_index l i = Some x → at_index l j = Some x → i = j.
Proof.
  unfold at_index. intros Hnd. repeat case_decide; try done. intros Hi Hj.
  pose proof (NoDup_lookup _ _ _ _ Hnd Hi Hj). lia.
Qed.

Lemma alter_flip_back (objs : list Card) (ri rj : ref) (ci cj : Card) :
  objs !! ri = Some ci → objs !! rj = Some cj → flipped ci = false → flipped cj = false →
  alter (setFlipped false) rj
    (alter (setFlipped false) ri
       (alter (setFlipped true) rj (alter (setFlipped true) ri objs)))
  = objs.
Proof.
  intros Hi Hj Hfi Hfj. apply list_eq. intros r.
  change (objs !! (ri : nat) = Some ci) in Hi. change (objs !! (rj : nat) = Some cj) in Hj.
  rewrite !list_lookup_alter.
  repeat case_decide; subst; rewrite ?Hi, ?Hj; try done;
    destruct ci, cj; cbn in *; by simplify_eq.
Qed.

(** Two cards turned up one after the other: half a second later a pair
    is matched for good and paid ten points; a second later two cards
    that differ lie face down again, and nothing but the attempt is
    counted. *)
Theorem memory_pair_round (r0 r1 r2 : list nat) (s : State) (i j : Z) (ri rj : ref)
    (ci cj : Card) :
  reachable s → memoryTurn [] s → i ≠ j →
  cardAt s (memoryCards (memoryG s)) i = Some (ri, ci) →
  cardAt s (memoryCards (memoryG s)) j = Some (rj, cj) →
  flipped ci = false → matched ci = false → flipped cj = false → matched cj = false →
  ∃ s', run [(User (ClickCard i), r0); (User (ClickCard j), r1); (Fire, r2)] s = Some s'
    ∧ selectedCards (memoryG s') = []
    ∧ memoryCards (memoryG s') = memoryCards (memoryG s)
    ∧ attempts (gameState s') = attempts (gameState s) + 1
    ∧ if decide (emoji ci = emoji cj) then
        score (gameState s') = score (gameState s) + 10
        ∧ clock (rt s') = clock (rt s) + 500
        ∧ cardObjects (rt s') !! ri = Some (mkCard (c_id ci) (emoji ci) true true)
        ∧ cardObjects (rt s') !! rj = Some (mkCard (c_id cj) (emoji cj) true true)
        ∧ ∀ r : ref, r ≠ ri → r ≠ rj → cardObjects (rt s') !! r = cardObjects (rt s) !! r
      else
        memoryTurn [] s'
        ∧ score (gameState s') = score (gameState s)
        ∧ clock (rt s') = clock (rt s) + 1000
        ∧ cardObjects (rt s') = cardObjects (rt s).
Proof.
  intros Hr Hturn Hij Hci Hcj Hfi Hmi Hfj Hmj.
  destruct (reachable_memoryOk s Hr) as (_ & _ & _ & Hnd & _).
  destruct (cardAt_inv _ _ _ _ _ Hci) as [Hri Hoi].
  destruct (cardAt_inv _ _ _ _ _ Hcj) as [Hrj Hoj].
  assert (Hne : ri ≠ rj).
  { intros ->. apply Hij. by eapply at_index_NoDup. }
  destruct (memory_first_click r0 s i ri ci Hturn Hci Hfi Hmi)
    as (s1 & Hs1 & Hturn1 & Hdeck1 & Hobj1 & Hg1 & Hc1 & Hn1).
  assert (Hci1 : cardAt s1 (memoryCards (memoryG s1)) i = Some (ri, setFlipped true ci)).
  { rewrite Hdeck1. apply cardAt_intro; [done|]. rewrite Hobj1. by apply lookup_alter_same. }
  assert (Hcj1 : cardAt s1 (memoryCards (memoryG s1)) j = Some (rj, cj)).
  { rewrite Hdeck1. apply cardAt_intro; [done|]. rewrite Hobj1.
    by rewrite lookup_alter_other. }
  destruct (memory_second_click r1 s1 i j ri rj _ cj Hturn1 Hci1 Hcj1 Hne Hfj Hmj)
    as (s2 & Hs2 & Hp2 & Hsel2 & Hdeck2 & Hobj2 & Hg2 & Hc2 & Hn2 & Hscr2 & Hmo2).
  cbn [emoji setFlipped] in Hp2. unfold pairTimer in Hp2. rewrite Hdeck1 in Hp2.
  destruct (decide (emoji ci = emoji cj)) as [He|He].
  - rewrite bool_decide_eq_true_2 in Hp2 by done.
    destruct (memory_match_fire r2 s2 _ _ _ _ _ ri rj _ Hp2 Hri Hrj)
      as (s3 & Hs3 & Hobj3 & Hdeck3 & Hsel3 & Hg3 & Hc3 & Hscr3).
    exists s3. cbn [run]. rewrite Hs1, Hs2, Hs3.
    rewrite Hg3, Hg2, Hg1, Hc3, Hc2, Hc1, Hobj3, Hobj2, Hobj1.
    split_and!; try done.
    + lia.
    + rewrite lookup_alter_other by done.
      rewrite (lookup_alter_same _ ri _ (setFlipped true ci)); [done|].
      rewrite lookup_alter_other by done. by apply lookup_alter_same.
    + rewrite (lookup_alter_same _ rj _ (setFlipped true cj)); [done|].
      rewrite lookup_alter_other by done.
      rewrite (lookup_alter_same _ rj _ cj); [done|].
      by rewrite lookup_alter_other.
    + intros r Hri' Hrj'. by rewrite !lookup_alter_other.
  - rewrite bool_decide_eq_false_2 in Hp2 by done.
    destruct (memory_nomatch_fire r2 s2 _ _ _ _ _ ri rj Hp2 Hri Hrj)
      as (s3 & Hs3 & Hobj3 & Hdeck3 & Hsel3 & Hg3 & Hp3 & Hc3 & Hscr3 & Hmo3).
    exists s3. cbn [run]. rewrite Hs1, Hs2, Hs3.
    destruct Hturn as (_ & _ & Hty & _ & _).
    unfold memoryTurn.
    rewrite Hg3, Hg2, Hg1, Hc3, Hc2, Hc1, Hobj3, Hobj2, Hobj1, Hscr3, Hscr2, Hmo3, Hmo2.
    rewrite (alter_flip_back _ _ _ _ _ Hoi Hoj Hfi Hfj).
    split_and!; try done. lia.
Qed.

Lemma memory_pair_round_witness :
  ∃ s', run [(User (ClickCard 0), []); (User (ClickCard 2), []); (Fire, [])]
          (startGame [] Memory initialState) = Some s'
        ∧ score (gameState s') = score (gameState (startGame [] Memory initialState)) + 10.
Proof.
  destruct (memory_pair_round [] [] [] (startGame [] Memory initialState) 0 2 0%nat 2%nat
              (mkCard 0 "🐶" false false) (mkCard 2 "🐶" false false))
    as (s' & Hrun & _ & _ & _ & Hrest).
  - apply (reachable_step initialState [] (User (ClickPlay Memory)));
      [apply reachable_init|reflexivity].
  - repeat split; reflexivity.
  - lia.
  - reflexivity.
  - reflexivity.
  - reflexivity.
  - reflexivity.
  - reflexivity.
  - reflexivity.
  - exists s'. split; [exact Hrun|].
    destruct (decide _) as [_|Hne] in Hrest; [|by destruct Hne].
    destruct Hrest as [H _]. exact H.
Defined.

(** ** The life of a card object *)

Lemma heapGrows_refl h : heapGrows h h.
Proof. intros r c Hc. by exists c. Qed.

Lemma heapGrows_trans h1 h2 h3 : heapGrows h1 h2 → heapGrows h2 h3 → heapGrows h1 h3.
Proof.
  intros H12 H23 r c Hc. destruct (H12 r c Hc) as (c2 & Hc2 & ? & ? & ?).
  destruct (H23 r c2 Hc2) as (c3 & Hc3 & ? & ? & ?).
  exists c3. unfold cardGrows. split_and!; [done|congruence..|auto].
Qed.

Lemma heapGrows_app h objects : heapGrows h (h ++ objects).
Proof. intros r c Hc. exists c. split; [by apply lookup_app_l_Some|done]. Qed.

Lemma heapGrows_alter (f : Card → Card) (r0 : ref) h :
  (∀ c, cardGrows c (f c)) → heapGrows h (alter f r0 h).
Proof.
  intros Hf r c Hc. destruct (decide (r0 = r)) as [->|Hne].
  - exists (f c). split; [|apply Hf].
    rewrite list_lookup_alter. rewrite decide_True by done. by rewrite Hc.
  - exists c. split; [|done]. rewrite list_lookup_alter. by rewrite decide_False.
Qed.

Lemma cardGrows_setFlipped v c : cardGrows c (setFlipped v c).
Proof. done. Qed.

Lemma cardGrows_setMatched c : cardGrows c (setMatched true c).
Proof. done. Qed.

Ltac heap_grows :=
  repeat first
    [ apply heapGrows_refl
    | apply heapGrows_app
    | (eapply heapGrows_trans; [|apply heapGrows_alter; first
         [apply cardGrows_setFlipped | apply cardGrows_setMatched]]) ].

Lemma handle_heapGrows rnd i s :
  heapGrows (cardObjects (rt s)) (cardObjects (rt (handle rnd i s))).
Proof.
  split_state s; destruct i; unfold_callbacks; exec_all; heap_grows.
Qed.

Lemma runTimer_heapGrows rnd a s :
  heapGrows (cardObjects (rt s)) (cardObjects (rt (runTimer rnd a s))).
Proof.
  split_state s; destruct a; unfold_callbacks; exec_all; heap_grows.
Qed.

Lemma step_heapGrows rnd e s s' :
  step rnd e s = Some s' → heapGrows (cardObjects (rt s)) (cardObjects (rt s')).
Proof.
  destruct e; simpl; intros Hstep.
  - case_match; [|done]. simplify_eq. apply handle_heapGrows.
  - destruct (earliest (pending (rt s))) as [t|]; [|done]. simplify_eq.
    eapply heapGrows_trans; [|apply runTimer_heapGrows].
    split_state s; apply heapGrows_refl.
  - case_match; [|done]. simplify_eq. split_state s; apply heapGrows_refl.
Qed.

(** Cards never change face, and a found pair stays found, whatever
    happens on the page. *)
Theorem cards_keep_face_and_match (evs : list (Event * list nat)) (s s' : State)
    (r : ref) (c : Card) :
  run evs s = Some s' → cardObjects (rt s) !! r = Some c →
  ∃ c', cardObjects (rt s') !! r = Some c'
        ∧ c_id c' = c_id c ∧ emoji c' = emoji c
        ∧ (matched c = true → matched c' = true).
Proof.
  revert s c. induction evs as [|[e rnd] evs IH]; intros s c; simpl.
  - intros [= <-] Hc. by exists c.
  - destruct (step rnd e s) as [s1|] eqn:Hstep; [|done]. intros Hrun Hc.
    destruct (step_heapGrows _ _ _ _ Hstep r c Hc) as (c1 & Hc1 & ? & ? & ?).
    destruct (IH s1 c1 Hrun Hc1) as (c' & Hc' & ? & ? & ?).
    exists c'. split_and!; [done|congruence..|auto].
Qed.

Lemma cards_keep_face_and_match_witness :
  ∃ c', cardObjects (rt (handleCardClick 0 (startGame [] Memory initialState))) !! 0%nat
        = Some c'
        ∧ emoji c' = "🐶".
Proof.
  destruct (cards_keep_face_and_match [(User (ClickCard 0), [])]
              (startGame [] Memory initialState)
              (handleCardClick 0 (startGame [] Memory initialState))
              0%nat (mkCard 0 "🐶" false false))
    as (c' & H1 & _ & H2 & _); [vm_compute; reflexivity|vm_compute; reflexivity|].
  exists c'. split; [exact H1|exact H2].
Defined.

(** ** A picture and a word *)

Lemma allPairs_distinct : pairsDistinct allPairs.
Proof. unfold pairsDistinct. apply (bool_decide_unpack _). vm_compute. exact I. Qed.

Lemma levelPairs_facts lvl p q :
  p ∈ levelPairs lvl → q ∈ levelPairs lvl →
  image p ≠ "" ∧ word q ≠ "" ∧ (image p = image q ∨ word p = word q → p = q).
Proof.
  intros Hp%slice0_elem Hq%slice0_elem.
  pose proof allPairs_distinct as Hd. unfold pairsDistinct in Hd. rewrite Forall_forall in Hd.
  destruct (Hd p Hp) as (Hi & _ & Hpq). destruct (Hd q Hq) as (_ & Hw & _).
  rewrite Forall_forall in Hpq. split_and!; [done..|]. by apply Hpq.
Qed.

Lemma getFindPairsForLevel_levelPairs lvl :
  1 ≤ lvl ≤ 3 → (getFindPairsForLevel lvl).1 = levelPairs lvl.
Proof.
  intros Hl. unfold getFindPairsForLevel. by rewrite invalidLevel_false.
Qed.

Lemma find_pair_rendered lvl sel s side p :
  1 ≤ lvl ≤ 3 → findPairTurn lvl sel s → p ∈ levelPairs lvl →
  image p ∉ pairedItems (findPairG s) →
  rendered s (ClickFindPair side
                (match side with side_image => image p | side_word => word p end)) = true.
Proof.
  intros Hl (Hscr & Hmo & Hty & Hlvl & _) Hp Hnew.
  unfold rendered, gameContentOffers. rewrite Hscr, Hmo, Hty, Hlvl.
  cbn [showWinModal showLevelCompleteModal].
  rewrite getFindPairsForLevel_levelPairs by done.
  apply existsb_exists. exists p. split; [by apply list_elem_of_In|].
  by rewrite !bool_decide_eq_true_2.
Qed.

(** The picture chosen first. *)
Lemma find_pair_first (rnd : list nat) (lvl : Z) (s : State) (p : PairRow) :
  1 ≤ lvl ≤ 3 → findPairTurn lvl (mkSelectedPair None None) s → p ∈ levelPairs lvl →
  image p ∉ pairedItems (findPairG s) →
  ∃ s1, step rnd (User (ClickFindPair side_image (image p))) s = Some s1
    ∧ findPairTurn lvl (mkSelectedPair (Some (image p)) None) s1
    ∧ pairedItems (findPairG s1) = pairedItems (findPairG s)
    ∧ gameState s1 = gameState s ∧ pending (rt s1) = pending (rt s).
Proof.
  intros Hl Hturn Hp Hnew.
  pose proof (find_pair_rendered lvl _ s side_image p Hl Hturn Hp Hnew) as Hren.
  unfold step. rewrite Hren. eexists. split; [reflexivity|].
  destruct Hturn as (Hscr & Hmo & Hty & Hlvl & Hsel). unfold findPairTurn.
  cbn [handle]. unfold handleFindPairSelect. rewrite Hsel. cbv zeta.
  cbn [sel_image sel_word truthy andb]. rewrite andb_false_r.
  split_state s; cbn in Hscr, Hmo, Hty, Hlvl; subst; exec_all; done.
Qed.

Lemma find_pair_found lvl p q :
  p ∈ levelPairs lvl → q ∈ levelPairs lvl →
  List.find (λ r, bool_decide (Some (image r) = Some (image p))
                  && bool_decide (Some (word r) = Some (word q))) (levelPairs lvl)
  = if decide (p = q) then Some p else None.
Proof.
  intros Hp Hq.
  destruct (List.find _ _) as [r|] eqn:Hfind.
  - apply find_some in Hfind as [Hr%list_elem_of_In Hf].
    apply andb_true_iff in Hf as [Hi%bool_decide_eq_true Hw%bool_decide_eq_true].
    injection Hi as Hi. injection Hw as Hw.
    destruct (levelPairs_facts lvl r p Hr Hp) as (_ & _ & Hrp).
    destruct (levelPairs_facts lvl r q Hr Hq) as (_ & _ & Hrq).
    assert (r = p) as -> by auto. assert (p = q) as -> by auto.
    by rewrite decide_True.
  - case_decide as Hpq; [|done]. subst q.
    pose proof (find_none _ _ Hfind p (proj1 (list_elem_of_In _ _) Hp)) as Hf.
    cbv beta in Hf.
    by rewrite !bool_decide_eq_true_2 in Hf.
Qed.

(** The word chosen second. *)
Lemma find_pair_second (rnd : list nat) (lvl : Z) (s : State) (p q : PairRow) :
  1 ≤ lvl ≤ 3 → findPairTurn lvl (mkSelectedPair (Some (image p)) None) s →
  p ∈ levelPairs lvl → q ∈ levelPairs lvl →
  image p ∉ pairedItems (findPairG s) → image q ∉ pairedItems (findPairG s) →
  ∃ s2, step rnd (User (ClickFindPair side_word (word q))) s = Some s2
    ∧ selectedPair (findPairG s2) = mkSelectedPair None None
    ∧ currentFindPairLevel (findPairG s2) = lvl
    ∧ currentScreen s2 = game
    ∧ if decide (p = q) then
        gameState s2 = withScore (score (gameState s) + 10) (gameState s)
        ∧ pairedItems (findPairG s2) = pairedItems (findPairG s) ∪ {[ image p ]}
      else
        gameState s2 = gameState s
        ∧ pairedItems (findPairG s2) = pairedItems (findPairG s)
        ∧ modals s2 = modals s ∧ pending (rt s2) = pending (rt s).
Proof.
  intros Hl Hturn Hp Hq Hnewp Hnewq.
  pose proof (find_pair_rendered lvl _ s side_word q Hl Hturn Hq Hnewq) as Hren.
  unfold step. rewrite Hren. eexists. split; [reflexivity|].
  destruct Hturn as (Hscr & Hmo & Hty & Hlvl & Hsel).
  destruct (levelPairs_facts lvl p q Hp Hq) as (Hi & Hw & _).
  cbn [handle]. unfold handleFindPairSelect. rewrite Hsel, Hlvl. cbv zeta.
  cbn [sel_image sel_word truthy]. rewrite !bool_decide_eq_true_2 by done. cbn [andb].
  fold (levelPairs lvl). rewrite (find_pair_found lvl p q Hp Hq).
  destruct (decide (p = q)) as [<-|Hpq].
  - rewrite bool_decide_eq_true_2 by done.
    split_state s; cbn in Hscr, Hmo, Hty, Hlvl; subst;
      unfold autoAdvanceLevel, setTimeout; exec_all; done.
  - split_state s; cbn in Hscr, Hmo, Hty, Hlvl; subst; exec_all; done.
Qed.

(** A picture and then a word: if they belong together the pair is paid
    ten points and joins the matched set; if not, nothing changes; either
    way the selection is empty again. *)
Theorem find_pair_round (rnd rnd' : list nat) (lvl : Z) (s : State) (p q : PairRow) :
  1 ≤ lvl ≤ 3 → findPairTurn lvl (mkSelectedPair None None) s →
  p ∈ levelPairs lvl → q ∈ levelPairs lvl →
  image p ∉ pairedItems (findPairG s) → image q ∉ pairedItems (findPairG s) →
  ∃ s', run [(User (ClickFindPair side_image (image p)), rnd);
             (User (ClickFindPair side_word (word q)), rnd')] s = Some s'
    ∧ selectedPair (findPairG s') = mkSelectedPair None None
    ∧ currentFindPairLevel (findPairG s') = lvl
    ∧ if decide (p = q) then
        gameState s' = withScore (score (gameState s) + 10) (gameState s)
        ∧ pairedItems (findPairG s') = pairedItems (findPairG s) ∪ {[ image p ]}
      else
        findPairTurn lvl (mkSelectedPair None None) s'
        ∧ gameState s' = gameState s
        ∧ pairedItems (findPairG s') = pairedItems (findPairG s)
        ∧ pending (rt s') = pending (rt s).
Proof.
  intros Hl Hturn Hp Hq Hnewp Hnewq.
  destruct (find_pair_first rnd lvl s p Hl Hturn Hp Hnewp)
    as (s1 & Hs1 & Hturn1 & Hpaired1 & Hg1 & Hpend1).
  rewrite <- Hpaired1 in Hnewp, Hnewq.
  destruct (find_pair_second rnd' lvl s1 p q Hl Hturn1 Hp Hq Hnewp Hnewq)
    as (s2 & Hs2 & Hsel2 & Hlvl2 & Hscr2 & Hrest).
  exists s2. cbn [run]. rewrite Hs1, Hs2. split_and!; [done..|].
  destruct (decide (p = q)).
  - destruct Hrest as [-> ->]. by rewrite Hg1, Hpaired1.
  - destruct Hrest as (Hg2 & Hpaired2 & Hmo2 & Hpend2).
    destruct Hturn1 as (_ & Hmo1 & Hty1 & _ & _).
    unfold findPairTurn. rewrite Hg2, Hpaired2, Hmo2, Hscr2, Hsel2, Hlvl2.
    rewrite Hpend2, Hpend1, Hmo1, Hg1.
    destruct Hturn as (_ & _ & Hty & _ & _). by rewrite Hty.
Qed.

Lemma find_pair_round_witness :
  ∃ s', run [(User (ClickFindPair side_image "🐶"), []);
             (User (ClickFindPair side_word "Cachorro"), [])]
          (startGame [] FindPair initialState) = Some s'
        ∧ selectedPair (findPairG s') = mkSelectedPair None None.
Proof.
  destruct (find_pair_round [] [] 1 (startGame [] FindPair initialState)
              (mkPair "🐶" "Cachorro") (mkPair "🐶" "Cachorro"))
    as (s' & Hrun & Hsel & _).
  - lia.
  - repeat split; reflexivity.
  - apply (bool_decide_unpack _). vm_compute. exact I.
  - apply (bool_decide_unpack _). vm_compute. exact I.
  - apply (bool_decide_unpack _). vm_compute. exact I.
  - apply (bool_decide_unpack _). vm_compute. exact I.
  - exists s'. split; [exact Hrun|exact Hsel].
Defined.

(** ** An answer in the pattern game *)

Lemma at_index_slice0 {A} (arr : list A) lvl index :
  0 ≤ index < lvl → at_index (slice0 arr (Some lvl)) index = at_index arr index.
Proof.
  intros H. unfold at_index, slice0. case_decide; [|lia]. case_decide; [lia|].
  apply lookup_take_lt. lia.
Qed.

Lemma slice0_allPatterns_len lvl : 0 ≤ lvl ≤ 10 → len (slice0 allPatterns (Some lvl)) = lvl.
Proof.
  intros H. unfold slice0, len. case_decide; [lia|].
  rewrite length_take. change (length allPatterns) with 10%nat. lia.
Qed.

Lemma getPatternsForLevel_in_range lvl index :
  1 ≤ lvl ≤ 5 → 0 ≤ index < lvl →
  getPatternsForLevel lvl index = (at_index allPatterns index, []).
Proof.
  intros Hl Hi.
  unfold getPatternsForLevel. rewrite invalidLevel_false by done. cbv zeta.
  rewrite slice0_allPatterns_len by lia.
  rewrite bool_decide_eq_false_2 by lia. rewrite bool_decide_eq_false_2 by lia.
  cbn [orb]. by rewrite at_index_slice0.
Qed.

Lemma pattern_option_rendered lvl k s row opt :
  1 ≤ lvl ≤ 5 → 0 ≤ k < lvl → patternTurn lvl k s →
  at_index allPatterns k = Some row → opt ∈ p_options row →
  rendered s (ClickPatternOption opt) = true.
Proof.
  intros Hl Hk (Hscr & Hmo & Hty & Hlvl & Hidx & Hfb & _) Hrow Hopt.
  unfold rendered, gameContentOffers. rewrite Hscr, Hmo. cbn [showWinModal showLevelCompleteModal].
  rewrite Hty, Hlvl, Hidx, getPatternsForLevel_in_range by done. cbn [fst]. rewrite Hrow, Hfb.
  rewrite !bool_decide_eq_true_2; done.
Qed.

Lemma pattern_click (rnd : list nat) (lvl k : Z) (s : State) (row : PatternRow)
    (opt : string) :
  1 ≤ lvl ≤ 5 → 0 ≤ k < lvl → patternTurn lvl k s →
  at_index allPatterns k = Some row → opt ∈ p_options row →
  ∃ s1, step rnd (User (ClickPatternOption opt)) s = Some s1
    ∧ pending (rt s1)
      = [mkTimer (nextTimer (rt s)) (clock (rt s) + 1000) (TPatternNext k (gameState s))]
    ∧ gameState s1
      = withScore (score (gameState s) + points (bool_decide (opt = p_answer row)))
          (gameState s)
    ∧ nextTimer (rt s1) = S (nextTimer (rt s)) ∧ clock (rt s1) = clock (rt s)
    ∧ currentScreen s1 = game ∧ modals s1 = mkModals false false
    ∧ currentPatternIndex (patternG s1) = k.
Proof.
  intros Hl Hk Hturn Hrow Hopt.
  pose proof (pattern_option_rendered _ _ _ _ _ Hl Hk Hturn Hrow Hopt) as Hren.
  unfold step. rewrite Hren. clear Hren. eexists. split; [reflexivity|].
  destruct Hturn as (Hscr & Hmo & Hty & Hlvl & Hidx & Hfb & Hpend).
  cbn [handle]. unfold handlePatternAnswer. rewrite Hlvl, Hidx, at_index_slice0, Hrow by done.
  cbv zeta. unfold points.
  split_state s; cbn in Hscr, Hmo, Hidx, Hpend; subst;
    destruct (bool_decide (opt = p_answer row)); cbn [soundOf feedbackOf];
    unfold setTimeout; exec_all; split_and!; try done;
    destruct gs; unfold withScore; cbn; f_equal; lia.
Qed.

Lemma pattern_fire (rnd : list nat) (lvl k : Z) (s : State) (h : nat) (d : Z)
    (gs : GameState) :
  1 ≤ lvl ≤ 5 → level gs = lvl →
  pending (rt s) = [mkTimer h d (TPatternNext k gs)] →
  ∃ s2, step rnd Fire s = Some s2
    ∧ clock (rt s2) = Z.max (clock (rt s)) d
    ∧ gameState s2 = gameState s ∧ currentScreen s2 = currentScreen s
    ∧ if decide (k < lvl - 1) then
        currentPatternIndex (patternG s2) = currentPatternIndex (patternG s) + 1
        ∧ patternFeedback (patternG s2) = None
        ∧ pending (rt s2) = [] ∧ modals s2 = modals s
      else
        currentPatternIndex (patternG s2) = currentPatternIndex (patternG s)
        ∧ if decide (lvl < maxLevel gs) then
            modals s2 = mkModals true (showWinModal (modals s))
            ∧ pending (rt s2)
              = [mkTimer (nextTimer (rt s)) (Z.max (clock (rt s)) d + 1500)
                   (TNextLevel (type gs) lvl)]
          else
            modals s2 = mkModals (showLevelCompleteModal (modals s)) true
            ∧ pending (rt s2) = [].
Proof.
  intros Hl Hlvl Hpend.
  unfold step. rewrite Hpend. cbn [earliest action tid due]. eexists. split; [reflexivity|].
  unfold runTimer, patternNextCallback. cbv zeta.
  rewrite Hlvl, slice0_allPatterns_len by lia.
  split_state s; cbn in Hpend; subst pend; destruct mo;
    unfold autoAdvanceLevel, setTimeout; exec_all;
    cbn [filter list_filter]; rewrite ?decide_False by (intros Hne; by apply Hne);
    split_and!; try done; lia.
Qed.

(** An answer to a pattern challenge, right or wrong, and the second that
    follows it: the next challenge of the level, or the end of the level.
    Only a right answer is paid. *)
Theorem pattern_answer_moves_on (rnd rnd' : list nat) (lvl k : Z) (s : State)
    (row : PatternRow) (opt : string) :
  1 ≤ lvl ≤ 5 → 0 ≤ k < lvl → patternTurn lvl k s →
  at_index allPatterns k = Some row → opt ∈ p_options row →
  ∃ s', run [(User (ClickPatternOption opt), rnd); (Fire, rnd')] s = Some s'
    ∧ gameState s'
      = withScore (score (gameState s) + points (bool_decide (opt = p_answer row)))
          (gameState s)
    ∧ clock (rt s') = clock (rt s) + 1000
    ∧ if decide (k < lvl - 1) then patternTurn lvl (k + 1) s'
      else
        currentPatternIndex (patternG s') = k
        ∧ if decide (lvl < maxLevel (gameState s)) then
            modals s' = mkModals true false
            ∧ pending (rt s')
              = [mkTimer (S (nextTimer (rt s))) (clock (rt s) + 2500)
                   (TNextLevel (Some Pattern) lvl)]
          else modals s' = mkModals false true ∧ pending (rt s') = [].
Proof.
  intros Hl Hk Hturn Hrow Hopt.
  destruct (pattern_click rnd lvl k s row opt Hl Hk Hturn Hrow Hopt)
    as (s1 & Hs1 & Hp1 & Hg1 & Hn1 & Hc1 & Hscr1 & Hmo1 & Hi1).
  destruct Hturn as (Hscr & Hmo & Hty & Hlvl & Hidx & Hfb & Hpend).
  destruct (pattern_fire rnd' lvl k s1 _ _ (gameState s) Hl Hlvl Hp1)
    as (s2 & Hs2 & Hc2 & Hg2 & Hscr2 & Hrest).
  exists s2. cbn [run]. rewrite Hs1, Hs2. split_and!.
  - done.
  - by rewrite Hg2, Hg1.
  - rewrite Hc2, Hc1. lia.
  - destruct (decide (k < lvl - 1)).
    + destruct Hrest as (Hi2 & Hf2 & Hp2 & Hmo2). unfold patternTurn.
      rewrite Hscr2, Hscr1, Hmo2, Hmo1, Hg2, Hg1, Hi2, Hi1, Hf2, Hp2.
      destruct (gameState s); cbn in *. by subst.
    + destruct Hrest as (Hi2 & Hrest). split; [by rewrite Hi2|].
      destruct (decide (lvl < maxLevel (gameState s))).
      * destruct Hrest as (-> & ->). rewrite Hmo1, Hn1, Hc1, Hty. cbn.
        split; [done|]. do 2 f_equal. lia.
      * destruct Hrest as (-> & ->). by rewrite Hmo1.
Qed.

Lemma pattern_answer_moves_on_witness :
  ∃ s', run [(User (ClickPatternOption "🟡"), []); (Fire, [])]
          (startGame [] Pattern initialState) = Some s'
        ∧ clock (rt s') = clock (rt (startGame [] Pattern initialState)) + 1000.
Proof.
  destruct (pattern_answer_moves_on [] [] 1 0 (startGame [] Pattern initialState)
              (mkPattern ["🔴"; "🔵"; "🔴"; "🔵"; "🔴"; "?"] "🔵" ["🔵"; "🟡"; "🟢"]) "🟡")
    as (s' & Hrun & _ & Hclk & _).
  - lia.
  - lia.
  - repeat split; reflexivity.
  - reflexivity.
  - apply (bool_decide_unpack _). vm_compute. exact I.
  - exists s'. split; [exact Hrun|exact Hclk].
Defined.

(** ** An answer in the odd-one-out game *)

Lemma slice0_allLevels_len lvl : 0 ≤ lvl ≤ 10 → len (slice0 allLevels (Some lvl)) = lvl.
Proof.
  intros H. unfold slice0, len. case_decide; [lia|].
  rewrite length_take. change (length allLevels) with 10%nat. lia.
Qed.

Lemma getDifferentForLevel_in_range lvl index :
  1 ≤ lvl ≤ 5 → 0 ≤ index < lvl →
  getDifferentForLevel lvl index = (at_index allLevels index, []).
Proof.
  intros Hl Hi.
  unfold getDifferentForLevel. rewrite invalidLevel_false by done. cbv zeta.
  rewrite slice0_allLevels_len by lia.
  rewrite bool_decide_eq_false_2 by lia. rewrite bool_decide_eq_false_2 by lia.
  cbn [orb]. by rewrite at_index_slice0.
Qed.

Lemma different_option_rendered lvl k s row index :
  1 ≤ lvl ≤ 5 → 0 ≤ k < lvl → differentTurn lvl k s →
  at_index allLevels k = Some row → 0 ≤ index < len (d_items row) →
  rendered s (ClickDifferentItem index) = true.
Proof.
  intros Hl Hk (Hscr & Hmo & Hty & Hlvl & Hidx & Hfb & _) Hrow Hopt.
  unfold rendered, gameContentOffers. rewrite Hscr, Hmo. cbn [showWinModal showLevelCompleteModal].
  rewrite Hty, Hlvl, Hidx, getDifferentForLevel_in_range by done. cbn [fst]. rewrite Hrow, Hfb.
  rewrite !bool_decide_eq_true_2; done.
Qed.

Lemma different_click (rnd : list nat) (lvl k : Z) (s : State) (row : DifferentRow)
    (index : Z) :
  1 ≤ lvl ≤ 5 → 0 ≤ k < lvl → differentTurn lvl k s →
  at_index allLevels k = Some row → 0 ≤ index < len (d_items row) →
  ∃ s1, step rnd (User (ClickDifferentItem index)) s = Some s1
    ∧ pending (rt s1)
      = [mkTimer (nextTimer (rt s)) (clock (rt s) + 1000) (TDifferentNext k (gameState s))]
    ∧ gameState s1
      = withScore (score (gameState s) + points (bool_decide (index = d_different row)))
          (gameState s)
    ∧ nextTimer (rt s1) = S (nextTimer (rt s)) ∧ clock (rt s1) = clock (rt s)
    ∧ currentScreen s1 = game ∧ modals s1 = mkModals false false
    ∧ currentDifferentIndex (differentG s1) = k.
Proof.
  intros Hl Hk Hturn Hrow Hopt.
  pose proof (different_option_rendered _ _ _ _ _ Hl Hk Hturn Hrow Hopt) as Hren.
  unfold step. rewrite Hren. clear Hren. eexists. split; [reflexivity|].
  destruct Hturn as (Hscr & Hmo & Hty & Hlvl & Hidx & Hfb & Hpend).
  cbn [handle]. unfold handleDifferentClick. rewrite Hlvl, Hidx, at_index_slice0, Hrow by done.
  cbv zeta. unfold points.
  split_state s; cbn in Hscr, Hmo, Hidx, Hpend; subst;
    destruct (bool_decide (index = d_different row)); cbn [soundOf feedbackOf];
    unfold setTimeout; exec_all; split_and!; try done;
    destruct gs; unfold withScore; cbn; f_equal; lia.
Qed.

Lemma different_fire (rnd : list nat) (lvl k : Z) (s : State) (h : nat) (d : Z)
    (gs : GameState) :
  1 ≤ lvl ≤ 5 → level gs = lvl →
  pending (rt s) = [mkTimer h d (TDifferentNext k gs)] →
  ∃ s2, step rnd Fire s = Some s2
    ∧ clock (rt s2) = Z.max (clock (rt s)) d
    ∧ gameState s2 = gameState s ∧ currentScreen s2 = currentScreen s
    ∧ if decide (k < lvl - 1) then
        currentDifferentIndex (differentG s2) = currentDifferentIndex (differentG s) + 1
        ∧ differentFeedback (differentG s2) = None
        ∧ pending (rt s2) = [] ∧ modals s2 = modals s
      else
        currentDifferentIndex (differentG s2) = currentDifferentIndex (differentG s)
        ∧ if decide (lvl < maxLevel gs) then
            modals s2 = mkModals true (showWinModal (modals s))
            ∧ pending (rt s2)
              = [mkTimer (nextTimer (rt s)) (Z.max (clock (rt s)) d + 1500)
                   (TNextLevel (type gs) lvl)]
          else
            modals s2 = mkModals (showLevelCompleteModal (modals s)) true
            ∧ pending (rt s2) = [].
Proof.
  intros Hl Hlvl Hpend.
  unfold step. rewrite Hpend. cbn [earliest action tid due]. eexists. split; [reflexivity|].
  unfold runTimer, differentNextCallback. cbv zeta.
  rewrite Hlvl, slice0_allLevels_len by lia.
  split_state s; cbn in Hpend; subst pend; destruct mo;
    unfold autoAdvanceLevel, setTimeout; exec_all;
    cbn [filter list_filter]; rewrite ?decide_False by (intros Hne; by apply Hne);
    split_and!; try done; lia.
Qed.

(** An answer to an odd-one-out challenge, right or wrong, and the second
    that follows it: the next challenge of the level, or the end of the
    level.  Only a right answer is paid. *)
Theorem different_answer_moves_on (rnd rnd' : list nat) (lvl k : Z) (s : State)
    (row : DifferentRow) (index : Z) :
  1 ≤ lvl ≤ 5 → 0 ≤ k < lvl → differentTurn lvl k s →
  at_index allLevels k = Some row → 0 ≤ index < len (d_items row) →
  ∃ s', run [(User (ClickDifferentItem index), rnd); (Fire, rnd')] s = Some s'
    ∧ gameState s'
      = withScore (score (gameState s) + points (bool_decide (index = d_different row)))
          (gameState s)
    ∧ clock (rt s') = clock (rt s) + 1000
    ∧ if decide (k < lvl - 1) then differentTurn lvl (k + 1) s'
      else
        currentDifferentIndex (differentG s') = k
        ∧ if decide (lvl < maxLevel (gameState s)) then
            modals s' = mkModals true false
            ∧ pending (rt s')
              = [mkTimer (S (nextTimer (rt s))) (clock (rt s) + 2500)
                   (TNextLevel (Some Different) lvl)]
          else modals s' = mkModals false true ∧ pending (rt s') = [].
Proof.
  intros Hl Hk Hturn Hrow Hopt.
  destruct (different_click rnd lvl k s row index Hl Hk Hturn Hrow Hopt)
    as (s1 & Hs1 & Hp1 & Hg1 & Hn1 & Hc1 & Hscr1 & Hmo1 & Hi1).
  destruct Hturn as (Hscr & Hmo & Hty & Hlvl & Hidx & Hfb & Hpend).
  destruct (different_fire rnd' lvl k s1 _ _ (gameState s) Hl Hlvl Hp1)
    as (s2 & Hs2 & Hc2 & Hg2 & Hscr2 & Hrest).
  exists s2. cbn [run]. rewrite Hs1, Hs2. split_and!.
  - done.
  - by rewrite Hg2, Hg1.
  - rewrite Hc2, Hc1. lia.
  - destruct (decide (k < lvl - 1)).
    + destruct Hrest as (Hi2 & Hf2 & Hp2 & Hmo2). unfold differentTurn.
      rewrite Hscr2, Hscr1, Hmo2, Hmo1, Hg2, Hg1, Hi2, Hi1, Hf2, Hp2.
      destruct (gameState s); cbn in *. by subst.
    + destruct Hrest as (Hi2 & Hrest). split; [by rewrite Hi2|].
      destruct (decide (lvl < maxLevel (gameState s))).
      * destruct Hrest as (-> & ->). rewrite Hmo1, Hn1, Hc1, Hty. cbn.
        split; [done|]. do 2 f_equal. lia.
      * destruct Hrest as (-> & ->). by rewrite Hmo1.
Qed.

Lemma different_answer_moves_on_witness :
  ∃ s', run [(User (ClickDifferentItem 3), []); (Fire, [])]
          (startGame [] Different initialState) = Some s'
        ∧ clock (rt s') = clock (rt (startGame [] Different initialState)) + 1000.
Proof.
  destruct (different_answer_moves_on [] [] 1 0 (startGame [] Different initialState)
              (mkDifferent ["🐶"; "🐶"; "🐶"; "🐱"; "🐶"] 3) 3)
    as (s' & Hrun & _ & Hclk & _).
  - lia.
  - lia.
  - repeat split; reflexivity.
  - reflexivity.
  - unfold len. cbn. lia.
  - exists s'. split; [exact Hrun|exact Hclk].
Defined.

(** ** The row on screen is the row judged *)

Lemma handlePatternAnswer_judges (s : State) (row : PatternRow) (answer : string) :
  at_index (slice0 allPatterns (Some (level (gameState s))))
    (currentPatternIndex (patternG s)) = Some row →
  patternFeedback (patternG (handlePatternAnswer answer s))
  = Some (feedbackOf (bool_decide (answer = p_answer row)))
  ∧ score (gameState (handlePatternAnswer answer s))
    = score (gameState s) + points (bool_decide (answer = p_answer row)).
Proof.
  intros Hrow. unfold handlePatternAnswer. rewrite Hrow. cbv zeta. unfold points.
  destruct (bool_decide (answer = p_answer row)); split_state s; cbn; split;
    first [reflexivity | lia].
Qed.

Lemma handleDifferentClick_judges (s : State) (row : DifferentRow) (index : Z) :
  at_index (slice0 allLevels (Some (level (gameState s))))
    (currentDifferentIndex (differentG s)) = Some row →
  differentFeedback (differentG (handleDifferentClick index s))
  = Some (feedbackOf (bool_decide (index = d_different row)))
  ∧ score (gameState (handleDifferentClick index s))
    = score (gameState s) + points (bool_decide (index = d_different row)).
Proof.
  intros Hrow. unfold handleDifferentClick. rewrite Hrow. cbv zeta. unfold points.
  destruct (bool_decide (index = d_different row)); split_state s; cbn; split;
    first [reflexivity | lia].
Qed.

(** Inside their range the two lookups with an index log nothing and
    return the row at that index of the whole table, and this row, the one
    on screen, is the row the answer handler judges: the handler shows
    [correct] and pays exactly for the answer of that row. *)
Theorem lookups_in_range (s : State) (lvl index : Z) :
  1 ≤ lvl ≤ 5 → 0 ≤ index < lvl → level (gameState s) = lvl →
  (currentPatternIndex (patternG s) = index →
     ∃ row, getPatternsForLevel lvl index = (Some row, [])
       ∧ at_index allPatterns index = Some row
       ∧ ∀ answer,
           patternFeedback (patternG (handlePatternAnswer answer s))
           = Some (feedbackOf (bool_decide (answer = p_answer row)))
           ∧ score (gameState (handlePatternAnswer answer s))
             = score (gameState s) + points (bool_decide (answer = p_answer row)))
  ∧ (currentDifferentIndex (differentG s) = index →
     ∃ row, getDifferentForLevel lvl index = (Some row, [])
       ∧ at_index allLevels index = Some row
       ∧ ∀ i,
           differentFeedback (differentG (handleDifferentClick i s))
           = Some (feedbackOf (bool_decide (i = d_different row)))
           ∧ score (gameState (handleDifferentClick i s))
             = score (gameState s) + points (bool_decide (i = d_different row))).
Proof.
  intros Hl Hi Hlvl. split; intros Hidx.
  - assert (is_Some (at_index allPatterns index)) as [row Hrow].
    { unfold at_index. case_decide; [|lia]. apply lookup_lt_is_Some_2.
      change (length allPatterns) with 10%nat. lia. }
    exists row. rewrite getPatternsForLevel_in_range, Hrow by done.
    split_and!; [done..|]. intros answer. apply handlePatternAnswer_judges.
    by rewrite Hlvl, Hidx, at_index_slice0.
  - assert (is_Some (at_index allLevels index)) as [row Hrow].
    { unfold at_index. case_decide; [|lia]. apply lookup_lt_is_Some_2.
      change (length allLevels) with 10%nat. lia. }
    exists row. rewrite getDifferentForLevel_in_range, Hrow by done.
    split_and!; [done..|]. intros i. apply handleDifferentClick_judges.
    by rewrite Hlvl, Hidx, at_index_slice0.
Qed.

Lemma lookups_in_range_witness :
  ∃ row, getPatternsForLevel 1 0 = (Some row, [])
    ∧ score (gameState (handlePatternAnswer "🟡" (startGame [] Pattern initialState)))
      = score (gameState (startGame [] Pattern initialState))
        + points (bool_decide ("🟡" = p_answer row)).
Proof.
  destruct (lookups_in_range (startGame [] Pattern initialState) 1 0) as [H _];
    [lia|lia|reflexivity|].
  destruct H as (row & H1 & _ & H2); [reflexivity|].
  exists row. split; [exact H1|]. destruct (H2 "🟡") as [_ H]. exact H.
Defined.

(** ** The sequence board *)










(** ** The Simon sequences *)

Lemma randomButtons_valid rnd n : Forall validButton (randomButtons rnd n).
Proof.
  unfold randomButtons. rewrite Forall_fmap, Forall_forall. intros i _.
  unfold validButton. simpl.
  pose proof (Nat.mod_upper_bound (nth i rnd 0%nat) 4). lia.
Qed.

Lemma randomButtons_length rnd n : length (randomButtons rnd n) = Z.to_nat n.
Proof. unfold randomButtons. by rewrite length_fmap, length_seq. Qed.

Lemma prefix_snoc_lookup {A} (l k : list A) (x : A) :
  l `prefix_of` k → k !! length l = Some x → (l ++ [x]) `prefix_of` k.
Proof.
  intros [t ->] Hx. rewrite lookup_app_r in Hx by lia. rewrite Nat.sub_diag in Hx.
  destruct t as [|y t]; [done|]. simpl in Hx. injection Hx as ->.
  exists t. by rewrite <- app_assoc.
Qed.

Lemma simon_accepts_prefix (player sim : list Z) (b : Z) :
  player `prefix_of` sim →
  at_index (player ++ [b]) (len (player ++ [b]) - 1)
  = at_index sim (len (player ++ [b]) - 1) →
  (player ++ [b]) `prefix_of` sim.
Proof.
  intros Hp. rewrite len_snoc, at_index_snoc. intros Hb.
  apply prefix_snoc_lookup; [done|].
  unfold at_index, len in Hb. case_decide; [|lia]. by rewrite Nat2Z.id in Hb.
Qed.

Ltac simon_ok :=
  repeat match goal with
    | H : _ ∧ _ |- _ => destruct H
    | H : left _ = left _ |- _ => clear H
    | H : right _ = right _ |- _ => clear H
    end;
  split_and!;
  rewrite ?Forall_app, ?Forall_nil, ?Forall_singleton in *;
  simpl in *;
  try done;
  try (split; [done|]);
  try match goal with
    | |- Forall validButton (randomButtons _ _) => apply randomButtons_valid
    | |- [] `prefix_of` _ => apply prefix_nil
    | H : Forall _ ?l |- Forall _ (filter _ ?l) => by apply Forall_filter_keep
    | |- (_ ++ [_]) `prefix_of` _ =>
        apply simon_accepts_prefix; [done|]; by apply dec_stable
    end.

Lemma handle_simonOk rnd i s : simonOk s → simonOk (handle rnd i s).
Proof.
  unfold simonOk. intros (H1 & H2 & H3).
  split_state s; destruct i; unfold_callbacks; exec_all; simon_ok.
Qed.

Lemma runTimer_simonOk rnd t s :
  timerButtonsOk t → simonOk s → simonOk (runTimer rnd t s).
Proof.
  unfold simonOk. intros Ht (H1 & H2 & H3).
  split_state s; destruct t; unfold_callbacks; exec_all; simon_ok.
Qed.

Lemma reachable_simonOk s : reachable s → simonOk s.
Proof.
  induction 1 as [|s rnd e s' _ IH Hstep].
  - unfold simonOk. cbn. split_and!; [constructor | done | constructor].
  - destruct e; simpl in Hstep.
    + case_match; [|done]. simplify_eq. by apply handle_simonOk.
    + destruct (earliest (pending (rt s))) as [t|] eqn:Ht; [|done]. simplify_eq.
      assert (Hin : t ∈ pending (rt s)) by by apply earliest_elem.
      destruct IH as (H1 & H2 & H3).
      apply runTimer_simonOk.
      * by apply (proj1 (Forall_forall _ _) H3).
      * unfold simonOk. split_state s; cbn in *; (split_and!; [done..|]);
        by apply Forall_filter_keep.
    + case_match; [|done]. simplify_eq. split_state s; exact IH.
Qed.

Lemma randomButtons_nonempty rnd n : 1 ≤ n → randomButtons rnd n ≠ [].
Proof.
  intros Hn Hnil. apply (f_equal length) in Hnil.
  rewrite randomButtons_length in Hnil. simpl in Hnil. lia.
Qed.

(** Every step of a playback that is still to run names a button that
    exists: [SIMON_COLORS[buttonId]] is never [undefined]. *)
Theorem simon_playback_defined (s : State) (t : Timer) (sequence : list Z) (index : Z) :
  reachable s → t ∈ pending (rt s) →
  action t = TSimonShowNext sequence index ∨ action t = TSimonHide sequence index →
  0 ≤ index < len sequence →
  ∃ b c, at_index sequence index = Some b ∧ at_index SIMON_COLORS b = Some c ∧ sc_id c = b.
Proof.
  intros Hr Ht Ha Hi. apply reachable_simonOk in Hr as (_ & _ & H3).
  rewrite Forall_forall in H3. specialize (H3 t Ht).
  assert (Hseq : Forall validButton sequence) by (destruct Ha as [Ha|Ha]; by rewrite Ha in H3).
  unfold len in *. unfold at_index at 1. case_decide; [|lia].
  destruct (sequence !! Z.to_nat index) as [b|] eqn:Hb.
  - rewrite Forall_forall in Hseq. apply list_elem_of_lookup_2, Hseq in Hb.
    unfold validButton in Hb.
    assert (b = 0 ∨ b = 1 ∨ b = 2 ∨ b = 3) as Hcases by lia;
    destruct Hcases as [Hb0|[Hb0|[Hb0|Hb0]]]; rewrite Hb0;
      eexists _, _; (split; [done|]); by vm_compute.
  - apply lookup_ge_None in Hb. lia.
Qed.

Lemma simon_playback_defined_witness :
  ∃ b c, at_index [2] 0 = Some b ∧ at_index SIMON_COLORS b = Some c ∧ sc_id c = b.
Proof.
  apply (simon_playback_defined
           (default initialState
              (run [(User (ClickPlay Simon), [2%nat]); (Fire, [])] initialState))
           (mkTimer 2 1000 (TSimonShowNext [2] 0)) [2] 0).
  - apply (run_reachable [(User (ClickPlay Simon), [2%nat]); (Fire, [])] initialState);
      [apply reachable_init|vm_compute; reflexivity].
  - vm_compute. left.
  - left. reflexivity.
  - unfold len. cbn. lia.
Defined.

(** ** Playing a Simon sequence *)

Lemma validButton_color b :
  validButton b → ∃ c, at_index SIMON_COLORS b = Some c.
Proof.
  unfold validButton. intros Hb.
  assert (b = 0 ∨ b = 1 ∨ b = 2 ∨ b = 3) as Hcases by lia.
  destruct Hcases as [Hb0|[Hb0|[Hb0|Hb0]]]; rewrite Hb0; by eexists.
Qed.

Lemma at_index_lookup {A} (l : list A) (i : Z) :
  0 ≤ i → at_index l i = l !! Z.to_nat i.
Proof. intros Hi. unfold at_index. by case_decide; [|lia]. Qed.

(** One button of a playback: it lights, sounds, and goes dark 500 ms
    later. *)
Lemma playback_button (s : State) (h : nat) (d : Z) (sequence : list Z) (index b : Z)
    (c : SimonColor) :
  pending (rt s) = [mkTimer h d (TSimonShowNext sequence index)] →
  index < len sequence → at_index sequence index = Some b →
  at_index SIMON_COLORS b = Some c →
  ∃ s1, step [] Fire s = Some s1
    ∧ pending (rt s1)
      = [mkTimer (nextTimer (rt s)) (Z.max (clock (rt s)) d + 500) (TSimonHide sequence index)]
    ∧ clock (rt s1) = Z.max (clock (rt s)) d
    ∧ activeSimonButton (simonG s1) = Some b
    ∧ isShowingSequence (simonG s1) = isShowingSequence (simonG s)
    ∧ audio (rt s1) = heard s [sound c]
    ∧ playbackFrame s s1.
Proof.
  intros Hp Hi Hb Hc. unfold playbackFrame, heard.
  split_state s; cbn in Hp; subst pend;
    unfold step; cbn [earliest pending rt action tid due];
    unfold runTimer, simonShowNextCallback;
    rewrite decide_True by done; cbv zeta; rewrite Hb; cbn [mbind option_bind];
    rewrite Hc; eexists; (split; [reflexivity|]);
    unfold playSound, setTimeout, clearTimeout, setClock, setActiveSimonButton;
    exec_all; cbn [filter list_filter]; by rewrite decide_False by (intros Hne; by apply Hne).
Qed.

(** The button going dark: the next one is scheduled 300 ms later, or, after
    the last one, the player may answer. *)
Lemma playback_gap (s : State) (h : nat) (d : Z) (sequence : list Z) (index : Z) :
  pending (rt s) = [mkTimer h d (TSimonHide sequence index)] →
  ∃ s1, step [] Fire s = Some s1
    ∧ clock (rt s1) = Z.max (clock (rt s)) d
    ∧ activeSimonButton (simonG s1) = None
    ∧ audio (rt s1) = audio (rt s)
    ∧ playbackFrame s s1
    ∧ if decide (index + 1 < len sequence) then
        pending (rt s1)
        = [mkTimer (nextTimer (rt s)) (Z.max (clock (rt s)) d + 300)
             (TSimonShowNext sequence (index + 1))]
        ∧ isShowingSequence (simonG s1) = isShowingSequence (simonG s)
      else pending (rt s1) = [] ∧ isShowingSequence (simonG s1) = false.
Proof.
  intros Hp. unfold playbackFrame.
  split_state s; cbn in Hp; subst pend;
    unfold step; cbn [earliest pending rt action tid due];
    unfold runTimer, simonHideCallback; cbv zeta;
    eexists; (split; [reflexivity|]);
    unfold setTimeout, clearTimeout, setClock, setActiveSimonButton, setTimeoutRef,
      setIsShowingSequence;
    exec_all; cbn [filter list_filter]; by rewrite decide_False by (intros Hne; by apply Hne).
Qed.

Lemma heard_heard s s1 l k :
  soundEnabled (rt s1) = soundEnabled (rt s) → audio (rt s1) = heard s l →
  heard s1 k = heard s (l ++ k).
Proof. unfold heard. intros -> ->. case_match; [by rewrite app_assoc|done]. Qed.

Lemma playbackFrame_trans s1 s2 s3 :
  playbackFrame s1 s2 → playbackFrame s2 s3 → playbackFrame s1 s3.
Proof. unfold playbackFrame. intros (?&?&?&?&?&?) (?&?&?&?&?&?). split_and!; congruence. Qed.

Lemma buttonSounds_drop sequence index b c :
  0 ≤ index → at_index sequence index = Some b → at_index SIMON_COLORS b = Some c →
  buttonSounds (drop (Z.to_nat index) sequence)
  = sound c :: buttonSounds (drop (Z.to_nat (index + 1)) sequence).
Proof.
  intros Hi Hb Hc. rewrite at_index_lookup in Hb by done.
  rewrite (drop_S _ _ _ Hb). replace (Z.to_nat (index + 1)) with (S (Z.to_nat index)) by lia.
  unfold buttonSounds. simpl. by rewrite Hc.
Qed.

(** The rest of a playback, from the button at [index] on. *)
Lemma playback_from (k : nat) :
  ∀ (s : State) (h : nat) (d : Z) (sequence : list Z) (index : Z),
    Forall validButton sequence → 0 ≤ index → len sequence - index = Z.of_nat (S k) →
    pending (rt s) = [mkTimer h d (TSimonShowNext sequence index)] →
    ∃ s', run (replicate (2 * S k) (Fire, [])) s = Some s'
      ∧ isShowingSequence (simonG s') = false
      ∧ activeSimonButton (simonG s') = None
      ∧ pending (rt s') = []
      ∧ clock (rt s') = Z.max (clock (rt s)) d + 500 + 800 * Z.of_nat k
      ∧ audio (rt s') = heard s (buttonSounds (drop (Z.to_nat index) sequence))
      ∧ playbackFrame s s'.
Proof.
  induction k as [|k IH]; intros s h d sequence index Hv Hi Hlen Hp.
  all: assert (Hlt : index < len sequence) by lia.
  all: destruct (at_index sequence index) as [b|] eqn:Hb;
    [|rewrite at_index_lookup in Hb by done; apply lookup_ge_None in Hb; unfold len in *; lia].
  all: assert (Hvb : validButton b)
    by (rewrite at_index_lookup in Hb by done;
        by eapply (proj1 (Forall_forall _ _) Hv), list_elem_of_lookup_2).
  all: destruct (validButton_color b Hvb) as [c Hc].
  all: destruct (playback_button s h d sequence index b c Hp Hlt Hb Hc)
    as (s1 & Hs1 & Hp1 & Hc1 & _ & Hshow1 & Ha1 & Hf1).
  all: destruct (playback_gap s1 _ _ sequence index Hp1)
    as (s2 & Hs2 & Hc2 & Hact2 & Ha2 & Hf2 & Hrest).
  - rewrite decide_False in Hrest by lia. destruct Hrest as [Hp2 Hshow2].
    exists s2. change (2 * 1)%nat with 2%nat. cbn [replicate run]. rewrite Hs1, Hs2.
    split_and!; try done.
    + rewrite Hc2, Hc1. lia.
    + rewrite Ha2, Ha1. f_equal.
      rewrite (buttonSounds_drop _ _ _ _ Hi Hb Hc).
      rewrite drop_ge; [done|]. unfold len in *. lia.
    + by eapply playbackFrame_trans.
  - rewrite decide_True in Hrest by lia. destruct Hrest as [Hp2 Hshow2].
    destruct (IH s2 _ _ sequence (index + 1) Hv ltac:(lia) ltac:(lia) Hp2)
      as (s' & Hrun & ? & ? & ? & Hclk & Haud & Hf).
    exists s'. replace (2 * S (S k))%nat with (S (S (2 * S k))) by lia.
    cbn [replicate run]. rewrite Hs1, Hs2.
    split_and!; try done.
    + rewrite Hclk, Hc2, Hc1. lia.
    + rewrite Haud. rewrite (buttonSounds_drop _ _ _ _ Hi Hb Hc).
      destruct Hf1 as (_&_&_&_&_&Hse1). destruct Hf2 as (_&_&_&_&_&Hse2).
      apply (heard_heard s s2 [sound c]); [congruence|].
      by rewrite Ha2, Ha1.
    + eapply playbackFrame_trans; [|done]. by eapply playbackFrame_trans.
Qed.

(** The call of [showSimonSequence] out of its timer. *)
Lemma playback_start (s : State) (h : nat) (d : Z) (sequence : list Z) :
  pending (rt s) = [mkTimer h d (TShowSimonSequence sequence)] →
  ∃ s1, step [] Fire s = Some s1
    ∧ pending (rt s1)
      = [mkTimer (nextTimer (rt s)) (Z.max (clock (rt s)) d + 500) (TSimonShowNext sequence 0)]
    ∧ showSequenceTimeoutRef (rt s1) = Some (nextTimer (rt s))
    ∧ clock (rt s1) = Z.max (clock (rt s)) d
    ∧ audio (rt s1) = audio (rt s)
    ∧ playbackFrame s s1.
Proof.
  intros Hp. unfold playbackFrame.
  split_state s; cbn in Hp; subst pend;
    unfold step; cbn [earliest pending rt action tid due];
    unfold runTimer, showSimonSequence; cbv zeta;
    eexists; (split; [reflexivity|]);
    unfold setTimeout, clearTimeout, setClock, setTimeoutRef;
    exec_all; cbn [filter list_filter]; by rewrite decide_False by (intros Hne; by apply Hne).
Qed.

Lemma playback_run (s : State) (h : nat) (d : Z) (sequence : list Z) :
  Forall validButton sequence → sequence ≠ [] →
  pending (rt s) = [mkTimer h d (TShowSimonSequence sequence)] →
  ∃ s', run (replicate (2 * length sequence + 1) (Fire, [])) s = Some s'
    ∧ isShowingSequence (simonG s') = false
    ∧ activeSimonButton (simonG s') = None
    ∧ pending (rt s') = []
    ∧ clock (rt s') = Z.max (clock (rt s)) d + 800 * len sequence + 200
    ∧ audio (rt s') = heard s (buttonSounds sequence)
    ∧ playbackFrame s s'.
Proof.
  intros Hv Hne Hp.
  destruct (playback_start s h d sequence Hp) as (s1 & Hs1 & Hp1 & _ & Hc1 & Ha1 & Hf1).
  destruct sequence as [|b0 rest] eqn:Hseq; [done|]. rewrite <- Hseq in *.
  assert (Hlen : len sequence - 0 = Z.of_nat (S (length rest)))
    by (unfold len; rewrite Hseq; simpl; lia).
  destruct (playback_from (length rest) s1 _ _ sequence 0 Hv ltac:(lia) Hlen Hp1)
    as (s' & Hrun & ? & ? & ? & Hclk & Haud & Hf).
  exists s'.
  replace (2 * length sequence + 1)%nat with (S (2 * S (length rest)))
    by (rewrite Hseq; simpl; lia).
  cbn [replicate run]. rewrite Hs1.
  split_and!; try done.
  - rewrite Hclk, Hc1. unfold len in *. rewrite Hseq in *. simpl length in *. lia.
  - rewrite Haud. unfold heard. destruct Hf1 as (_&_&_&_&_&->). by rewrite Ha1.
  - by eapply playbackFrame_trans.
Qed.

Lemma initSimonGameAtLevel_state (rnd : list nat) (lvl : Z) (s : State) :
  pending (rt s) = [] →
  let s0 := initSimonGameAtLevel rnd lvl s in
  pending (rt s0)
  = [mkTimer (nextTimer (rt s)) (clock (rt s) + 500)
       (TShowSimonSequence (randomButtons rnd lvl))]
  ∧ clock (rt s0) = clock (rt s)
  ∧ simonSequence (simonG s0) = randomButtons rnd lvl
  ∧ playerSequence (simonG s0) = []
  ∧ isShowingSequence (simonG s0) = true
  ∧ gameState s0 = withLevelMax lvl 10 (gameState s)
  ∧ audio (rt s0) = audio (rt s) ∧ soundEnabled (rt s0) = soundEnabled (rt s).
Proof.
  intros Hpend. cbv zeta. unfold initSimonGameAtLevel, setTimeout.
  split_state s; cbn in Hpend; subst; exec_all; done.
Qed.

(** A Simon level set up on a quiet page: the sequence has as many buttons
    as the level counts, it is played button by button, 800 ms apart, and
    then the player may answer. *)
Theorem simon_level_is_played (rnd : list nat) (lvl : Z) (s : State) :
  1 ≤ lvl → pending (rt s) = [] →
  ∃ s', run (replicate (2 * Z.to_nat lvl + 1) (Fire, [])) (initSimonGameAtLevel rnd lvl s)
        = Some s'
    ∧ isShowingSequence (simonG (initSimonGameAtLevel rnd lvl s)) = true
    ∧ isShowingSequence (simonG s') = false
    ∧ activeSimonButton (simonG s') = None
    ∧ pending (rt s') = []
    ∧ simonSequence (simonG s') = randomButtons rnd lvl
    ∧ len (simonSequence (simonG s')) = lvl
    ∧ Forall validButton (simonSequence (simonG s'))
    ∧ playerSequence (simonG s') = []
    ∧ gameState s' = withLevelMax lvl 10 (gameState s)
    ∧ clock (rt s') = clock (rt s) + 700 + 800 * lvl
    ∧ audio (rt s') = heard s (buttonSounds (randomButtons rnd lvl)).
Proof.
  intros Hlvl Hpend.
  destruct (initSimonGameAtLevel_state rnd lvl s Hpend)
    as (Hp0 & Hc0 & Hseq0 & Hpl0 & Hshow0 & Hg0 & Ha0 & Hse0).
  assert (Hlen : length (randomButtons rnd lvl) = Z.to_nat lvl)
    by apply randomButtons_length.
  assert (Hne : randomButtons rnd lvl ≠ []).
  { intros Hnil. rewrite Hnil in Hlen. simpl in Hlen. lia. }
  destruct (playback_run _ _ _ _ (randomButtons_valid rnd lvl) Hne Hp0)
    as (s' & Hrun & Hshow' & Hact' & Hp' & Hclk & Haud & _ & Hg' & _ & Hseq' & Hpl' & _).
  rewrite Hlen in Hrun. exists s'.
  split_and!; rewrite ?Hseq', ?Hseq0, ?Hpl', ?Hpl0, ?Hg', ?Hg0;
    first [ done | apply randomButtons_valid
          | (unfold len; rewrite ?Hclk, ?Hc0, ?Hlen; unfold len; rewrite ?Hlen; lia)
          | (rewrite Haud; unfold heard; by rewrite Hse0, Ha0) ].
Qed.

Lemma simon_level_is_played_witness :
  ∃ s', run (replicate 5 (Fire, [])) (initSimonGameAtLevel [1%nat; 3%nat] 2 initialState)
        = Some s'
        ∧ isShowingSequence (simonG s') = false.
Proof.
  destruct (simon_level_is_played [1%nat; 3%nat] 2 initialState)
    as (s' & Hrun & _ & Hshow & _); [lia|reflexivity|].
  exists s'. split; [exact Hrun|exact Hshow].
Defined.

(** ** A round of Simon *)

Lemma simon_button_rendered s b :
  simonTurn s → validButton b → rendered s (ClickSimonButton b) = true.
Proof.
  intros (Hscr & Hmo & Hty & Hshow & _) Hb.
  unfold rendered, gameContentOffers. rewrite Hscr, Hmo, Hty, Hshow.
  cbn [showWinModal showLevelCompleteModal negb]. rewrite andb_true_r.
  apply bool_decide_eq_true_2. unfold validButton in Hb.
  assert (b = 0 ∨ b = 1 ∨ b = 2 ∨ b = 3) as Hcases by lia.
  destruct Hcases as [Hb0|[Hb0|[Hb0|Hb0]]]; rewrite Hb0;
    apply (bool_decide_unpack _); vm_compute; exact I.
Qed.

(** A button that is not the next of the sequence. *)
Lemma simon_wrong_click (rnd : list nat) (s : State) (b : Z) :
  simonTurn s → validButton b →
  at_index (simonSequence (simonG s)) (len (playerSequence (simonG s))) ≠ Some b →
  ∃ s1, step rnd (User (ClickSimonButton b)) s = Some s1
    ∧ pending (rt s1)
      = [mkTimer (nextTimer (rt s)) (clock (rt s) + 1000)
           (TShowSimonSequence (simonSequence (simonG s)))]
    ∧ clock (rt s1) = clock (rt s)
    ∧ gameState s1 = gameState s ∧ currentScreen s1 = game
    ∧ modals s1 = mkModals false false
    ∧ simonSequence (simonG s1) = simonSequence (simonG s)
    ∧ playerSequence (simonG s1) = []
    ∧ isShowingSequence (simonG s1) = true.
Proof.
  intros Hturn Hb Hwrong.
  pose proof (simon_button_rendered s b Hturn Hb) as Hren.
  destruct (validButton_color b Hb) as [c Hc].
  destruct Hturn as (Hscr & Hmo & Hty & Hshow & Hpend).
  unfold step. rewrite Hren. eexists. split; [reflexivity|].
  cbn [handle]. unfold handleSimonClick. rewrite Hshow, Hc. cbv zeta.
  rewrite len_snoc, at_index_snoc.
  rewrite decide_True by (intros Heq; by rewrite <- Heq in Hwrong).
  split_state s; cbn in Hscr, Hmo, Hpend; subst; unfold setTimeout; exec_all; done.
Qed.

(** A wrong button costs nothing but time: the score stays, the same
    sequence is played again from its start, and then the player may
    answer again from the first button. *)
Theorem simon_wrong_button_replays (rnd : list nat) (s : State) (b : Z) :
  simonTurn s → validButton b →
  Forall validButton (simonSequence (simonG s)) → simonSequence (simonG s) ≠ [] →
  at_index (simonSequence (simonG s)) (len (playerSequence (simonG s))) ≠ Some b →
  ∃ s', run ((User (ClickSimonButton b), rnd)
             :: replicate (2 * length (simonSequence (simonG s)) + 1) (Fire, [])) s
        = Some s'
    ∧ simonTurn s'
    ∧ gameState s' = gameState s
    ∧ simonSequence (simonG s') = simonSequence (simonG s)
    ∧ playerSequence (simonG s') = []
    ∧ clock (rt s') = clock (rt s) + 1200 + 800 * len (simonSequence (simonG s)).
Proof.
  intros Hturn Hb Hv Hne Hwrong.
  destruct (simon_wrong_click rnd s b Hturn Hb Hwrong)
    as (s1 & Hs1 & Hp1 & Hc1 & Hg1 & Hscr1 & Hmo1 & Hseq1 & Hpl1 & Hshow1).
  destruct (playback_run s1 _ _ _ Hv Hne Hp1)
    as (s' & Hrun & Hshow & _ & Hp & Hclk & _ & Hscr & Hg & Hmo & Hseq & Hpl & _).
  exists s'. cbn [run]. rewrite Hs1, Hrun.
  destruct Hturn as (_ & _ & Hty & _ & _).
  split_and!; try done.
  - unfold simonTurn. rewrite Hscr, Hscr1, Hmo, Hmo1, Hg, Hg1. done.
  - by rewrite Hg, Hg1.
  - by rewrite Hseq, Hseq1.
  - by rewrite Hpl, Hpl1.
  - rewrite Hclk, Hc1. lia.
Qed.

Lemma simon_wrong_button_replays_witness :
  ∃ s', simonTurn s' ∧ playerSequence (simonG s') = [] ∧ clock (rt s') = 3500.
Proof.
  destruct (simon_wrong_button_replays []
              (default initialState
                 (run ((User (ClickPlay Simon), [2%nat]) :: replicate 3 (Fire, []))
                    initialState)) 0)
    as (s' & _ & Hturn & _ & _ & Hpl & Hclk).
  - repeat split; reflexivity.
  - unfold validButton. lia.
  - change (Forall validButton [2]). repeat constructor; unfold validButton; lia.
  - change ([2] ≠ ([] : list Z)). discriminate.
  - change (at_index [2] 0 ≠ Some 0). discriminate.
  - exists s'. split_and!; [exact Hturn|exact Hpl|exact Hclk].
Defined.






(** ** The audio boundary *)

Lemma rendered_silence s i : rendered (silence s) i = rendered s i.
Proof. by split_state s. Qed.

Lemma silence_eq_fields s1 s2 :
  silence s1 = silence s2 →
  ∃ b a, s2 = updRuntime (λ r, mkRuntime (clock r) (nextTimer r) (pending r)
                (showSequenceTimeoutRef r) (cardObjects r) b a) s1.
Proof.
  intros Heq. exists (soundEnabled (rt s2)), (audio (rt s2)).
  destruct s1 as [? ? ? ? ? ? ? ? ? []], s2 as [? ? ? ? ? ? ? ? ? []].
  unfold silence in Heq. cbn in *. by simplify_eq.
Qed.

(** The scrutinee of a [match] of the goal, with its reads of the state
    carried out. *)
Ltac norm_scrutinee :=
  match goal with
  | |- context [match ?x with _ => _ end] =>
      let x' := eval cbn [currentScreen gameState memoryG findPairG patternG differentG
       sequenceG simonG
       modals rt type level maxLevel score attempts memoryCards selectedCards
       selectedPair pairedItems currentFindPairLevel currentPatternIndex patternFeedback
       currentDifferentIndex differentFeedback currentSequenceIndex sequenceItems
       simonSequence playerSequence isShowingSequence activeSimonButton
       showLevelCompleteModal showWinModal clock nextTimer pending
       showSequenceTimeoutRef cardObjects soundEnabled audio sel_image sel_word
       tid due action
       setTimeoutRef setClock setCardObjects setSoundEnabled clearTimeout
       setTimeout playSound
       setMemoryCards setSelectedCards setSelectedPair setPairedItems
       setCurrentFindPairLevel setCurrentPatternIndex setPatternFeedback
       setCurrentDifferentIndex setDifferentFeedback setCurrentSequenceIndex
       setSequenceItems setSimonSequence setPlayerSequence setIsShowingSequence
       setActiveSimonButton setShowLevelCompleteModal setShowWinModal
       setCurrentScreen setGameState
       updMemory updFindPair updPattern updDifferent updSequence updSimon
       updModals updRuntime withLevel withLevelMax withScore withAttempts
       fst snd negb cardAt] in x in
      assert_fails (constr_eq x x');
      let Hx := fresh in
      assert (Hx : x = x') by reflexivity; rewrite Hx; clear Hx
  end.

Ltac exec_both :=
  repeat first [ progress cbv beta iota zeta | norm_scrutinee | case_match | case_decide ];
  simplify_eq; cbn [negb MAX_LEVELS]; proj_simpl.

Lemma silence_ext s s' :
  currentScreen s = currentScreen s' → gameState s = gameState s' →
  memoryG s = memoryG s' → findPairG s = findPairG s' → patternG s = patternG s' →
  differentG s = differentG s' → sequenceG s = sequenceG s' → simonG s = simonG s' →
  modals s = modals s' → clock (rt s) = clock (rt s') →
  nextTimer (rt s) = nextTimer (rt s') → pending (rt s) = pending (rt s') →
  showSequenceTimeoutRef (rt s) = showSequenceTimeoutRef (rt s') →
  cardObjects (rt s) = cardObjects (rt s') →
  silence s = silence s'.
Proof.
  destruct s as [? ? ? ? ? ? ? ? ? []], s' as [? ? ? ? ? ? ? ? ? []]. cbn.
  intros. by simplify_eq.
Qed.

Ltac silence_both_init s1 b :=
  split_state s1; destruct b; cbn [updRuntime rt currentScreen gameState memoryG
    findPairG patternG differentG sequenceG simonG modals clock nextTimer pending
    showSequenceTimeoutRef cardObjects].

Lemma handle_silence rnd i s1 s2 :
  silence s1 = silence s2 → silence (handle rnd i s1) = silence (handle rnd i s2).
Proof.
  intros Heq. destruct (silence_eq_fields _ _ Heq) as (b & a & ->). clear Heq.
  destruct i;
    [..|apply silence_ext| | | | |];
    silence_both_init s1 b; unfold_callbacks; unfold cardAt; exec_both; reflexivity.
Qed.

Lemma runTimer_silence rnd t s1 s2 :
  silence s1 = silence s2 → silence (runTimer rnd t s1) = silence (runTimer rnd t s2).
Proof.
  intros Heq. destruct (silence_eq_fields _ _ Heq) as (b & a & ->). clear Heq.
  destruct t; apply silence_ext;
    silence_both_init s1 b; unfold_callbacks; unfold cardAt; exec_both; reflexivity.
Qed.

Lemma silence_runtime s1 s2 :
  silence s1 = silence s2 →
  clock (rt s1) = clock (rt s2) ∧ pending (rt s1) = pending (rt s2).
Proof.
  intros Heq. destruct (silence_eq_fields _ _ Heq) as (b & a & ->).
  by split_state s1.
Qed.

Lemma silence_tick s1 s2 c :
  silence s1 = silence s2 → silence (setClock c s1) = silence (setClock c s2).
Proof.
  intros Heq. destruct (silence_eq_fields _ _ Heq) as (b & a & ->).
  by split_state s1.
Qed.

Lemma silence_clearTimeout s1 s2 h :
  silence s1 = silence s2 → silence (clearTimeout h s1) = silence (clearTimeout h s2).
Proof.
  intros Heq. destruct (silence_eq_fields _ _ Heq) as (b & a & ->).
  by split_state s1.
Qed.

Lemma rendered_silent s1 s2 i : silence s1 = silence s2 → rendered s1 i = rendered s2 i.
Proof. intros Heq. by rewrite <- (rendered_silence s1), Heq, rendered_silence. Qed.

Lemma step_silence rnd e s1 s2 :
  silence s1 = silence s2 → silence <$> step rnd e s1 = silence <$> step rnd e s2.
Proof.
  intros Heq. destruct (silence_runtime _ _ Heq) as [Hc Hp].
  destruct e as [i| |d]; cbn [step].
  - rewrite (rendered_silent s1 s2 i Heq). case_match; [|done]. cbn [fmap option_fmap option_map].
    f_equal. by apply handle_silence.
  - rewrite Hp, Hc. destruct (earliest (pending (rt s2))) as [t|]; [|done].
    cbn [fmap option_fmap option_map]. f_equal.
    by apply runTimer_silence, silence_clearTimeout, silence_tick.
  - rewrite Hp, Hc. case_match; [|done]. cbn [fmap option_fmap option_map]. f_equal.
    by apply silence_tick.
Qed.

(** The sound switch and what has been played never change what the page
    does: two pages that differ in nothing else go through the same
    events to states that differ in nothing else, or both refuse them. *)
Theorem sound_never_changes_the_game (evs : list (Event * list nat)) (s1 s2 : State) :
  silence s1 = silence s2 → silence <$> run evs s1 = silence <$> run evs s2.
Proof.
  revert s1 s2. induction evs as [|[e rnd] evs IH]; intros s1 s2 Heq; cbn [run].
  - simpl. by rewrite Heq.
  - pose proof (step_silence rnd e s1 s2 Heq) as Hstep.
    destruct (step rnd e s1) as [s1'|], (step rnd e s2) as [s2'|]; try done.
    apply IH. cbn [fmap option_fmap option_map] in Hstep. congruence.
Qed.

Lemma sound_never_changes_the_game_witness :
  silence <$> run [(User (ClickPlay Memory), []); (User (ClickCard 0), [])] initialState
  = silence <$> run [(User (ClickPlay Memory), []); (User (ClickCard 0), [])]
                  (setSoundEnabled false initialState).
Proof. apply sound_never_changes_the_game. reflexivity. Defined.

(** ** Leaving and restarting *)

(** Going back to the menu ends the session and closes the modals; the
    boards of the six games stay as they are, and so does every pending
    timer except the one recorded in [showSequenceTimeoutRef]. *)
Theorem goToMenu_keeps_boards_and_timers (s : State) :
  let s' := goToMenu s in
  currentScreen s' = menu ∧ gameState s' = mkGameState None 1 1 0 0
  ∧ modals s' = mkModals false false
  ∧ memoryG s' = memoryG s ∧ findPairG s' = findPairG s ∧ patternG s' = patternG s
  ∧ differentG s' = differentG s ∧ sequenceG s' = sequenceG s ∧ simonG s' = simonG s
  ∧ cardObjects (rt s') = cardObjects (rt s)
  ∧ showSequenceTimeoutRef (rt s') = None
  ∧ (∀ t, t ∈ pending (rt s')
          ↔ t ∈ pending (rt s) ∧ Some (tid t) ≠ showSequenceTimeoutRef (rt s))
  ∧ (∀ i, rendered s' i = true ↔ ∃ t, i = ClickPlay t).
Proof.
  cbv zeta. unfold goToMenu.
  split_state s; destruct tref as [h|]; exec_all; unfold rendered; cbn [currentScreen];
    (split_and!; try done);
    try (intros t; rewrite ?list_elem_of_filter; intuition congruence);
    (intros i; split; [destruct i; try done; by eexists|by intros [t ->]]).
Qed.

(** Restarting is starting the current game type again; without a game
    type it only closes the modals. *)
Theorem restartGame_is_startGame (rnd : list nat) (s : State) :
  silence (restartGame rnd s)
  = match type (gameState s) with
    | Some t => silence (startGame rnd t s)
    | None => silence (setShowWinModal false (setShowLevelCompleteModal false s))
    end.
Proof.
  unfold restartGame, startGame, startGameReset.
  split_state s; destruct gs as [[t|] ? ? ? ?]; cbn [type gameState]; try reflexivity;
    destruct t; reflexivity.
Qed.

(** * Completion and points *)

(** ** The last pair of a find-the-pair level *)

Lemma find_selected_pair (rows : list PairRow) (p : PairRow) :
  p ∈ rows →
  ∃ p', List.find (λ r, bool_decide (Some (image r) = Some (image p))
                        && bool_decide (Some (word r) = Some (word p))) rows = Some p'
        ∧ p' ∈ rows ∧ image p' = image p ∧ word p' = word p.
Proof.
  intros Hp. destruct (List.find _ _) as [p'|] eqn:Hfind.
  - apply find_some in Hfind as [Hin%list_elem_of_In Hf].
    apply andb_true_iff in Hf as [Hi%bool_decide_eq_true Hw%bool_decide_eq_true].
    exists p'. split_and!; [done|done|congruence..].
  - pose proof (find_none _ _ Hfind p (proj1 (list_elem_of_In _ _) Hp)) as Hf.
    cbv beta in Hf. by rewrite !bool_decide_eq_true_2 in Hf.
Qed.

(** A click that completes a new pair: the pair is recorded and paid, and
    the level-progression routine is called exactly when the test on the
    set before the insertion holds. *)
Lemma handleFindPairSelect_match side value s p :
  matchesNewPair side value s p →
  pairedItems (findPairG (handleFindPairSelect side value s))
  = pairedItems (findPairG s) ∪ {[ image p ]}
  ∧ gameState (handleFindPairSelect side value s)
    = withScore (score (gameState s) + 10) (gameState s)
  ∧ selectedPair (findPairG (handleFindPairSelect side value s)) = mkSelectedPair None None
  ∧ if isLastPair (pairedItems (findPairG s))
         (at_index pairsCountMap (currentFindPairLevel (findPairG s) - 1))
    then
      modals (handleFindPairSelect side value s)
      = modals (autoAdvanceLevel (gameState s) s)
      ∧ pending (rt (handleFindPairSelect side value s))
        = pending (rt (autoAdvanceLevel (gameState s) s))
    else
      modals (handleFindPairSelect side value s) = modals s
      ∧ pending (rt (handleFindPairSelect side value s)) = pending (rt s).
Proof.
  intros (Hp & Hsel & Hnew).
  destruct (levelPairs_facts _ p p Hp Hp) as (Hi & Hw & _).
  destruct (find_selected_pair _ p Hp) as (p' & Hfind & _ & Hi' & _).
  unfold handleFindPairSelect. cbv zeta.
  change (match side with
          | side_image => mkSelectedPair (Some value) (sel_word (selectedPair (findPairG s)))
          | side_word => mkSelectedPair (sel_image (selectedPair (findPairG s))) (Some value)
          end) with (selectionAfter side value s).
  rewrite Hsel. cbn [sel_image sel_word truthy].
  rewrite !bool_decide_eq_true_2 by done. cbn [andb].
  fold (levelPairs (currentFindPairLevel (findPairG s))). rewrite Hfind, Hi'.
  rewrite bool_decide_eq_true_2 by done.
  split_state s; unfold autoAdvanceLevel, setTimeout; exec_all; done.
Qed.

(** A click that does not complete a new pair records nothing and never
    calls the level-progression routine. *)
Lemma handleFindPairSelect_nomatch side value s :
  (∀ p, ¬ matchesNewPair side value s p) →
  pairedItems (findPairG (handleFindPairSelect side value s)) = pairedItems (findPairG s)
  ∧ gameState (handleFindPairSelect side value s) = gameState s
  ∧ modals (handleFindPairSelect side value s) = modals s
  ∧ pending (rt (handleFindPairSelect side value s)) = pending (rt s).
Proof.
  intros Hno. unfold handleFindPairSelect. cbv zeta.
  change (match side with
          | side_image => mkSelectedPair (Some value) (sel_word (selectedPair (findPairG s)))
          | side_word => mkSelectedPair (sel_image (selectedPair (findPairG s))) (Some value)
          end) with (selectionAfter side value s).
  fold (levelPairs (currentFindPairLevel (findPairG s))).
  destruct (truthy (sel_image (selectionAfter side value s))
            && truthy (sel_word (selectionAfter side value s))) eqn:Htruthy;
    [|by split_state s].
  destruct (List.find _ _) as [p'|] eqn:Hfind; [|by split_state s].
  destruct (bool_decide (image p' ∉ pairedItems (findPairG s))) eqn:Hnew;
    [|by split_state s].
  exfalso. apply (Hno p').
  apply find_some in Hfind as [Hin%list_elem_of_In Hf].
  apply andb_true_iff in Hf as [Hi%bool_decide_eq_true Hw%bool_decide_eq_true].
  apply bool_decide_eq_true in Hnew.
  split_and!; [done| |done].
  destruct (selectionAfter side value s); cbn in *. by subst.
Qed.

Lemma matchesNewPair_dec side value s :
  (∃ p, matchesNewPair side value s p) ∨ (∀ p, ¬ matchesNewPair side value s p).
Proof.
  unfold matchesNewPair.
  destruct (selectionAfter side value s) as [[i|] [w|]];
    try (right; intros p (_ & Hs & _); discriminate Hs).
  destruct (decide (Exists (λ p, image p = i ∧ word p = w
                                 ∧ image p ∉ pairedItems (findPairG s))
                      (levelPairs (currentFindPairLevel (findPairG s))))) as [He|He].
  - left. apply Exists_exists in He as (p & Hp & <- & <- & Hnew). by exists p.
  - right. intros p (Hp & Hs & Hnew). apply He, Exists_exists. exists p.
    injection Hs as -> ->. done.
Qed.

Lemma autoAdvanceLevel_modal gs s :
  (showLevelCompleteModal (modals (autoAdvanceLevel gs s))
   || showWinModal (modals (autoAdvanceLevel gs s))) = true.
Proof.
  unfold autoAdvanceLevel. case_decide; split_state s; cbn; by rewrite ?orb_true_r.
Qed.

(** C6.  In a state the page can reach, at a find-the-pair level with
    [n] pairs, for a picture or word that can be clicked.  When the click
    completes the picture and the word of a pair [p] of the level that is
    not matched yet, the handler records it: the matched set grows by
    [image p], by exactly one element; the test [pairedItems.size === n - 1]
    on the set before the insertion holds exactly when the set after it
    holds every image of the level; and exactly when the test holds the
    modals and timers are those [autoAdvanceLevel] produces.  A click that
    completes no new pair records nothing and leaves modals and timers
    alone.  So the handler signals level completion (one of the two modals
    comes up) exactly when the click completes a new pair and all pairs of
    the level are matched once it is inserted. *)
Theorem findPair_completion_iff (side : PairSide) (value : string) (s : State) (n : Z) :
  reachable s →
  rendered s (ClickFindPair side value) = true →
  at_index pairsCountMap (currentFindPairLevel (findPairG s) - 1) = Some n →
  let s' := handleFindPairSelect side value s in
  let before := pairedItems (findPairG s) in
  let all : gset string :=
    list_to_set (levelImages (currentFindPairLevel (findPairG s))) in
  Z.of_nat (size all) = n
  ∧ (∀ p, matchesNewPair side value s p →
       pairedItems (findPairG s') = before ∪ {[ image p ]}
       ∧ size (pairedItems (findPairG s')) = S (size before)
       ∧ (isLastPair before (Some n) = true ↔ pairedItems (findPairG s') = all)
       ∧ if isLastPair before (Some n) then
           modals s' = modals (autoAdvanceLevel (gameState s) s)
           ∧ pending (rt s') = pending (rt (autoAdvanceLevel (gameState s) s))
         else modals s' = modals s ∧ pending (rt s') = pending (rt s))
  ∧ ((∀ p, ¬ matchesNewPair side value s p) →
       pairedItems (findPairG s') = before
       ∧ modals s' = modals s ∧ pending (rt s') = pending (rt s))
  ∧ ((showLevelCompleteModal (modals s') || showWinModal (modals s')) = true
     ↔ ∃ p, matchesNewPair side value s p ∧ before ∪ {[ image p ]} = all).
Proof.
  intros Hr Hren Hn. cbv zeta.
  set (before := pairedItems (findPairG s)).
  set (s' := handleFindPairSelect side value s).
  set (all := list_to_set (levelImages (currentFindPairLevel (findPairG s))) : gset string).
  pose proof (reachable_pairedWithinLevel s Hr) as Hinv.
  pose proof (rendered_findPair_no_modal s side value Hren) as Hmo.
  destruct (levelImages_count _ _ Hn) as [Hnd Hlen].
  assert (Z.of_nat (size all) = n) as Hall.
  { subst all. by rewrite size_list_to_set. }
  assert (before ⊆ all) as Hsub.
  { intros x Hx. apply elem_of_list_to_set. by apply Hinv. }
  assert (Hmatch : ∀ p, matchesNewPair side value s p →
            pairedItems (findPairG s') = before ∪ {[ image p ]}
            ∧ size (pairedItems (findPairG s')) = S (size before)
            ∧ (isLastPair before (Some n) = true ↔ pairedItems (findPairG s') = all)
            ∧ (isLastPair before (Some n) = true ↔ before ∪ {[ image p ]} = all)).
  { intros p Hp. destruct (handleFindPairSelect_match side value s p Hp) as (Hins & _).
    fold s' before in Hins. destruct Hp as (Hp & _ & Hnew). fold before in Hnew.
    assert (image p ∈ all) as Hpall.
    { apply elem_of_list_to_set. unfold levelImages. by apply list_elem_of_fmap_2. }
    assert (size (before ∪ {[ image p ]}) = S (size before)) as Hsize.
    { rewrite size_union by (by apply disjoint_singleton_r). rewrite size_singleton. lia. }
    assert (before ∪ {[ image p ]} ⊆ all) as Hsub'.
    { apply union_least; [done|]. by apply singleton_subseteq_l. }
    assert (isLastPair before (Some n) = true ↔ before ∪ {[ image p ]} = all) as Hiff.
    { unfold isLastPair. rewrite bool_decide_eq_true. split.
      - intros E. apply set_subseteq_size_eq; [done|]. rewrite Hsize. lia.
      - intros E. rewrite <- E, Hsize in Hall. lia. }
    rewrite Hins. done. }
  split; [done|]. split_and!.
  - intros p Hp. destruct (Hmatch p Hp) as (H1 & H2 & H3 & _).
    destruct (handleFindPairSelect_match side value s p Hp) as (_ & _ & _ & Hrest).
    rewrite Hn in Hrest. fold s' before in Hrest. done.
  - intros Hno. destruct (handleFindPairSelect_nomatch side value s Hno) as (H1 & _ & H2 & H3).
    done.
  - split.
    + intros Hmodal.
      destruct (matchesNewPair_dec side value s) as [[p Hp]|Hno].
      * exists p. split; [done|]. destruct (Hmatch p Hp) as (_ & _ & _ & Hiff).
        apply Hiff.
        destruct (handleFindPairSelect_match side value s p Hp) as (_ & _ & _ & Hrest).
        rewrite Hn in Hrest. fold s' before in Hrest.
        destruct (isLastPair before (Some n)); [done|].
        destruct Hrest as [Hm _]. rewrite Hm, Hmo in Hmodal. done.
      * destruct (handleFindPairSelect_nomatch side value s Hno) as (_ & _ & Hm & _).
        fold s' in Hm. rewrite Hm, Hmo in Hmodal. done.
    + intros (p & Hp & Hfull). destruct (Hmatch p Hp) as (_ & _ & _ & Hiff).
      apply Hiff in Hfull.
      destruct (handleFindPairSelect_match side value s p Hp) as (_ & _ & _ & Hrest).
      rewrite Hn in Hrest. fold s' before in Hrest. rewrite Hfull in Hrest.
      destruct Hrest as [Hm _]. rewrite Hm.
      apply autoAdvanceLevel_modal.
Qed.

(** The third pair of level 1, the last one: the word chosen after its
    picture, with the two other pairs matched. *)
Lemma findPair_completion_iff_witness :
  ∃ s, run [ (User (ClickPlay FindPair), []);
             (User (ClickFindPair side_image "🐶"), []);
             (User (ClickFindPair side_word "Cachorro"), []);
             (User (ClickFindPair side_image "🐱"), []);
             (User (ClickFindPair side_word "Gato"), []);
             (User (ClickFindPair side_image "🐰"), []) ] initialState = Some s
    ∧ size (pairedItems (findPairG s)) = 2%nat
    ∧ pairedItems (findPairG (handleFindPairSelect side_word "Coelho" s))
      = list_to_set (levelImages (currentFindPairLevel (findPairG s)))
    ∧ (showLevelCompleteModal (modals (handleFindPairSelect side_word "Coelho" s))
       || showWinModal (modals (handleFindPairSelect side_word "Coelho" s))) = true.
Proof.
  eexists. split; [vm_compute; reflexivity|].
  match goal with |- size (pairedItems (findPairG ?s0)) = _ ∧ _ =>
    assert (Hp : matchesNewPair side_word "Coelho" s0 (mkPair "🐰" "Coelho"));
    [|destruct (findPair_completion_iff side_word "Coelho" s0 3)
        as (_ & Hmatch & _ & Hiff)]
  end.
  - split_and!.
    + apply (bool_decide_unpack _). vm_compute. exact I.
    + vm_compute. reflexivity.
    + apply (bool_decide_unpack _). vm_compute. exact I.
  - eapply (run_reachable [ (User (ClickPlay FindPair), []);
             (User (ClickFindPair side_image "🐶"), []);
             (User (ClickFindPair side_word "Cachorro"), []);
             (User (ClickFindPair side_image "🐱"), []);
             (User (ClickFindPair side_word "Gato"), []);
             (User (ClickFindPair side_image "🐰"), []) ]);
      [constructor | vm_compute; reflexivity].
  - vm_compute. reflexivity.
  - vm_compute. reflexivity.
  - cbv zeta in Hmatch, Hiff. split_and!.
    + vm_compute. reflexivity.
    + destruct (Hmatch _ Hp) as (_ & _ & Hlast & _). apply Hlast. vm_compute. reflexivity.
    + apply Hiff. eexists. split; [exact Hp|].
      apply (bool_decide_unpack _). vm_compute. exact I.
Defined.

(** ** The pairs of a find-the-pair level *)

Lemma allPairs_same_image p q :
  p ∈ allPairs → q ∈ allPairs → image p = image q → p = q.
Proof.
  intros Hp Hq Hi. pose proof allPairs_distinct as Hd. unfold pairsDistinct in Hd.
  rewrite Forall_forall in Hd. destruct (Hd p Hp) as (_ & _ & Hpq).
  rewrite Forall_forall in Hpq. apply Hpq; [done|]. by left.
Qed.

(** The find-the-pair levels show 3, 5 and 7 pairs, each level the pairs
    of the level before it first, and these are the pairs the selection
    handler accepts: the picture and the word of an unmatched pair of the
    table are recorded exactly when the pair is on screen at the level. *)
Theorem findPairs_progressive (l l' : Z) :
  1 ≤ l ≤ l' → l' ≤ 3 →
  (getFindPairsForLevel l).2 = []
  ∧ len (getFindPairsForLevel l).1 = 2 * l + 1
  ∧ (getFindPairsForLevel l).1 `prefix_of` (getFindPairsForLevel l').1
  ∧ (getFindPairsForLevel l').1 `prefix_of` allPairs
  ∧ ∀ (s : State) (side : PairSide) (value : string) (p : PairRow),
      currentFindPairLevel (findPairG s) = l → p ∈ allPairs →
      selectionAfter side value s = mkSelectedPair (Some (image p)) (Some (word p)) →
      image p ∉ pairedItems (findPairG s) →
      pairedItems (findPairG (handleFindPairSelect side value s))
      = if decide (p ∈ (getFindPairsForLevel l).1)
        then pairedItems (findPairG s) ∪ {[ image p ]}
        else pairedItems (findPairG s).
Proof.
  intros H1 H2.
  assert (Hl : (getFindPairsForLevel l).1 = levelPairs l)
    by (apply getFindPairsForLevel_levelPairs; lia).
  assert (Hl' : (getFindPairsForLevel l').1 = levelPairs l')
    by (apply getFindPairsForLevel_levelPairs; lia).
  rewrite Hl, Hl'.
  assert (l = 1 ∨ l = 2 ∨ l = 3) as Hcl by lia.
  assert (l' = 1 ∨ l' = 2 ∨ l' = 3) as Hcl' by lia.
  split_and!.
  - unfold getFindPairsForLevel. by rewrite invalidLevel_false by lia.
  - destruct Hcl as [->|[->| ->]]; reflexivity.
  - destruct Hcl as [->|[->| ->]]; destruct Hcl' as [->|[->| ->]]; try lia;
      apply (bool_decide_unpack _); vm_compute; exact I.
  - destruct Hcl' as [->|[->| ->]]; apply (bool_decide_unpack _); vm_compute; exact I.
  - intros s side value p Hlvl Hp Hsel Hnew. case_decide as Hin.
    + destruct (handleFindPairSelect_match side value s p) as (-> & _); [|done].
      split_and!; [by rewrite Hlvl|done..].
    + destruct (handleFindPairSelect_nomatch side value s) as (-> & _); [|done].
      intros p' (Hp' & Hsel' & _). apply Hin.
      rewrite Hsel in Hsel'. injection Hsel' as Hi _.
      rewrite Hlvl in Hp'.
      assert (p = p') as ->; [|done].
      apply allPairs_same_image; [done| |done]. by eapply slice0_elem.
Qed.

Lemma findPairs_progressive_witness :
  len (getFindPairsForLevel 1).1 = 3
  ∧ pairedItems (findPairG (handleFindPairSelect side_word "Raposa"
                              (handleFindPairSelect side_image "🦊"
                                 (startGame [] FindPair initialState))))
    = ∅.
Proof.
  destruct (findPairs_progressive 1 2) as (_ & H1 & _ & _ & H2); [lia|lia|].
  split; [exact H1|].
  rewrite (H2 (handleFindPairSelect side_image "🦊" (startGame [] FindPair initialState))
              side_word "Raposa" (mkPair "🦊" "Raposa")).
  - vm_compute. reflexivity.
  - reflexivity.
  - apply (bool_decide_unpack _). vm_compute. exact I.
  - vm_compute. reflexivity.
  - apply (bool_decide_unpack _). vm_compute. exact I.
Defined.

(** ** The points of a correct answer *)

(** The second card of a pair that is alike: the click counts the attempt
    and schedules the callback of a match, 500 ms ahead. *)
Lemma handleCardClick_second_alike (s : State) (first j : Z) (r1 r2 : ref) (a b : Card) :
  selectedCards (memoryG s) = [first] →
  cardAt s (memoryCards (memoryG s)) first = Some (r1, a) →
  cardAt s (memoryCards (memoryG s)) j = Some (r2, b) → r1 ≠ r2 →
  flipped b = false → matched b = false → emoji a = emoji b →
  score (gameState (handleCardClick j s)) = score (gameState s)
  ∧ pending (rt (handleCardClick j s))
    = pending (rt s)
      ++ [mkTimer (nextTimer (rt s)) (clock (rt s) + 500)
            (TMemoryMatch (memoryCards (memoryG s)) first j (gameState s))].
Proof.
  intros Hsel Hca Hcb Hne Hf Hm He.
  destruct (cardAt_inv _ _ _ _ _ Hca) as [Hri Hoi].
  destruct (cardAt_inv _ _ _ _ _ Hcb) as [Hrj Hoj].
  unfold handleCardClick. rewrite Hsel, Hcb, Hf, Hm.
  cbn [length app orb]. rewrite decide_False by done. cbv beta iota zeta.
  rewrite decide_True by done.
  split_state s; cbn in Hri, Hrj, Hoi, Hoj;
    unfold cardAt; cbn [rt cardObjects memoryG memoryCards setCardObjects setMemoryCards
      setSelectedCards setGameState playSound updRuntime updMemory soundEnabled];
    rewrite Hri, Hrj; cbn [mbind option_bind];
    rewrite (lookup_alter_other _ r2 r1) by done;
    rewrite (lookup_alter_same _ r2 _ b) by done;
    rewrite Hoi; cbn [mbind option_bind mret option_ret emoji setFlipped];
    rewrite decide_True by done;
    unfold setTimeout; exec_all; done.
Qed.

Lemma memoryMatchCallback_score newCards first second gs s (r1 r2 : ref) :
  at_index newCards first = Some r1 → at_index newCards second = Some r2 →
  score (gameState (memoryMatchCallback newCards first second gs s))
  = score (gameState s) + 10.
Proof.
  intros H1 H2. unfold memoryMatchCallback. rewrite H1, H2.
  split_state s; unfold autoAdvanceLevel, setTimeout; exec; reflexivity.
Qed.

(** C9, as the code has it.  In the memory, find-the-pair, pattern and
    find-the-different games a correct answer adds exactly 10 to the score,
    whatever the level and whether or not it finishes the puzzle: two cards
    that are alike (paid by the callback that the second click schedules
    500 ms ahead), the picture and the word of a pair of the level not
    matched yet, the answer of the pattern, the position of the odd item.
    In the Simon game a correct button that does not finish the sequence is
    recorded and leaves the score unchanged; the button that finishes the
    sequence adds 10 times the current level. *)
Theorem correct_answer_points :
  (∀ (s s2 : State) (first j : Z) (r1 r2 : ref) (a b : Card),
     selectedCards (memoryG s) = [first] →
     cardAt s (memoryCards (memoryG s)) first = Some (r1, a) →
     cardAt s (memoryCards (memoryG s)) j = Some (r2, b) → r1 ≠ r2 →
     flipped b = false → matched b = false → emoji a = emoji b →
     score (gameState (handleCardClick j s)) = score (gameState s)
     ∧ pending (rt (handleCardClick j s))
       = pending (rt s)
         ++ [mkTimer (nextTimer (rt s)) (clock (rt s) + 500)
               (TMemoryMatch (memoryCards (memoryG s)) first j (gameState s))]
     ∧ score (gameState (memoryMatchCallback (memoryCards (memoryG s)) first j
                           (gameState s) s2))
       = score (gameState s2) + 10)
  ∧ (∀ (s : State) (side : PairSide) (value : string) (p : PairRow),
       matchesNewPair side value s p →
       score (gameState (handleFindPairSelect side value s)) = score (gameState s) + 10)
  ∧ (∀ (s : State) (answer : string) (prow : PatternRow),
       at_index (slice0 allPatterns (Some (level (gameState s))))
         (currentPatternIndex (patternG s)) = Some prow →
       answer = p_answer prow →
       score (gameState (handlePatternAnswer answer s)) = score (gameState s) + 10)
  ∧ (∀ (s : State) (index : Z) (drow : DifferentRow),
       at_index (slice0 allLevels (Some (level (gameState s))))
         (currentDifferentIndex (differentG s)) = Some drow →
       index = d_different drow →
       score (gameState (handleDifferentClick index s)) = score (gameState s) + 10)
  ∧ (∀ (s : State) (buttonId : Z) (c : SimonColor),
       isShowingSequence (simonG s) = false →
       at_index SIMON_COLORS buttonId = Some c →
       at_index (simonSequence (simonG s)) (len (playerSequence (simonG s)))
       = Some buttonId →
       (len (playerSequence (simonG s)) + 1 ≠ len (simonSequence (simonG s)) →
          score (gameState (handleSimonClick buttonId s)) = score (gameState s)
          ∧ playerSequence (simonG (handleSimonClick buttonId s))
            = playerSequence (simonG s) ++ [buttonId])
       ∧ (len (playerSequence (simonG s)) + 1 = len (simonSequence (simonG s)) →
          score (gameState (handleSimonClick buttonId s))
          = score (gameState s) + 10 * level (gameState s))).
Proof.
  split_and!.
  - intros s s2 first j r1 r2 a b Hsel Hca Hcb Hne Hf Hm He.
    destruct (handleCardClick_second_alike s first j r1 r2 a b) as [H1 H2]; try done.
    split_and!; [done..|].
    destruct (cardAt_inv _ _ _ _ _ Hca) as [Hri _].
    destruct (cardAt_inv _ _ _ _ _ Hcb) as [Hrj _].
    by eapply memoryMatchCallback_score.
  - intros s side value p Hp.
    destruct (handleFindPairSelect_match side value s p Hp) as (_ & -> & _).
    by destruct (gameState s).
  - intros s answer prow H ->. unfold handlePatternAnswer. rewrite H.
    rewrite bool_decide_eq_true_2 by done. split_state s; reflexivity.
  - intros s index drow H ->. unfold handleDifferentClick. rewrite H.
    rewrite bool_decide_eq_true_2 by done. split_state s; reflexivity.
  - intros s buttonId c Hshow Hc Hb. unfold handleSimonClick. rewrite Hshow, Hc. cbv zeta.
    rewrite len_snoc, at_index_snoc, Hb.
    rewrite decide_False by (intros ?; congruence).
    replace (len (playerSequence (simonG s) ++ [buttonId]))
      with (len (playerSequence (simonG s)) + 1)
      by (unfold len; rewrite length_app; simpl; lia).
    split; intros Hlen.
    + rewrite decide_False by done. split_state s; split; reflexivity.
    + rewrite decide_True by done. split_state s; reflexivity.
Qed.

(** A pair of memory cards at level 1, the first pair of find-the-pair, a
    right answer of the pattern and of the odd-one-out game at level 3, and
    the two buttons of a Simon sequence at level 2. *)
Lemma correct_answer_points_witness :
  score (gameState (memoryMatchCallback [0%nat; 1%nat; 2%nat; 3%nat] 0 2
                      (mkGameState (Some Memory) 1 5 0 0)
                      (handleCardClick 2 (handleCardClick 0 (startGame [] Memory initialState)))))
  = 0 + 10
  ∧ score (gameState (handleFindPairSelect side_word "Cachorro"
                        (handleFindPairSelect side_image "🐶"
                           (startGame [] FindPair initialState))))
    = 0 + 10
  ∧ score (gameState (handlePatternAnswer "🔵"
             (setGameState (λ _, mkGameState (Some Pattern) 3 5 20 0) initialState)))
    = 20 + 10
  ∧ score (gameState (handleDifferentClick 3
             (setGameState (λ _, mkGameState (Some Different) 3 5 20 0) initialState)))
    = 20 + 10
  ∧ score (gameState (handleSimonClick 0
             (setSimonSequence [0; 1]
                (setGameState (λ _, mkGameState (Some Simon) 2 10 10 0) initialState))))
    = 10
  ∧ score (gameState (handleSimonClick 1
             (setPlayerSequence [0]
                (setSimonSequence [0; 1]
                   (setGameState (λ _, mkGameState (Some Simon) 2 10 10 0) initialState)))))
    = 10 + 10 * 2.
Proof.
  destruct correct_answer_points as (Hm & Hf & Hp & Hd & Hs).
  split_and!.
  - destruct (Hm (handleCardClick 0 (startGame [] Memory initialState))
                (handleCardClick 2 (handleCardClick 0 (startGame [] Memory initialState)))
                0 2 0%nat 2%nat (mkCard 0 "🐶" true false) (mkCard 2 "🐶" false false))
      as (_ & _ & H); [vm_compute; reflexivity..|lia|reflexivity|reflexivity|reflexivity|].
    exact H.
  - apply (Hf (handleFindPairSelect side_image "🐶" (startGame [] FindPair initialState))
              side_word "Cachorro" (mkPair "🐶" "Cachorro")).
    split_and!.
    + apply (bool_decide_unpack _). vm_compute. exact I.
    + vm_compute. reflexivity.
    + apply (bool_decide_unpack _). vm_compute. exact I.
  - apply (Hp (setGameState (λ _, mkGameState (Some Pattern) 3 5 20 0) initialState) "🔵"
              (mkPattern ["🔴"; "🔵"; "🔴"; "🔵"; "🔴"; "?"] "🔵" ["🔵"; "🟡"; "🟢"]));
      reflexivity.
  - apply (Hd (setGameState (λ _, mkGameState (Some Different) 3 5 20 0) initialState) 3
              (mkDifferent ["🐶"; "🐶"; "🐶"; "🐱"; "🐶"] 3)); reflexivity.
  - destruct (Hs (setSimonSequence [0; 1]
                    (setGameState (λ _, mkGameState (Some Simon) 2 10 10 0) initialState))
                0 (mkSimonColor 0 "green" simon_green)) as [H _]; [reflexivity..|].
    destruct H as [H _]; [vm_compute; discriminate|]. exact H.
  - destruct (Hs (setPlayerSequence [0]
                    (setSimonSequence [0; 1]
                       (setGameState (λ _, mkGameState (Some Simon) 2 10 10 0)
                          initialState)))
                1 (mkSimonColor 1 "red" simon_red)) as [_ H]; [reflexivity..|].
    apply H. reflexivity.
Defined.
